(** * TabRouter: the hierarchical navigation-state reducer

    A shallow embedding of [src/routers/TabRouter.js].  JavaScript objects
    that the reducer compares by identity or assigns to (navigation states
    and routes) live in an explicit store and are named by locations; the
    reducer is a computation in a store-and-exception monad.  Nested routers
    are values of the record [Router.t], so a [TabRouter] can own arbitrary
    child routers, among them other [TabRouter]s.

    The embedding covers the construction of the router (lines 26-54),
    [getStateForAction] (lines 56-282), the lookup of components (lines
    284-302), [getPathAndParamsForState] and [getActionForPathAndParams]
    (lines 304-364); the screen options are left out.  [routeConfigs] and
    [tabRouters] are read as JavaScript reads a plain object: a name they
    do not have is looked up in [Object.prototype]. *)

From stdpp Require Import base option list strings gmap.
From Stdlib Require Import ZArith.

Local Open Scope string_scope.
Local Open Scope list_scope.

(** ** Values *)

(** Values stored in a [params] mapping. *)
Inductive pval :=
  | PStr (s : string)
  | PNum (z : Z)
  | PBool (b : bool).

#[global] Instance pval_eq_dec : EqDecision pval.
Proof. solve_decision. Defined.

Abbreviation Params := (gmap string pval).

(** The object spread [{...a, ...b}] of two mappings: [b] wins. *)
Definition spread (a b : Params) : Params := b ∪ a.

(** [{...x}] of a mapping that may be [undefined]. *)
Definition orEmpty (p : option Params) : Params := default ∅ p.

(** Locations of objects in the store. *)
Abbreviation loc := nat.

(** An array slot.  [routes[i] = x] beyond the end of an array leaves holes,
    which [Array.prototype.map] skips and the spread [[...a]] turns into
    [undefined]. *)
Inductive elem :=
  | EHole
  | EUndef
  | ERef (l : loc).

#[global] Instance elem_eq_dec : EqDecision elem.
Proof. solve_decision. Defined.

(** A navigation state or route object.  A route that owns a nested router
    is at once a route ([key], [routeName], [params]) and the state of the
    nested router ([index], [routes]); a property that is [undefined] is
    [None].  An [index] is a position in an array, a natural number.

    Arrays are held by value.  The source never writes to an array that is
    already stored in an object: every write (lines 153, 205, 225, 266) is to
    a copy made on the line before. *)
Record JsObj := mkObj {
  o_key : option string;
  o_routeName : option string;
  o_params : option Params;
  o_index : option nat;
  o_routes : option (list elem);
}.

#[global] Instance JsObj_eq_dec : EqDecision JsObj.
Proof. solve_decision. Defined.

Definition emptyObj : JsObj := mkObj None None None None None.

Definition set_key (k : string) (o : JsObj) : JsObj :=
  mkObj (Some k) (o_routeName o) (o_params o) (o_index o) (o_routes o).
Definition set_routeName (n : string) (o : JsObj) : JsObj :=
  mkObj (o_key o) (Some n) (o_params o) (o_index o) (o_routes o).
Definition set_params (p : Params) (o : JsObj) : JsObj :=
  mkObj (o_key o) (o_routeName o) (Some p) (o_index o) (o_routes o).
Definition set_index (i : option nat) (o : JsObj) : JsObj :=
  mkObj (o_key o) (o_routeName o) (o_params o) i (o_routes o).
Definition set_routes (r : list elem) (o : JsObj) : JsObj :=
  mkObj (o_key o) (o_routeName o) (o_params o) (o_index o) (Some r).

(** ** Arrays *)

(** [a[i]]: [undefined] out of range, on a hole and on an index that is
    itself [undefined]. *)
Definition arr_get (a : list elem) (i : option nat) : option loc :=
  match i with
  | Some n => match a !! n with Some (ERef l) => Some l | _ => None end
  | None => None
  end.

(** [[...a]] *)
Definition arr_copy (a : list elem) : list elem :=
  map (fun e => match e with EHole => EUndef | _ => e end) a.

(** [a[i] = x]: JavaScript extends the array when [i] is past its end.  An
    [undefined] index names the property "undefined", not an element. *)
Definition arr_set (a : list elem) (i : option nat) (x : elem) : list elem :=
  match i with
  | Some n =>
      if decide (n < length a) then <[n := x]> a
      else a ++ replicate (n - length a) EHole ++ [x]
  | None => a
  end.

(** [a.indexOf(x)] for an object [x], by identity. *)
Fixpoint arr_indexOf (a : list elem) (x : loc) : option nat :=
  match a with
  | [] => None
  | e :: a' =>
      if decide (e = ERef x) then Some 0 else S <$> arr_indexOf a' x
  end.

(** [order.indexOf(name)], [-1] when absent. *)
Fixpoint indexOf (l : list string) (name : option string) (i : Z) : Z :=
  match l with
  | [] => (-1)%Z
  | x :: l' => if decide (Some x = name) then i else indexOf l' name (i + 1)%Z
  end.

(** JavaScript truthiness of a string that may be [undefined]. *)
Definition truthy (s : option string) : bool :=
  match s with
  | Some s => bool_decide (s ≠ EmptyString)
  | None => false
  end.

(** The property name an optional string denotes in [obj[s]]. *)
Definition js_key (s : option string) : string := default "undefined" s.

(** ** Actions *)

Inductive ActionType :=
  | INIT
  | NAVIGATE
  | BACK
  | SET_PARAMS
  | PASS
  | OTHER (tag : string).

#[global] Instance ActionType_eq_dec : EqDecision ActionType.
Proof. solve_decision. Defined.

(** An action object: the reducer reads [type], [routeName], [key],
    [params] and [action] off any action, whatever its type. *)
#[warnings="-register-all"]
Inductive Action := mkAction {
  a_type : ActionType;
  a_routeName : option string;
  a_key : option string;
  a_params : option Params;
  a_action : option Action;
}.

(** Modelled from the spec: [NavigationActions] is not among the sources.
    Its action creators build the variants [Init{params?}] and
    [Navigate{routeName, params?, action?}] of the spec's data model. *)
Module NavigationActions.
(** [NavigationActions.init({params})] *)
Definition init (params : option Params) : Action :=
  mkAction INIT None None params None.

(** [NavigationActions.navigate({routeName})] *)
Definition navigate (routeName : string) : Action :=
  mkAction NAVIGATE (Some routeName) None None None.

(** Modelled from the spec: [mapDeprecatedActionAndWarn] is the action
    normalizer, which "maps deprecated/legacy action shapes to current
    canonical action variants"; [Action] holds canonical actions only, on
    which it is the identity. *)
Definition mapDeprecatedActionAndWarn (a : Action) : Action := a.
End NavigationActions.

(** ** The store and the monad *)

Abbreviation Store := (list JsObj).

Inductive Error :=
  | TypeError            (* property access on null or undefined *)
  | InvariantViolation   (* a failed [invariant(...)] *)
  | Dangling             (* a location outside the store: no JavaScript
                            counterpart, a malformed input of the model *)
  | Unmodelled.          (* a configuration the model does not cover *)

Inductive Res (A : Type) :=
  | Ok (a : A) (s : Store)
  | Throw (e : Error).
Arguments Ok {A} a s.
Arguments Throw {A} e.

Definition M (A : Type) := Store -> Res A.

Definition ret {A} (a : A) : M A := fun s => Ok a s.
Definition throw {A} (e : Error) : M A := fun _ => Throw e.
Definition bind {A B} (m : M A) (k : A -> M B) : M B :=
  fun s => match m s with
           | Ok a s' => k a s'
           | Throw e => Throw e
           end.

Notation "x <- m ;; k" := (bind m (fun x => k))
  (at level 100, m at next level, right associativity).

(** Allocation of a new object. *)
Definition alloc (o : JsObj) : M loc := fun s => Ok (length s) (s ++ [o]).

(** Reading all own properties of an object. *)
Definition readObj (l : loc) : M JsObj :=
  fun s => match s !! l with
           | Some o => Ok o s
           | None => Throw Dangling
           end.

(** Assigning to the properties of an existing object. *)
Definition writeObj (l : loc) (o : JsObj) : M unit :=
  fun s => if decide (l < length s) then Ok tt (<[l := o]> s) else Throw Dangling.

(** [{...x}] where [x] may be null: null spreads to nothing. *)
Definition spreadOf (x : option loc) : M JsObj :=
  match x with
  | Some l => readObj l
  | None => ret emptyObj
  end.

(** [a.map(f)] on an array of routes, in order. *)
Fixpoint mapM {A B} (f : A -> M B) (l : list A) : M (list B) :=
  match l with
  | [] => ret []
  | x :: l' => y <- f x ;; ys <- mapM f l' ;; ret (y :: ys)
  end.

(** ** Routers *)

(** The operations of a router this module calls on a nested router.
    [getActionForPathAndParams] is optional (line 345). *)
Module Router.
Record t := mk {
  getStateForAction : Action -> option loc -> M (option loc);
  getPathAndParamsForState : loc -> M (option string * option Params);
  getActionForPathAndParams :
    option (string -> option Params -> M (option Action));
}.
End Router.

(** ** Inherited properties *)

(** [routeConfigs], [paths] and [tabRouters] are plain objects, and a
    property that is not their own is read off [Object.prototype]:
    [tabRouters['constructor']] is the function [Object], not [undefined].
    These are the names [Object.prototype] has. *)
Definition inherited (name : string) : bool :=
  bool_decide (name ∈ ["constructor"; "toString"; "toLocaleString"; "valueOf";
                       "hasOwnProperty"; "isPrototypeOf"; "propertyIsEnumerable";
                       "__defineGetter__"; "__defineSetter__";
                       "__lookupGetter__"; "__lookupSetter__"; "__proto__"]).

(** What an inherited property is to the code that takes it for a router:
    it is truthy and differs from [undefined], and has none of the methods
    of a router, so that calling [getStateForAction] or
    [getPathAndParamsForState] on it throws a TypeError and its
    [getActionForPathAndParams] is [undefined]. *)
Definition inheritedValue : Router.t :=
  Router.mk (fun _ _ => throw TypeError) (fun _ => throw TypeError) None.

(** ** Router configuration (lines 26-54) *)

Record Screen := mkScreen {
  router : option Router.t;
}.

Record RouteConfig := mkRouteConfig {
  screen : option Screen;
  path : option string;
}.

(** A [NavigationRouteConfigMap] is a JavaScript object used as an ordered
    map: [Object.keys] lists the route names in the order of the list. *)
Definition RouteConfigMap := list (string * RouteConfig).

Record TabRouterConfig := mkConfig {
  c_order : option (list string);
  c_paths : option (gmap string string);
  c_initialRouteName : option string;
  c_backBehavior : option string;
}.

Inductive Outcome (A : Type) :=
  | Built (a : A)
  | Failed (e : Error).
Arguments Built {A} a.
Arguments Failed {A} e.

(** The own property [routeName] of [routeConfigs]. *)
Fixpoint lookupConfig (routeConfigs : RouteConfigMap) (routeName : string)
  : option RouteConfig :=
  match routeConfigs with
  | [] => None
  | (n, rc) :: rest =>
      if decide (n = routeName) then Some rc else lookupConfig rest routeName
  end.

(** [routeConfigs[routeName]] as line 41 reads it.  An inherited property
    is there for a name [routeConfigs] does not have: an object whose [path]
    and [screen] are [undefined]. *)
Definition routeConfigOf (routeConfigs : RouteConfigMap) (routeName : string)
  : option RouteConfig :=
  match lookupConfig routeConfigs routeName with
  | Some routeConfig => Some routeConfig
  | None => if inherited routeName then Some (mkRouteConfig None None) else None
  end.

(** Modelled from the spec: [validateRouteConfigMap] is not among the
    sources; it "validates the config map (duplicate route names, malformed
    path values) at construction; fails fatally".  A [path] is a string by
    its type here, which leaves the route names. *)
Definition validateRouteConfigMap (routeConfigs : RouteConfigMap) : Outcome unit :=
  if decide (NoDup routeConfigs.*1) then Built tt else Failed InvariantViolation.

(** Modelled from the spec: [getScreenForRouteName] is not among the
    sources; it "maps a route name to its registered screen handle" and
    "fails fatally if [state.index] has no corresponding route". *)
Definition getScreenForRouteName (routeConfigs : RouteConfigMap)
    (routeName : option string) : Outcome Screen :=
  match lookupConfig routeConfigs (js_key routeName) with
  | Some rc =>
      match screen rc with
      | Some s => Built s
      | None => Failed InvariantViolation
      end
  | None => Failed InvariantViolation
  end.

(** What the closure returned on line 55 captures.  [paths] and
    [tabRouters] hold the own properties of the two objects, whose
    prototype is [Object.prototype]. *)
Record Env := mkEnv {
  routeConfigs : RouteConfigMap;
  order : list string;
  paths : gmap string string;
  initialRouteName : option string;
  initialRouteIndex : nat;
  backBehavior : string;
  shouldBackNavigateToInitialRoute : bool;
  tabRouters : gmap string (option Router.t);
}.

(** [tabRouters[name]]: [undefined], [null] or a router of its own, or
    else what the name inherits. *)
Definition tabRouterOf (env : Env) (name : string) : option (option Router.t) :=
  match tabRouters env !! name with
  | Some tabRouter => Some tabRouter
  | None => if inherited name then Some (Some inheritedValue) else None
  end.

(** The [order.forEach] of lines 40-49: it fills [paths] and [tabRouters],
    and throws on a name of [order] for which [routeConfigs[routeName]] is
    [undefined]. *)
Fixpoint forEachRoute (routeConfigs : RouteConfigMap) (names : list string)
    (paths : gmap string string) (tabRouters : gmap string (option Router.t))
  : Outcome (gmap string string * gmap string (option Router.t)) :=
  match names with
  | [] => Built (paths, tabRouters)
  | routeName :: rest =>
      match routeConfigOf routeConfigs routeName with
      | None => Failed TypeError
      | Some routeConfig =>
          forEachRoute routeConfigs rest
            (<[routeName := default routeName (path routeConfig)]> paths)
            (<[routeName := screen routeConfig ≫= router]> tabRouters)
      end
  end.

(** Lines 26-54.  An assignment to the property [__proto__] of a plain
    object sets its prototype; a router with a route of that name is not
    covered. *)
Definition makeEnv (routeConfigs : RouteConfigMap) (config : TabRouterConfig)
  : Outcome Env :=
  match validateRouteConfigMap routeConfigs with
  | Failed e => Failed e
  | Built _ =>
      let order := default routeConfigs.*1 (c_order config) in
      let paths := default ∅ (c_paths config) in
      let initialRouteName :=
        if truthy (c_initialRouteName config) then c_initialRouteName config
        else order !! 0 in
      let initialRouteIndex := indexOf order initialRouteName 0 in
      let backBehavior :=
        if truthy (c_backBehavior config) then js_key (c_backBehavior config)
        else "initialRoute" in
      let shouldBackNavigateToInitialRoute :=
        bool_decide (backBehavior = "initialRoute") in
      if bool_decide ("__proto__" ∈ order) then Failed Unmodelled
      else
        match forEachRoute routeConfigs order paths ∅ with
        | Failed e => Failed e
        | Built (paths, tabRouters) =>
            if decide (initialRouteIndex = (-1)%Z) then Failed InvariantViolation
            else Built (mkEnv routeConfigs order paths initialRouteName
                          (Z.to_nat initialRouteIndex) backBehavior
                          shouldBackNavigateToInitialRoute tabRouters)
        end
  end.

(** ** StateUtils *)

Module StateUtils.
(** [state.routes], which throws when [state] has no [routes]. *)
Definition routesOf (state : loc) : M (list elem) :=
  o <- readObj state ;;
  match o_routes o with
  | Some r => ret r
  | None => throw TypeError
  end.

(** Position of the first route satisfying [p], [-1] when there is none. *)
Fixpoint position (p : JsObj -> bool) (routes : list elem) (i : Z) : M Z :=
  match routes with
  | [] => ret (-1)%Z
  | ERef l :: rest =>
      o <- readObj l ;;
      if p o then ret i else position p rest (i + 1)%Z
  | _ :: rest => position p rest (i + 1)%Z
  end.

(** Modelled from the spec: [StateUtils] is not among the sources.  The
    Pass branch is to "locate the target route by [action.key] if present,
    else by matching [routeName]". *)
Definition indexOf (state : loc) (key : option string) : M Z :=
  routes <- routesOf state ;;
  position (fun o => bool_decide (o_key o = key)) routes 0.

Definition indexOfByName (state : loc) (routeName : option string) : M Z :=
  routes <- routesOf state ;;
  position (fun o => bool_decide (o_routeName o = routeName)) routes 0.

(** Modelled from the spec: on a non-null result the Pass branch is to
    "replace that slot and return a new root". *)
Definition replaceAtIndex (state : loc) (index : nat) (route : loc) : M loc :=
  o <- readObj state ;;
  routes <- routesOf state ;;
  alloc (set_routes (arr_set (arr_copy routes) (Some index) (ERef route)) o).
End StateUtils.

(** ** The reducer (lines 56-282) *)

(** A block of the reducer either executes a [return] or falls through to
    the next block with the local variables it has set. *)
Inductive Flow (R A : Type) :=
  | Return (r : R)
  | Next (a : A).
Arguments Return {R A} r.
Arguments Next {R A} a.

Section Reducer.
Variable env : Env.

(** [state.routes] and [state.index], read off the store at each use. *)
Definition routesOf (state : loc) : M (list elem) := StateUtils.routesOf state.

Definition stateIndex (state : loc) : M (option nat) :=
  o <- readObj state ;; ret (o_index o).

(** Lines 63-92: establish a default state. *)
Definition initialRoute (action : Action) (routeName : string) : M elem :=
  match tabRouterOf env routeName with
  | Some (Some tabRouter) =>
      let childAction := NavigationActions.init (a_params action) in
      child <- Router.getStateForAction tabRouter childAction None ;;
      o <- spreadOf child ;;
      l <- alloc (set_routeName routeName (set_key routeName o)) ;;
      ret (ERef l)
  | _ =>
      l <- alloc (mkObj (Some routeName) (Some routeName) None None None) ;;
      ret (ERef l)
  end.

Definition establishState (action : Action) (inputState : option loc) : M loc :=
  match inputState with
  | Some state => ret state
  | None =>
      routes <- mapM (initialRoute action) (order env) ;;
      alloc (mkObj None None None (Some (initialRouteIndex env)) (Some routes))
  end.

(** Lines 94-109: an Init action merges its params into all the routes, and
    assigns the new array to [state.routes]. *)
Definition mergeParams (params : Params) (e : elem) : M elem :=
  match e with
  | EHole => ret EHole
  | EUndef => throw TypeError
  | ERef l =>
      route <- readObj l ;;
      l' <- alloc (set_params (spread (orEmpty (o_params route)) params) route) ;;
      ret (ERef l')
  end.

Definition initParams (action : Action) (state : loc) : M unit :=
  if decide (a_type action = INIT) then
    match a_params action with
    | Some params =>
        routes <- routesOf state ;;
        routes' <- mapM (mergeParams params) routes ;;
        o <- readObj state ;;
        writeObj state (set_routes routes' o)
    | None => ret tt
    end
  else ret tt.

(** Lines 111-138: the Pass action.  [tabRouters[name]] is [null] for a
    route without a router, and differs from [undefined] for an inherited
    name as well. *)
Definition passAction (action : Action) (state : loc)
  : M (Flow (option loc) unit) :=
  match a_action action with
  | Some inner =>
      if decide (a_type action = PASS) then
        match tabRouterOf env (js_key (a_routeName action)) with
        | None => ret (Next tt)
        | Some childRouter =>
            childIndex <-
              (if truthy (a_key action)
               then StateUtils.indexOf state (a_key action)
               else StateUtils.indexOfByName state (a_routeName action)) ;;
            if decide (0 <= childIndex)%Z then
              routes <- routesOf state ;;
              match arr_get routes (Some (Z.to_nat childIndex)) with
              | Some childRoute =>
                  match childRouter with
                  | None => throw TypeError
                  | Some childRouter =>
                      route <- Router.getStateForAction childRouter inner (Some childRoute) ;;
                      match route with
                      | Some route =>
                          replaced <- StateUtils.replaceAtIndex state
                                        (Z.to_nat childIndex) route ;;
                          o <- readObj replaced ;;
                          index <- stateIndex state ;;
                          l <- alloc (set_index index o) ;;
                          ret (Return (Some l))
                      | None => ret (Next tt)
                      end
                  end
              | None => ret (Next tt)
              end
            else ret (Next tt)
        end
      else ret (Next tt)
  | None => ret (Next tt)
  end.

(** Lines 140-159: let the current tab handle it.  Falls through with
    [activeTabLastState]. *)
Definition activeTab (action : Action) (inputState : option loc) (state : loc)
  : M (Flow (option loc) (option loc)) :=
  routes <- routesOf state ;;
  index <- stateIndex state ;;
  let activeTabLastState := arr_get routes index in
  match tabRouterOf env (js_key (index ≫= (order env !!.))) with
  | Some (Some activeTabRouter) =>
      activeTabState <-
        Router.getStateForAction activeTabRouter
          (default action (a_action action)) activeTabLastState ;;
      match activeTabState, inputState with
      | None, Some _ => ret (Return None)
      | None, None => ret (Next activeTabLastState)
      | Some newState, _ =>
          if decide (Some newState ≠ activeTabLastState) then
            routes <- routesOf state ;;
            index <- stateIndex state ;;
            o <- readObj state ;;
            l <- alloc (set_routes (arr_set (arr_copy routes) index (ERef newState)) o) ;;
            ret (Return (Some l))
          else ret (Next activeTabLastState)
      end
  | _ => ret (Next activeTabLastState)
  end.

(** Lines 163-172: the tab a Back action moves to. *)
Definition isBackEligible (action : Action) (activeTabLastState : option loc)
  : M bool :=
  match a_key action with
  | None => ret true
  | Some k =>
      match activeTabLastState with
      | None => throw TypeError
      | Some l => o <- readObj l ;; ret (bool_decide (o_key o = Some k))
      end
  end.

Definition backIndex (action : Action) (activeTabLastState : option loc)
    (state : loc) : M (option nat) :=
  activeTabIndex <- stateIndex state ;;
  eligible <- isBackEligible action activeTabLastState ;;
  if bool_decide (a_type action = BACK) && eligible
     && shouldBackNavigateToInitialRoute env
  then ret (Some (initialRouteIndex env))
  else ret activeTabIndex.

(** [order.find((tabId, i) => tabId === routeName)], with the position. *)
Fixpoint findTab (names : list string) (routeName : option string) (i : nat)
  : option (nat * string) :=
  match names with
  | [] => None
  | tabId :: rest =>
      if decide (Some tabId = routeName) then Some (i, tabId)
      else findTab rest routeName (S i)
  end.

(** Lines 173-213: Navigate.  Falls through with [activeTabIndex] and
    [didNavigate]; the latter is [!!] of the name found, so it is false for
    the empty name. *)
Definition navigate (action : Action) (state : loc) (activeTabIndex : option nat)
  : M (Flow (option loc) (option nat * bool)) :=
  if decide (a_type action = NAVIGATE) then
    match findTab (order env) (a_routeName action) 0 with
    | None => ret (Next (activeTabIndex, false))
    | Some (i, tabId) =>
        let activeTabIndex := Some i in
        let didNavigate := truthy (Some tabId) in
        if didNavigate then
          routes <- routesOf state ;;
          let childState := arr_get routes activeTabIndex in
          let tabRouter := tabRouterOf env (js_key (a_routeName action)) in
          newChildState <-
            match a_action action with
            | Some inner =>
                match tabRouter with
                | Some (Some tabRouter) =>
                    Router.getStateForAction tabRouter inner childState
                | _ => ret None
                end
            | None =>
                match tabRouter, a_params action with
                | Some (Some _), _ => ret None
                | _, None => ret None
                | _, Some params =>
                    match childState with
                    | None => throw TypeError
                    | Some l =>
                        o <- readObj l ;;
                        l' <- alloc (set_params
                                       (spread (orEmpty (o_params o)) params) o) ;;
                        ret (Some l')
                    end
                end
            end ;;
          match newChildState with
          | Some new =>
              if decide (Some new ≠ childState) then
                routes <- routesOf state ;;
                o <- readObj state ;;
                l <- alloc (set_index activeTabIndex
                              (set_routes
                                 (arr_set (arr_copy routes) activeTabIndex (ERef new)) o)) ;;
                ret (Return (Some l))
              else ret (Next (activeTabIndex, didNavigate))
          | None => ret (Next (activeTabIndex, didNavigate))
          end
        else ret (Next (activeTabIndex, didNavigate))
    end
  else ret (Next (activeTabIndex, false)).

(** Lines 214-234: SetParams.  [routes.find] reads the [key] of every route
    up to the first match. *)
Fixpoint findRoute (p : JsObj -> bool) (routes : list elem) : M (option loc) :=
  match routes with
  | [] => ret None
  | ERef l :: rest =>
      route <- readObj l ;;
      if p route then ret (Some l) else findRoute p rest
  | _ :: _ => throw TypeError
  end.

Definition setParams (action : Action) (state : loc)
  : M (Flow (option loc) unit) :=
  if decide (a_type action = SET_PARAMS) then
    routes <- routesOf state ;;
    lastRoute <- findRoute (fun route => bool_decide (o_key route = a_key action)) routes ;;
    match lastRoute with
    | Some lastRoute =>
        route <- readObj lastRoute ;;
        let params := spread (orEmpty (o_params route)) (orEmpty (a_params action)) in
        l' <- alloc (set_params params route) ;;
        o <- readObj state ;;
        l <- alloc (set_routes
                      (arr_set (arr_copy routes) (arr_indexOf routes lastRoute) (ERef l'))
                      o) ;;
        ret (Return (Some l))
    | None => ret (Next tt)
    end
  else ret (Next tt).

(** Lines 235-244: a pending change of tab, or a Navigate that changed
    nothing. *)
Definition indexChange (inputState : option loc) (state : loc)
    (activeTabIndex : option nat) (didNavigate : bool)
  : M (Flow (option loc) unit) :=
  index <- stateIndex state ;;
  if decide (activeTabIndex ≠ index) then
    o <- readObj state ;;
    l <- alloc (set_index activeTabIndex o) ;;
    ret (Return (Some l))
  else if didNavigate then
    match inputState with
    | None => ret (Return (Some state))
    | Some _ => ret (Return None)
    end
  else ret (Next tt).

(** Lines 250-271: the [order.find] over the other tabs.  It stops at the
    first tab whose state is missing or has changed, with the new [index]
    and, in the second case, the copy of [routes] it has made. *)
Fixpoint otherTabs (action : Action) (index : option nat) (routes : list elem)
    (names : list string) (i : nat) : M (option (nat * option (list elem))) :=
  match names with
  | [] => ret None
  | tabId :: rest =>
      let tabRouter := tabRouterOf env tabId in
      if decide (Some i = index) then otherTabs action index routes rest (S i)
      else
        tabState <-
          match tabRouter with
          | Some (Some tabRouter) =>
              Router.getStateForAction tabRouter action (arr_get routes (Some i))
          | _ => ret (arr_get routes (Some i))
          end ;;
        match tabState with
        | None => ret (Some (i, None))
        | Some new =>
            if decide (Some new ≠ arr_get routes (Some i)) then
              ret (Some (i, Some (arr_set (arr_copy routes) (Some i) (ERef new))))
            else otherTabs action index routes rest (S i)
        end
  end.

(** Lines 246-281: let the other tabs handle it.  [routes !== state.routes]
    compares the array read on line 249 with itself or with the copy of
    line 265: it holds when the copy was made. *)
Definition broadcast (action : Action) (state : loc) : M (option loc) :=
  index <- stateIndex state ;;
  routes <- routesOf state ;;
  found <- otherTabs action index routes (order env) 0 ;;
  let index' := match found with Some (i, _) => Some i | None => index end in
  let copied := match found with Some (_, Some _) => true | _ => false end in
  let routes' := match found with Some (_, Some r) => r | _ => routes end in
  current <- stateIndex state ;;
  if bool_decide (index' ≠ current) || copied then
    o <- readObj state ;;
    l <- alloc (set_routes routes' (set_index index' o)) ;;
    ret (Some l)
  else ret (Some state).

(** Sequencing of blocks: a [return] ends the function. *)
Definition andThen {R A B} (m : M (Flow R A)) (k : A -> M (Flow R B))
  : M (Flow R B) :=
  r <- m ;;
  match r with
  | Return x => ret (Return x)
  | Next a => k a
  end.

Definition orFinally {R A} (m : M (Flow R A)) (k : A -> M R) : M R :=
  r <- m ;;
  match r with
  | Return x => ret x
  | Next a => k a
  end.

(** Lines 161-282, after the current tab has declined. *)
Definition changeTab (action : Action) (inputState : option loc) (state : loc)
    (activeTabLastState : option loc) : M (option loc) :=
  activeTabIndex <- backIndex action activeTabLastState state ;;
  orFinally
    (andThen (navigate action state activeTabIndex) (fun '(activeTabIndex, didNavigate) =>
     andThen (setParams action state) (fun _ =>
     indexChange inputState state activeTabIndex didNavigate)))
    (fun _ => broadcast action state).

(** Lines 111-282: the reducer on the established state. *)
Definition reduce (action : Action) (inputState : option loc) (state : loc)
  : M (option loc) :=
  orFinally
    (andThen (passAction action state) (fun _ =>
     activeTab action inputState state))
    (changeTab action inputState state).

(** [getStateForAction(action, inputState)] of the TabRouter. *)
Definition getStateForAction (action : Action) (inputState : option loc)
  : M (option loc) :=
  let action := NavigationActions.mapDeprecatedActionAndWarn action in
  state <- establishState action inputState ;;
  _ <- initParams action state ;;
  reduce action inputState state.

(** ** Paths (lines 304-364) *)

(** [path.split('/')] *)
Fixpoint split (s : string) : list string :=
  match s with
  | EmptyString => [EmptyString]
  | String c s' =>
      if Ascii.eqb c (Ascii.ascii_of_nat 47) then EmptyString :: split s'
      else match split s' with
           | [] => [String c EmptyString]
           | part :: parts => String c part :: parts
           end
  end.

(** Lines 304-322.  A path that is [undefined] prints as "undefined" in the
    template string of line 315. *)
Definition getPathAndParamsForState (state : loc)
  : M (option string * option Params) :=
  routes <- routesOf state ;;
  index <- stateIndex state ;;
  let route := arr_get routes index in
  let routeName := index ≫= (order env !!.) in
  let subPath := paths env !! js_key routeName in
  match getScreenForRouteName (routeConfigs env) routeName with
  | Failed e => throw e
  | Built screen =>
      match route with
      | None => throw TypeError
      | Some route =>
          o <- readObj route ;;
          let params := o_params o in
          match router screen with
          | Some childRouter =>
              child <- Router.getPathAndParamsForState childRouter route ;;
              let path :=
                if truthy subPath
                then Some (js_key subPath ++ "/" ++ js_key (fst child))%string
                else fst child in
              let params :=
                match snd child with
                | Some childParams => Some (spread (orEmpty params) childParams)
                | None => params
                end in
              ret (path, params)
          | None => ret (subPath, params)
          end
      end
  end.

(** The callback of [order.map] on lines 332-361.  [pathMatch] is false
    before the test of line 336 and false after it. *)
Definition actionForTab (path : string) (params : option Params)
    (tabId : string) : M (option Action) :=
  let parts := split path in
  let pathToTest := paths env !! tabId in
  let pathMatch := false in
  let pathMatch := if decide (head parts = pathToTest) then false else pathMatch in
  let tabRouter := tabRouterOf env tabId in
  let action := NavigationActions.navigate tabId in
  let unrouted : M (option Action) :=
    match params with
    | Some _ => ret None
    | None => ret (Some action)
    end in
  match tabRouter with
  | Some (Some tabRouter) =>
      match Router.getActionForPathAndParams tabRouter with
      | Some resolve =>
          inner <- resolve path params ;;
          let action :=
            mkAction (a_type action) (a_routeName action) (a_key action)
              (a_params action) inner in
          match inner with
          | None => if negb pathMatch then ret None else ret (Some action)
          | Some _ => ret (Some action)
          end
      | None => unrouted
      end
  | _ => unrouted
  end.

(** [.find((action) => !!action) || null] *)
Definition firstAction (actions : list (option Action)) : option Action :=
  match filter is_Some actions with
  | a :: _ => a
  | [] => None
  end.

Definition getActionForPathAndParams (path : string) (params : option Params)
  : M (option Action) :=
  actions <- mapM (actionForTab path params) (order env) ;;
  ret (firstAction actions).

End Reducer.

(** The router returned on line 55. *)
Definition TabRouter (routeConfigs : RouteConfigMap) (config : TabRouterConfig)
  : Outcome Router.t :=
  match makeEnv routeConfigs config with
  | Built env =>
      Built (Router.mk (getStateForAction env) (getPathAndParamsForState env)
               (Some (getActionForPathAndParams env)))
  | Failed e => Failed e
  end.

(** ** Vocabulary of the properties *)

(** The reducer did not return [null]. *)
Definition notNull (r : Res (option loc)) : Prop :=
  match r with
  | Ok None _ => False
  | _ => True
  end.

Definition neverNull {A} (r : Res (Flow (option loc) A)) : Prop :=
  match r with
  | Ok (Return None) _ => False
  | _ => True
  end.

(** Every slot of [routes] holds a route object of the store. *)
Definition allRoutes (h : Store) (routes : list elem) : bool :=
  forallb (fun e => match e with
                    | ERef l => bool_decide (is_Some (h !! l))
                    | _ => false
                    end) routes.

(** The [key] of the route in slot [i]. *)
Definition keyAt (h : Store) (routes : list elem) (i : nat) : option string :=
  l ← arr_get routes (Some i); o ← h !! l; o_key o.

(** The [index] of the state at [l]. *)
Definition indexAt (h : Store) (l : loc) : option nat :=
  o ← h !! l; o_index o.

(** The action is a Navigate and names the tab at position [n]. *)
Definition navigatesTo (env : Env) (a : Action) (n : nat) : Prop :=
  a_type a = NAVIGATE
  ∧ ∃ tabId, findTab (order env) (a_routeName a) 0 = Some (n, tabId).

(** What [tabRouters[tabId]] is, when it is truthy: the nested router of
    the tab, if it owns one. *)
Definition routerOfTab (env : Env) (tabId : option string) : option Router.t :=
  tabRouterOf env (js_key tabId) ≫= id.

(** No tab owns a nested router. *)
Definition leafOnly (env : Env) : bool :=
  forallb (fun kr => bool_decide (kr.2 = None)) (map_to_list (tabRouters env)).

(** Every tab has an entry of its own in [tabRouters], as lines 40-49
    leave it. *)
Definition ownTabs (env : Env) : Prop :=
  ∀ name, name ∈ order env → is_Some (tabRouters env !! name).

(** A tab declines an action on its state: it has no nested router, or the
    nested router returns the very state it was given and leaves the store
    as it is. *)
Definition declines (env : Env) (a : Action) (h : Store) (tabId : option string)
    (tabState : option loc) : Prop :=
  is_Some tabState ∧
  ∀ r, routerOfTab env tabId = Some r →
       Router.getStateForAction r a tabState h = Ok tabState h.

(** The active tab declines what line 145 forwards to it. *)
Definition activeDeclines (env : Env) (a : Action) (h : Store) (idx : nat)
    (routes : list elem) : Prop :=
  declines env (default a (a_action a)) h (order env !! idx)
    (arr_get routes (Some idx)).

(** No other tab responds to the broadcast of lines 246-271. *)
Definition othersDecline (env : Env) (a : Action) (h : Store) (idx : nat)
    (routes : list elem) : Prop :=
  ∀ i tabId, order env !! i = Some tabId → i ≠ idx →
             declines env a h (Some tabId) (arr_get routes (Some i)).

(** A Back action is eligible for the state: its [key] is absent or is the
    key of the active route. *)
Definition backEligible (a : Action) (h : Store) (idx : nat) (routes : list elem)
  : Prop :=
  a_key a = None ∨ keyAt h routes idx = a_key a.

(** What an Init action with [params] makes of a route (lines 100-106). *)
Definition initialized (params : Params) (r : JsObj) : JsObj :=
  set_params (spread (orEmpty (o_params r)) params) r.

(** What a SetParams action makes of the route [r] (lines 220-228). *)
Definition merged (a : Action) (r : JsObj) : JsObj :=
  set_params (spread (orEmpty (o_params r)) (orEmpty (a_params a))) r.

(** The nested routers resolve paths without exception and without
    touching the store. *)
Definition resolversTotal (env : Env) (path : string) (h : Store)
    (params : option Params) (names : list string) : Prop :=
  ∀ tabId r resolve,
    tabId ∈ names → routerOfTab env (Some tabId) = Some r →
    Router.getActionForPathAndParams r = Some resolve →
    ∃ res, resolve path params h = Ok res h.

(** The resolver of a tab: the [getActionForPathAndParams] of its nested
    router, when the tab owns a router that has one (line 345). *)
Definition resolverOfTab (env : Env) (tabId : string)
  : option (string → option Params → M (option Action)) :=
  routerOfTab env (Some tabId) ≫= Router.getActionForPathAndParams.

(** A route rejects a path: its resolver resolves the path to no inner
    action or, when it has no resolver, params were supplied. *)
Definition rejects (env : Env) (path : string) (h : Store)
    (params : option Params) (tabId : string) : Prop :=
  match resolverOfTab env tabId with
  | Some resolve => resolve path params h = Ok None h
  | None => is_Some params
  end.

(** A route accepts a path with the action [act]: the Navigate to the
    route, which carries the inner action its resolver resolves the path to
    or, when it has no resolver and no params were supplied, nothing. *)
Definition accepts (env : Env) (path : string) (h : Store)
    (params : option Params) (tabId : string) (act : Action) : Prop :=
  match resolverOfTab env tabId with
  | Some resolve =>
      ∃ inner, resolve path params h = Ok (Some inner) h
               ∧ act = mkAction NAVIGATE (Some tabId) None None (Some inner)
  | None => params = None ∧ act = NavigationActions.navigate tabId
  end.

(** The value of a state: its own properties, and the objects its routes
    are. *)
Definition routeValues (h : Store) (routes : list elem) : list (option JsObj) :=
  (fun e => match e with ERef l => h !! l | _ => None end) <$> routes.

Definition stateValue (h : Store) (st : loc)
  : option (option string * option string * option Params * option nat
            * option (list (option JsObj))) :=
  o ← h !! st;
  Some (o_key o, o_routeName o, o_params o, o_index o,
        routeValues h <$> o_routes o).

(** The state at [st] has the index [idx] and one route per tab, in the
    order of [order], each with the name of its tab for key and for route
    name. *)
Definition tabsState (env : Env) (h : Store) (st : loc) (idx : nat) : Prop :=
  ∃ o routes,
    h !! st = Some o ∧ o_index o = Some idx ∧ o_routes o = Some routes
    ∧ length routes = length (order env)
    ∧ ∀ i name, order env !! i = Some name →
        ∃ l route, routes !! i = Some (ERef l) ∧ h !! l = Some route
                   ∧ o_key route = Some name ∧ o_routeName route = Some name.

(** The position of the tab a Navigate action names, or else [idx]. *)
Definition navigatedIndex (env : Env) (a : Action) (idx : nat) : nat :=
  if decide (a_type a = NAVIGATE)
  then default idx (fst <$> findTab (order env) (a_routeName a) 0)
  else idx.

(** The action is a Pass that carries an action, names a property that
    [tabRouters] has, and addresses the route [name]: by its key or else by
    its route name (lines 112-121). *)
Definition passesTo (env : Env) (a : Action) (name : string) : Prop :=
  a_type a = PASS ∧ is_Some (a_action a)
  ∧ is_Some (tabRouterOf env (js_key (a_routeName a)))
  ∧ (if truthy (a_key a) then a_key a else a_routeName a) = Some name.

(** ** Example routers *)

Definition leaf : RouteConfig := mkRouteConfig (Some (mkScreen None)) None.

Definition noConfig : TabRouterConfig := mkConfig None None None None.

Definition routerOf (o : Outcome Router.t) : option Router.t :=
  match o with
  | Built r => Some r
  | Failed _ => None
  end.

(** A route whose screen is a nested tab navigator. *)
Definition nested (routeConfigs : RouteConfigMap) (path : option string)
  : RouteConfig :=
  mkRouteConfig (Some (mkScreen (routerOf (TabRouter routeConfigs noConfig)))) path.

Definition envOf (routeConfigs : RouteConfigMap) (config : TabRouterConfig) : Env :=
  match makeEnv routeConfigs config with
  | Built env => env
  | Failed _ => mkEnv [] [] ∅ None 0 EmptyString false ∅
  end.

Definition routeObj (name : string) : JsObj :=
  mkObj (Some name) (Some name) None None None.

Definition stateObj (key : option string) (index : nat) (routes : list loc) : JsObj :=
  mkObj key key None (Some index) (Some (ERef <$> routes)).

(** Two tabs without nested routers. *)
Definition flatRoutes : RouteConfigMap := [("Home", leaf); ("Profile", leaf)].
Definition flatEnv : Env := envOf flatRoutes noConfig.

(** Its state after [Init]: the routes at 0 and 1, the state at 2. *)
Definition flatStore : Store :=
  [routeObj "Home"; routeObj "Profile"; stateObj None 0 [0; 1]].

(** The same state once Home has the params [{a: 1}]. *)
Definition flatStoreA : Store :=
  [set_params {["a" := PNum 1]} (routeObj "Home"); routeObj "Profile";
   stateObj None 0 [0; 1]].

(** A route named by the empty string. *)
Definition emptyNameEnv : Env :=
  envOf [(EmptyString, leaf); ("Other", leaf)] noConfig.
Definition emptyNameStore : Store :=
  [routeObj EmptyString; routeObj "Other"; stateObj None 0 [0; 1]].

(** Three tabs, two of them nested tab navigators. *)
Definition appRoutes : RouteConfigMap :=
  [("Main", leaf);
   ("Settings", nested [("General", leaf); ("Inbox", leaf)] (Some "settings"));
   ("Inbox", nested [("Unread", leaf); ("General", leaf)] None)].
Definition appEnv : Env := envOf appRoutes noConfig.

(** Its state after [Init] (at 9) and after [Navigate{Settings}] (at 10);
    3 and 7 are the states the nested routers returned, 4 and 8 their copies
    with [key] and [routeName]. *)
Definition appStore : Store :=
  [routeObj "Main";
   routeObj "General"; routeObj "Inbox";
   stateObj None 0 [1; 2]; stateObj (Some "Settings") 0 [1; 2];
   routeObj "Unread"; routeObj "General";
   stateObj None 0 [5; 6]; stateObj (Some "Inbox") 0 [5; 6];
   stateObj None 0 [0; 4; 8];
   stateObj None 1 [0; 4; 8]].

(** The same after [Navigate{Inbox}], which the Settings navigator handles:
    Settings is the active tab (state at 12), and Inbox is the active tab of
    Settings (state at 11). *)
Definition appStoreInbox : Store :=
  appStore ++ [stateObj (Some "Settings") 1 [1; 2]; stateObj None 1 [0; 11; 8]].

(** A nested navigator declared first, with a path of its own. *)
Definition pathEnv : Env :=
  envOf [("Settings", nested [("General", leaf); ("Inbox", leaf)] (Some "settings"));
         ("Main", leaf)] noConfig.

(** Its state after [Init], at 5. *)
Definition pathStore : Store :=
  [routeObj "General"; routeObj "Inbox";
   stateObj None 0 [0; 1]; stateObj (Some "Settings") 0 [0; 1];
   routeObj "Main";
   stateObj None 0 [3; 4]].

(** A nested router of another kind, which keeps the state it is given:
    the path of its state is [own], and it resolves the one path [whole] to
    a Navigate to [target]. *)
Definition linkRouter (own whole target : string) : Router.t :=
  Router.mk (fun _ tabState => ret tabState)
    (fun _ => ret (Some own, None))
    (Some (fun path _ =>
             ret (if decide (path = whole)
                  then Some (NavigationActions.navigate target) else None))).

(** Two tabs with such routers, which know the paths they are declared
    under, and a tab without a router. *)
Definition linkRoutes : RouteConfigMap :=
  [("Help", mkRouteConfig (Some (mkScreen (Some (linkRouter "faq" "help/faq" "Faq"))))
              (Some "help"));
   ("Docs", mkRouteConfig (Some (mkScreen (Some (linkRouter "api" "docs/api" "Api"))))
              (Some "docs"));
   ("Main", leaf)].
Definition linkEnv : Env := envOf linkRoutes noConfig.

(** Its state after [Init] and [Navigate{Docs}], at 4. *)
Definition linkStore : Store :=
  [routeObj "Help"; routeObj "Docs"; routeObj "Main";
   stateObj None 0 [0; 1; 2]; stateObj None 1 [0; 1; 2]].

Definition passToInbox : Action :=
  mkAction PASS (Some "Inbox") None None (Some (NavigationActions.navigate "General")).

Definition setInboxParams : Action :=
  mkAction SET_PARAMS None (Some "Inbox") (Some {["a" := PNum 1]}) None.

Definition setMainParams : Action :=
  mkAction SET_PARAMS None (Some "Main") (Some {["a" := PNum 1]}) None.

Definition back : Action := mkAction BACK None None None None.

(** An action of the application's own. *)
Definition custom : Action := mkAction (OTHER "custom") None None None None.

(** ** Components (lines 284-302) *)

(** [getComponentForRouteName(routeName)] *)
Definition getComponentForRouteName (env : Env) (routeName : option string)
  : M Screen :=
  match getScreenForRouteName (routeConfigs env) routeName with
  | Built screen => ret screen
  | Failed e => throw e
  end.

(** [getComponentForState(state)].  The method of the same name of a nested
    router, which the record [Router.t] does not carry, is the parameter
    [nested] (on [inheritedValue], which has no such method, it throws).
    The [invariant] of line 288 fails on a name that is [undefined] and on
    the empty name. *)
Definition getComponentForState (env : Env)
    (nested : Router.t -> option loc -> M Screen) (state : loc) : M Screen :=
  index <- stateIndex state ;;
  let routeName := index ≫= (order env !!.) in
  if truthy routeName then
    match tabRouterOf env (js_key routeName) with
    | Some (Some childRouter) =>
        routes <- routesOf state ;;
        index <- stateIndex state ;;
        nested childRouter (arr_get routes index)
    | _ => getComponentForRouteName env routeName
    end
  else throw InvariantViolation.

(** ** Vocabulary of the further properties *)

(** What lines 33-35 make of the configuration. *)
Definition configOrder (routeConfigs : RouteConfigMap) (config : TabRouterConfig)
  : list string :=
  default routeConfigs.*1 (c_order config).

Definition configInitialRouteName (routeConfigs : RouteConfigMap)
    (config : TabRouterConfig) : option string :=
  if truthy (c_initialRouteName config) then c_initialRouteName config
  else configOrder routeConfigs config !! 0.

(** The router with another table of paths. *)
Definition withPaths (env : Env) (paths : gmap string string) : Env :=
  mkEnv (routeConfigs env) (order env) paths (initialRouteName env)
    (initialRouteIndex env) (backBehavior env)
    (shouldBackNavigateToInitialRoute env) (tabRouters env).

(** The state at [st] has one route per tab and an index within them. *)
Definition inBounds (env : Env) (h : Store) (st : loc) : Prop :=
  ∃ o idx routes,
    h !! st = Some o ∧ o_index o = Some idx ∧ o_routes o = Some routes
    ∧ idx < length routes ∧ length routes = length (order env).

(** The action reaches the broadcast of lines 246-271: no earlier branch
    returns on it. *)
Definition reachesBroadcast (env : Env) (a : Action) (h : Store) (idx : nat)
    (routes : list elem) : Prop :=
  ¬ (a_type a = INIT ∧ is_Some (a_params a))
  ∧ ¬ (a_type a = PASS ∧ is_Some (a_action a))
  ∧ activeDeclines env a h idx routes
  ∧ (a_type a = BACK → shouldBackNavigateToInitialRoute env = true →
     backEligible a h idx routes → initialRouteIndex env = idx)
  ∧ (a_type a = NAVIGATE → ∀ n, a_routeName a = Some n → n ∉ order env)
  ∧ (a_type a = SET_PARAMS →
     ∀ i, i < length routes → keyAt h routes i ≠ a_key a).

(** The route a Pass action addresses: by [key] when the action has one,
    by [routeName] otherwise (lines 119-121). *)
Definition addressed (a : Action) (route : JsObj) : bool :=
  if truthy (a_key a) then bool_decide (o_key route = a_key a)
  else bool_decide (o_routeName route = a_routeName a).

(** Slot [n] is the first whose route satisfies [p]. *)
Definition firstSlot (p : JsObj → bool) (h : Store) (routes : list elem)
    (n : nat) (l : loc) : Prop :=
  routes !! n = Some (ERef l)
  ∧ (∃ route, h !! l = Some route ∧ p route = true)
  ∧ ∀ i l' route, i < n → routes !! i = Some (ERef l') → h !! l' = Some route →
                  p route = false.

(** What line 258 gets from a tab other than the active one: the answer of
    its nested router, or the state of the tab as it is. *)
Definition tabResponse (env : Env) (a : Action) (tabId : string)
    (tabState : option loc) : M (option loc) :=
  match routerOfTab env (Some tabId) with
  | Some tabRouter => Router.getStateForAction tabRouter a tabState
  | None => ret tabState
  end.

(** The tabs before [j], the active one apart, decline the action. *)
Definition earlierDecline (env : Env) (a : Action) (h : Store) (idx : nat)
    (routes : list elem) (j : nat) : Prop :=
  ∀ i tabId, i < j → order env !! i = Some tabId → i ≠ idx →
             declines env a h (Some tabId) (arr_get routes (Some i)).

(** The state at [st] is the object [o], with index [idx] within [routes],
    all of them route objects. *)
Definition stateAt (h : Store) (st : loc) (o : JsObj) (idx : nat)
    (routes : list elem) : Prop :=
  h !! st = Some o ∧ o_index o = Some idx ∧ o_routes o = Some routes
  ∧ idx < length routes ∧ allRoutes h routes = true.

(** The action is an Init that carries params: the one on which line 98
    assigns to [state.routes]. *)
Definition assigns (a : Action) : bool :=
  bool_decide (a_type a = INIT) && bool_decide (is_Some (a_params a)).

(** An action embedded in the action, at any depth, is such an Init. *)
Fixpoint embedsInit (a : Action) : bool :=
  match a with
  | mkAction _ _ _ _ (Some inner) => assigns inner || embedsInit inner
  | mkAction _ _ _ _ None => false
  end.

(** The store [h'] has the objects of [h] at the locations [X] as they
    were, and no fewer objects. *)
Definition keeps (X : loc → Prop) (h h' : Store) : Prop :=
  (length h ≤ length h')%nat ∧ ∀ l o, X l → h !! l = Some o → h' !! l = Some o.

(** The locations an action may not assign to: all but the state it is
    applied to, when it is an Init with params. *)
Definition untouched (a : Action) (s : option loc) (l : loc) : Prop :=
  assigns a = true → s ≠ Some l.

(** The nested routers assign to no object of the store they are called
    on, the state they are given on an Init with params apart. *)
Definition childrenKeep (env : Env) : Prop :=
  ∀ name r a s h res h',
    tabRouters env !! name = Some (Some r) → embedsInit a = false →
    Router.getStateForAction r a s h = Ok res h' → keeps (untouched a s) h h'.

(** The state object [o] has the index [idx] within [routes], one route
    per tab. *)
Definition boundsOf (env : Env) (o : JsObj) (idx : nat) (routes : list elem) : Prop :=
  o_index o = Some idx ∧ idx < length routes ∧ length routes = length (order env).

(** What a block of the reducer may return: null, or a state that has one
    route per tab and an index within them. *)
Definition stateOut (env : Env) (h : Store) (res : option loc) : Prop :=
  match res with
  | Some l => inBounds env h l
  | None => True
  end.

Definition flowOut {A} (env : Env) (h : Store) (f : Flow (option loc) A) : Prop :=
  match f with
  | Return res => stateOut env h res
  | Next _ => True
  end.

(** * Properties *)

Example flatStore_reached :
  getStateForAction flatEnv (NavigationActions.init None) None [] = Ok (Some 2) flatStore.
Proof. reflexivity. Qed.

Example appStore_reached :
  (st <- getStateForAction appEnv (NavigationActions.init None) None ;;
   getStateForAction appEnv (NavigationActions.navigate "Settings") st) []
  = Ok (Some 10) appStore.
Proof. reflexivity. Qed.

Example appStoreInbox_reached :
  getStateForAction appEnv (NavigationActions.navigate "Inbox") (Some 10) appStore
  = Ok (Some 12) appStoreInbox.
Proof. reflexivity. Qed.

Example linkStore_reached :
  (st <- getStateForAction linkEnv (NavigationActions.init None) None ;;
   getStateForAction linkEnv (NavigationActions.navigate "Docs") st) []
  = Ok (Some 4) linkStore.
Proof. reflexivity. Qed.

(** A router is built for a name of [order] that [routeConfigs] inherits:
    line 41 reads the function [Object.prototype.toString], which has
    neither a [path] nor a [screen]. *)
Example inherited_route_is_built :
  order (envOf flatRoutes (mkConfig (Some ["Home"; "toString"]) None None None))
  = ["Home"; "toString"]
  ∧ tabRouters (envOf flatRoutes (mkConfig (Some ["Home"; "toString"]) None None None))
    !! "toString" = Some None.
Proof. split; reflexivity. Qed.

(** [tabRouters['constructor']] is the function [Object], which differs
    from [undefined]: a Pass action with this route name that addresses the
    route Settings by its key calls [Object.getStateForAction] on line 126,
    and throws.  With a key that no route has, the branch falls through. *)
Example pass_to_inherited_name :
  getStateForAction appEnv
    (mkAction PASS (Some "constructor") (Some "Settings") None
       (Some (NavigationActions.navigate "General")))
    (Some 10) appStore
  = Throw TypeError
  ∧ getStateForAction appEnv
      (mkAction PASS (Some "constructor") (Some "Nowhere") None
         (Some (NavigationActions.navigate "General")))
      (Some 10) appStore
    = Ok None appStore.
Proof. split; reflexivity. Qed.

(** With no input state, the router with two nested navigators answers
    these actions with a state. *)
Example absent_state_with_nested_routers :
  Forall (λ a, ∃ st h', getStateForAction appEnv a None [] = Ok (Some st) h')
    [NavigationActions.init None; NavigationActions.init (Some {["a" := PNum 1]});
     NavigationActions.navigate "Inbox"; back; custom; setInboxParams; passToInbox].
Proof.
  repeat (apply List.Forall_cons; [cbv beta; eexists _, _; vm_compute; reflexivity|]).
  apply List.Forall_nil.
Qed.

(** ** Counterexamples *)

(** C1, the failing input: on an Init action with params [{a: 1}] the new
    array of routes is assigned to the input state object itself (at 2),
    which is what the reducer returns; and the Home route, whose params are
    [{a: 1}] already, is not kept by identity but replaced by a new object
    (3 for 0) with the same params. *)
Lemma C1_failing_input :
  getStateForAction flatEnv (NavigationActions.init (Some {["a" := PNum 1]}))
    (Some 2) flatStoreA
  = Ok (Some 2)
      [set_params {["a" := PNum 1]} (routeObj "Home"); routeObj "Profile";
       stateObj None 0 [3; 4];
       set_params {["a" := PNum 1]} (routeObj "Home");
       set_params {["a" := PNum 1]} (routeObj "Profile")]
  ∧ flatStoreA !! 2 = Some (stateObj None 0 [0; 1])
  ∧ flatStoreA !! 0 = Some (set_params {["a" := PNum 1]} (routeObj "Home")).
Proof. split; [|split]; reflexivity. Qed.

(** C2, as stated, is false: with no input state, Navigate to Profile
    returns a state whose index is 1, while [initialRouteName] is Home, at
    position 0 of [order]. *)
Lemma C2_counterexample :
  makeEnv flatRoutes noConfig = Built flatEnv
  ∧ indexOf (order flatEnv) (initialRouteName flatEnv) 0 = 0%Z
  ∧ getStateForAction flatEnv (NavigationActions.navigate "Profile") None []
    = Ok (Some 3) (flatStore ++ [stateObj None 1 [0; 1]]).
Proof. split; [|split]; reflexivity. Qed.

(** C4, as stated, is false: Settings is the active tab and its navigator
    answers null to [Navigate{General}], on its own and embedded in a Pass
    action for Inbox; but the Pass branch returns first, with the state the
    Inbox navigator produced. *)
Lemma C4_counterexample :
  match routerOfTab appEnv (order appEnv !! 1) with
  | Some r =>
      Router.getStateForAction r (NavigationActions.navigate "General")
        (Some 4) appStore = Ok None appStore
  | None => False
  end
  ∧ stateValue appStore 10
    = Some (None, None, None, Some 1,
            Some [Some (routeObj "Main"); Some (stateObj (Some "Settings") 0 [1; 2]);
                  Some (stateObj (Some "Inbox") 0 [5; 6])])
  ∧ getStateForAction appEnv passToInbox (Some 10) appStore
    = Ok (Some 13)
        (appStore ++ [stateObj (Some "Inbox") 1 [5; 6];
                      stateObj None 1 [0; 4; 11]; stateObj None 1 [0; 4; 11]]).
Proof. split; [|split]; reflexivity. Qed.

(** C6, as stated, is false: [backBehavior] is [initialRoute], the active
    tab is Settings (index 1, not the initial 0) and Back carries no key;
    the Settings navigator handles Back itself by moving to its own initial
    tab, and the result keeps index 1, with the state of Settings replaced
    (13 for 11). *)
Lemma C6_counterexample :
  backBehavior appEnv = "initialRoute"
  ∧ initialRouteIndex appEnv = 0
  ∧ appStoreInbox !! 12 = Some (stateObj None 1 [0; 11; 8])
  ∧ getStateForAction appEnv back (Some 12) appStoreInbox
    = Ok (Some 14)
        (appStoreInbox ++ [stateObj (Some "Settings") 0 [1; 2];
                           stateObj None 1 [0; 13; 8]]).
Proof. repeat split; reflexivity. Qed.

(** C8, as stated, is false: the key "Inbox" is the key of the route in
    slot 2, but the navigator of the active tab Settings has a route with
    that key too and handles the action; slot 1 is replaced (12 for 4) and
    the matched route at 8 keeps its place and has no params. *)
Lemma C8_counterexample :
  appStore !! 10 = Some (stateObj None 1 [0; 4; 8])
  ∧ keyAt appStore [ERef 0; ERef 4; ERef 8] 2 = a_key setInboxParams
  ∧ getStateForAction appEnv setInboxParams (Some 10) appStore
    = Ok (Some 13)
        (appStore ++ [set_params {["a" := PNum 1]} (routeObj "Inbox");
                      stateObj (Some "Settings") 0 [1; 11];
                      stateObj None 1 [0; 12; 8]]).
Proof. repeat split; reflexivity. Qed.

(** C9, as stated, is false: the active route Settings owns a nested router
    and declares the path "settings"; the path of the state resolves to a
    Navigate action for Main, the first route of [order], whose path is not
    a prefix of it. *)
Lemma C9_counterexample :
  order appEnv !! 1 = Some "Settings"
  ∧ paths appEnv !! "Settings" = Some "settings"
  ∧ is_Some (routerOfTab appEnv (Some "Settings"))
  ∧ getPathAndParamsForState appEnv 10 appStore
    = Ok (Some "settings/General", None) appStore
  ∧ getActionForPathAndParams appEnv "settings/General" None appStore
    = Ok (Some (NavigationActions.navigate "Main")) appStore.
Proof. repeat split; try reflexivity. vm_compute. eauto. Qed.

(** ** Null is returned only when an input state was supplied *)

Ltac unfold_monad :=
  unfold orFinally, andThen, stateIndex, routesOf, StateUtils.replaceAtIndex,
    StateUtils.routesOf, bind, ret, throw, alloc, readObj, writeObj in *.

Ltac run :=
  repeat (cbn [notNull neverNull] in *; unfold_monad; try done;
          case_match; simplify_eq).

Lemma passAction_neverNull env a st h : neverNull (passAction env a st h).
Proof. unfold passAction. run. Qed.

Lemma activeTab_neverNull env a st h : neverNull (activeTab env a None st h).
Proof. unfold activeTab. run. Qed.

Lemma navigate_neverNull env a st i h : neverNull (navigate env a st i h).
Proof. unfold navigate. run. Qed.

Lemma setParams_neverNull a st h : neverNull (setParams a st h).
Proof. unfold setParams. run. Qed.

Lemma indexChange_neverNull st i d h : neverNull (indexChange None st i d h).
Proof. unfold indexChange. run. Qed.

Lemma broadcast_notNull env a st h : notNull (broadcast env a st h).
Proof. unfold broadcast. run. Qed.

Lemma changeTab_notNull env a st last h : notNull (changeTab env a None st last h).
Proof.
  unfold changeTab, orFinally, andThen, bind.
  destruct (backIndex env a last st h) as [i h1|]; [|done].
  pose proof (navigate_neverNull env a st i h1) as Hn.
  destruct (navigate env a st i h1) as [[[]|[i' d]] h2|]; try done.
  pose proof (setParams_neverNull a st h2) as Hs.
  destruct (setParams a st h2) as [[[]|[]] h3|]; try done.
  pose proof (indexChange_neverNull st i' d h3) as Hi.
  destruct (indexChange None st i' d h3) as [[[]|[]] h4|]; try done.
  apply broadcast_notNull.
Qed.

Lemma reduce_notNull env a st h : notNull (reduce env a None st h).
Proof.
  unfold reduce, orFinally, andThen, bind.
  pose proof (passAction_neverNull env a st h) as Hp.
  destruct (passAction env a st h) as [[[]|[]] h1|]; try done.
  pose proof (activeTab_neverNull env a st h1) as Ha.
  destruct (activeTab env a None st h1) as [[[]|last] h2|]; try done.
  apply changeTab_notNull.
Qed.

Lemma getStateForAction_notNull env a h :
  notNull (getStateForAction env a None h).
Proof.
  unfold getStateForAction, bind.
  destruct (establishState env _ None h) as [st h1|]; [|done].
  destruct (initParams _ st h1) as [[] h2|]; [|done].
  apply reduce_notNull.
Qed.

(** ** Running the blocks of the reducer *)

Lemma bind_Ok {A B} (m : M A) (k : A → M B) h a h' :
  m h = Ok a h' → bind m k h = k a h'.
Proof. unfold bind. by intros ->. Qed.

Lemma bind_ret {A B} (a : A) (k : A → M B) h : bind (ret a) k h = k a h.
Proof. done. Qed.

Lemma andThen_Next {R A B} (m : M (Flow R A)) (k : A → M (Flow R B)) h a h' :
  m h = Ok (Next a) h' → andThen m k h = k a h'.
Proof. unfold andThen, bind. by intros ->. Qed.

Lemma andThen_Return {R A B} (m : M (Flow R A)) (k : A → M (Flow R B)) h r h' :
  m h = Ok (Return r) h' → andThen m k h = Ok (Return r) h'.
Proof. unfold andThen, bind. by intros ->. Qed.

Lemma orFinally_Next {R A} (m : M (Flow R A)) (k : A → M R) h a h' :
  m h = Ok (Next a) h' → orFinally m k h = k a h'.
Proof. unfold orFinally, bind. by intros ->. Qed.

Lemma orFinally_Return {R A} (m : M (Flow R A)) (k : A → M R) h r h' :
  m h = Ok (Return r) h' → orFinally m k h = Ok r h'.
Proof. unfold orFinally, bind. by intros ->. Qed.

Lemma readObj_Ok h l o : h !! l = Some o → readObj l h = Ok o h.
Proof. unfold readObj. by intros ->. Qed.

Lemma stateIndex_Ok h st o : h !! st = Some o → stateIndex st h = Ok (o_index o) h.
Proof. intros H. unfold stateIndex. by rewrite (bind_Ok _ _ _ _ _ (readObj_Ok _ _ _ H)). Qed.

Lemma routesOf_Ok h st o routes :
  h !! st = Some o → o_routes o = Some routes → routesOf st h = Ok routes h.
Proof.
  intros H Hr. unfold routesOf, StateUtils.routesOf.
  rewrite (bind_Ok _ _ _ _ _ (readObj_Ok _ _ _ H)). by rewrite Hr.
Qed.

Lemma alloc_Ok o h : alloc o h = Ok (length h) (h ++ [o]).
Proof. done. Qed.

(** Rewrites the first statement of a block with what it evaluates to. *)
Ltac step :=
  first
    [ erewrite (bind_Ok (readObj _)) by (apply readObj_Ok; eassumption)
    | erewrite (bind_Ok (stateIndex _)) by (apply stateIndex_Ok; eassumption)
    | erewrite (bind_Ok (routesOf _)) by (eapply routesOf_Ok; eassumption)
    | erewrite (bind_Ok (alloc _)) by apply alloc_Ok
    | erewrite bind_Ok by eassumption ].

Lemma routerOfTab_Some env t r :
  routerOfTab env t = Some r ↔ tabRouterOf env (js_key t) = Some (Some r).
Proof.
  unfold routerOfTab. destruct (tabRouterOf env (js_key t)) as [[]|]; naive_solver.
Qed.

(** A truthy [tabRouters[name]] is a router of its own or is inherited. *)
Lemma tabRouterOf_router env name r :
  tabRouterOf env name = Some (Some r) →
  tabRouters env !! name = Some (Some r) ∨ r = inheritedValue.
Proof.
  unfold tabRouterOf. destruct (tabRouters env !! name) as [entry|].
  - intros [= ->]. by left.
  - destruct (inherited name); [|done]. intros [= <-]. by right.
Qed.

Lemma tabRouterOf_own env name entry :
  tabRouters env !! name = Some entry → tabRouterOf env name = Some entry.
Proof. unfold tabRouterOf. by intros ->. Qed.

Lemma allRoutes_lookup h routes i :
  allRoutes h routes = true → i < length routes →
  ∃ l o, routes !! i = Some (ERef l) ∧ h !! l = Some o.
Proof.
  unfold allRoutes. rewrite forallb_forall. intros Hall Hi.
  destruct (lookup_lt_is_Some_2 routes i Hi) as [e He].
  specialize (Hall e). rewrite <- list_elem_of_In in Hall.
  specialize (Hall (list_elem_of_lookup_2 _ _ _ He)).
  destruct e as [| |l]; try done.
  apply bool_decide_eq_true in Hall as [o Ho]. eauto.
Qed.

Lemma allRoutes_cons h e routes :
  allRoutes h (e :: routes) = true →
  (∃ l o, e = ERef l ∧ h !! l = Some o) ∧ allRoutes h routes = true.
Proof.
  unfold allRoutes. cbn [forallb]. rewrite andb_true_iff. intros [He Hr].
  split; [|done]. destruct e as [| |l]; try done.
  apply bool_decide_eq_true in He as [o Ho]. eauto.
Qed.

Lemma arr_copy_allRoutes h routes :
  allRoutes h routes = true → arr_copy routes = routes.
Proof.
  induction routes as [|e routes IH]; [done|].
  intros [(l & o & -> & _) Hr]%allRoutes_cons.
  unfold arr_copy in *. cbn. f_equal. by apply IH.
Qed.

Lemma keyAt_lookup h routes i l o :
  routes !! i = Some (ERef l) → h !! l = Some o → keyAt h routes i = o_key o.
Proof. unfold keyAt, arr_get. intros -> . cbn. by intros ->. Qed.

(** [routes.find] when no route has the key. *)
Lemma findRoute_None p h routes :
  allRoutes h routes = true →
  (∀ i l o, routes !! i = Some (ERef l) → h !! l = Some o → p o = false) →
  findRoute p routes h = Ok None h.
Proof.
  induction routes as [|e routes IH]; [done|].
  intros [(l & o & -> & Ho) Hr]%allRoutes_cons Hp. cbn [findRoute].
  step. rewrite (Hp 0 l o) by done. apply IH; [done|].
  intros i. apply (Hp (S i)).
Qed.

(** [routes.find] when slot [n] is the first with the key. *)
Lemma findRoute_Some p h routes n l o :
  allRoutes h routes = true →
  routes !! n = Some (ERef l) → h !! l = Some o → p o = true →
  (∀ i l' o', i < n → routes !! i = Some (ERef l') → h !! l' = Some o' → p o' = false) →
  findRoute p routes h = Ok (Some l) h.
Proof.
  revert n. induction routes as [|e routes IH]; [done|].
  intros n [(l0 & o0 & -> & Ho0) Hr]%allRoutes_cons Hn Ho Hp Hfirst.
  cbn [findRoute]. step. destruct n as [|n].
  - cbn in Hn. simplify_eq. by rewrite Hp.
  - rewrite (Hfirst 0 l0 o0) by (done || lia).
    apply (IH n); try done. intros i l' o' Hi. apply (Hfirst (S i)). lia.
Qed.

(** The broadcast when every other tab declines. *)
Lemma otherTabs_decline env a h idx routes names i :
  (∀ j tabId, names !! j = Some tabId → i + j ≠ idx →
              declines env a h (Some tabId) (arr_get routes (Some (i + j)))) →
  otherTabs env a (Some idx) routes names i h = Ok None h.
Proof.
  revert i. induction names as [|tabId names IH]; [done|].
  intros i Hd. cbn [otherTabs].
  assert (otherTabs env a (Some idx) routes names (S i) h = Ok None h) as Hrest.
  { apply IH. intros j t Hj Hne. replace (S i + j) with (i + S j) in * by lia.
    by apply Hd. }
  destruct (decide (Some i = Some idx)) as [|Hne]; [done|].
  destruct (Hd 0 tabId) as [[l Hl] Hr];
    [done|intros ?; apply Hne; f_equal; lia|].
  replace (i + 0) with i in * by lia. rewrite Hl in *.
  destruct (tabRouterOf env tabId) as [[r|]|] eqn:Ht.
  - rewrite (bind_Ok _ _ _ _ _ (Hr r (proj2 (routerOfTab_Some env (Some tabId) r) Ht))).
    by rewrite decide_False by naive_solver.
  - rewrite bind_ret. by rewrite decide_False by naive_solver.
  - rewrite bind_ret. by rewrite decide_False by naive_solver.
Qed.

Section Blocks.
Context (env : Env) (a : Action) (st : loc) (h : Store) (o : JsObj)
  (idx : nat) (routes : list elem).
Hypothesis Hst : h !! st = Some o.
Hypothesis Hidx : o_index o = Some idx.
Hypothesis Hroutes : o_routes o = Some routes.

Lemma initParams_skip :
  ¬ (a_type a = INIT ∧ is_Some (a_params a)) → initParams a st h = Ok tt h.
Proof.
  unfold initParams. intros Hn. destruct (decide (a_type a = INIT)); [|done].
  destruct (a_params a); [|done]. destruct Hn; eauto.
Qed.

Lemma passAction_skip :
  ¬ (a_type a = PASS ∧ is_Some (a_action a)) → passAction env a st h = Ok (Next tt) h.
Proof.
  unfold passAction. intros Hn. destruct (a_action a); [|done].
  destruct (decide (a_type a = PASS)); [|done]. destruct Hn; eauto.
Qed.

Lemma activeTab_declines input :
  activeDeclines env a h idx routes →
  activeTab env a input st h = Ok (Next (arr_get routes (Some idx))) h.
Proof.
  intros [[l Hl] Hr]. unfold activeTab. do 2 step. rewrite Hidx. cbn [mbind option_bind].
  destruct (tabRouterOf env (js_key (order env !! idx))) as [[r|]|] eqn:Ht; try done.
  apply routerOfTab_Some in Ht. rewrite (bind_Ok _ _ _ _ _ (Hr r Ht)).
  rewrite Hl. by rewrite decide_False by naive_solver.
Qed.

Lemma isBackEligible_Ok :
  allRoutes h routes = true → idx < length routes →
  isBackEligible a (arr_get routes (Some idx)) h
  = Ok (bool_decide (backEligible a h idx routes)) h.
Proof.
  intros Hall Hlt. destruct (allRoutes_lookup _ _ _ Hall Hlt) as (l & r & Hl & Hr).
  unfold isBackEligible, backEligible. rewrite (keyAt_lookup _ _ _ _ _ Hl Hr).
  destruct (a_key a) as [k|].
  - unfold arr_get. rewrite Hl. step. unfold ret. f_equal.
    apply bool_decide_ext. split; [by right | by intros [?|?]].
  - unfold ret. by f_equal.
Qed.

Lemma backIndex_Ok :
  allRoutes h routes = true → idx < length routes →
  backIndex env a (arr_get routes (Some idx)) st h
  = Ok (if bool_decide (a_type a = BACK)
           && bool_decide (backEligible a h idx routes)
           && shouldBackNavigateToInitialRoute env
        then Some (initialRouteIndex env) else Some idx) h.
Proof.
  intros Hall Hlt. unfold backIndex. step.
  rewrite (bind_Ok _ _ _ _ _ (isBackEligible_Ok Hall Hlt)). rewrite Hidx.
  by case_match.
Qed.

Lemma navigate_other i : a_type a ≠ NAVIGATE → navigate env a st i h = Ok (Next (i, false)) h.
Proof. unfold navigate. intros Hn. by rewrite decide_False. Qed.

Lemma navigate_unknown i :
  findTab (order env) (a_routeName a) 0 = None →
  navigate env a st i h = Ok (Next (i, false)) h.
Proof. unfold navigate. intros ->. by case_match. Qed.

(** A Navigate without params and without an embedded action changes no
    child state. *)
Lemma navigate_plain i n tabId :
  a_type a = NAVIGATE → a_action a = None → a_params a = None →
  findTab (order env) (a_routeName a) 0 = Some (n, tabId) →
  navigate env a st i h = Ok (Next (Some n, truthy (Some tabId))) h.
Proof.
  unfold navigate. intros Ht Ha Hp ->. rewrite decide_True by done.
  destruct (truthy (Some tabId)); [|done]. step. rewrite Ha, Hp.
  by destruct (tabRouterOf env (js_key (a_routeName a))) as [[]|].
Qed.

Lemma setParams_other : a_type a ≠ SET_PARAMS → setParams a st h = Ok (Next tt) h.
Proof. unfold setParams. intros Hn. by rewrite decide_False. Qed.

Lemma setParams_unmatched :
  allRoutes h routes = true →
  (∀ i, i < length routes → keyAt h routes i ≠ a_key a) →
  setParams a st h = Ok (Next tt) h.
Proof.
  intros Hall Hk. unfold setParams. case_match; [|done]. step.
  rewrite (bind_Ok _ _ _ _ _
             (findRoute_None (fun r => bool_decide (o_key r = a_key a)) h routes Hall
                ltac:(intros i l r Hl Hr; apply bool_decide_eq_false;
                      rewrite <- (keyAt_lookup _ _ _ _ _ Hl Hr); apply Hk;
                      by eapply lookup_lt_Some))).
  done.
Qed.

Lemma indexChange_same input d :
  indexChange input st (Some idx) d h
  = Ok (if d then Return (match input with Some _ => None | None => Some st end)
        else Next tt) h.
Proof.
  unfold indexChange. step. rewrite Hidx. rewrite decide_False by naive_solver.
  by destruct d, input.
Qed.

Lemma indexChange_moved input d n :
  n ≠ idx →
  indexChange input st (Some n) d h
  = Ok (Return (Some (length h))) (h ++ [set_index (Some n) o]).
Proof.
  intros Hn. unfold indexChange. step. rewrite Hidx.
  rewrite decide_True by naive_solver. by do 2 step.
Qed.

Lemma broadcast_decline :
  othersDecline env a h idx routes → broadcast env a st h = Ok (Some st) h.
Proof.
  intros Hd. unfold broadcast. do 2 step. rewrite Hidx.
  rewrite (bind_Ok _ _ _ _ _ (otherTabs_decline env a h idx routes (order env) 0 Hd)).
  step. rewrite Hidx. by rewrite bool_decide_eq_false_2 by naive_solver.
Qed.

End Blocks.

(** ** An action that matches no branch *)

Lemma findTab_None names name i :
  (∀ n, name = Some n → n ∉ names) → findTab names name i = None.
Proof.
  revert i. induction names as [|tabId names IH]; [done|].
  intros i Hn. cbn [findTab]. destruct (decide (Some tabId = name)) as [<-|Hne].
  - destruct (Hn tabId eq_refl). by left.
  - apply IH. intros m Hname Hin. apply (Hn m Hname). by right.
Qed.

(** The reducer on a state that no branch changes: the state is returned
    as it is.  With no input state, a Navigate to the active tab counts as
    handled by the state just made (line 241). *)
Lemma reduce_unmatched env a input st h o idx routes :
  h !! st = Some o → o_index o = Some idx → o_routes o = Some routes →
  idx < length routes → allRoutes h routes = true →
  ¬ (a_type a = PASS ∧ is_Some (a_action a)) →
  activeDeclines env a h idx routes →
  (a_type a = BACK → shouldBackNavigateToInitialRoute env = true →
   backEligible a h idx routes → initialRouteIndex env = idx) →
  (a_type a = NAVIGATE →
   findTab (order env) (a_routeName a) 0 = None
   ∨ (input = None ∧ a_action a = None ∧ a_params a = None
      ∧ ∃ tabId, findTab (order env) (a_routeName a) 0 = Some (idx, tabId))) →
  (a_type a = SET_PARAMS → ∀ i, i < length routes → keyAt h routes i ≠ a_key a) →
  othersDecline env a h idx routes →
  reduce env a input st h = Ok (Some st) h.
Proof.
  intros Hst Hidx Hroutes Hlt Hall Hpass Hactive Hback Hnav Hset Hothers.
  unfold reduce.
  erewrite orFinally_Next; last first.
  { erewrite andThen_Next by (by apply passAction_skip).
    by eapply activeTab_declines. }
  unfold changeTab.
  rewrite (bind_Ok _ _ _ _ _ (backIndex_Ok env a st h o idx routes Hst Hidx Hall Hlt)).
  assert ((if bool_decide (a_type a = BACK)
              && bool_decide (backEligible a h idx routes)
              && shouldBackNavigateToInitialRoute env
           then Some (initialRouteIndex env) else Some idx) = Some idx) as ->.
  { destruct (bool_decide (a_type a = BACK)) eqn:Ht; [|done].
    destruct (bool_decide (backEligible a h idx routes)) eqn:He; [|done].
    destruct (shouldBackNavigateToInitialRoute env) eqn:Hs; [|done].
    apply bool_decide_eq_true in Ht, He. cbn. f_equal. by apply Hback. }
  assert (setParams a st h = Ok (Next tt) h) as Hsp.
  { destruct (decide (a_type a = SET_PARAMS)) as [Ht|Ht].
    - eapply setParams_unmatched; eauto.
    - by apply setParams_other. }
  assert (∃ d, navigate env a st (Some idx) h = Ok (Next (Some idx, d)) h
               ∧ (d = true → input = None)) as (d & Hn & Hd).
  { destruct (decide (a_type a = NAVIGATE)) as [Ht|Ht].
    - destruct (Hnav Ht) as [Hf|(-> & Ha & Hp & tabId & Hf)].
      + exists false. by rewrite navigate_unknown.
      + exists (truthy (Some tabId)). split; [|done].
        eapply navigate_plain; eauto.
    - exists false. by rewrite navigate_other. }
  destruct d.
  - erewrite orFinally_Return; last first.
    { erewrite andThen_Next by exact Hn. cbn beta iota.
      erewrite andThen_Next by exact Hsp.
      by rewrite (indexChange_same st h o idx Hst Hidx). }
    by rewrite (Hd eq_refl).
  - erewrite orFinally_Next; last first.
    { erewrite andThen_Next by exact Hn. cbn beta iota.
      erewrite andThen_Next by exact Hsp.
      by rewrite (indexChange_same st h o idx Hst Hidx). }
    eapply broadcast_decline; eauto.
Qed.


(** Discharges [declines] for a concrete tab by running its router. *)
Ltac declines_by_running :=
  split; [by eexists | intros ? [= <-]; vm_compute; reflexivity].

Ltac others_by_running :=
  intros i tabId Hi Hne;
  repeat (destruct i as [|i]; [injection Hi as <-; try done; declines_by_running|]);
  done.


(** ** Pass to a route without a nested router *)

(** C3: the code does not do what the claim says.  For a route of [order]
    that owns no nested router, [tabRouters[routeName]] is [null], which
    passes the test [childRouter !== undefined] of line 115; when the
    addressed route is found in the state, line 126 calls a method of
    [null], and the reducer throws a TypeError instead of falling through. *)
Theorem C3_pass_to_route_without_router_throws env a inner st h o routes i l :
  a_type a = PASS → a_action a = Some inner →
  tabRouters env !! js_key (a_routeName a) = Some None →
  h !! st = Some o → o_routes o = Some routes →
  (if truthy (a_key a) then StateUtils.indexOf st (a_key a)
   else StateUtils.indexOfByName st (a_routeName a)) h = Ok i h →
  (0 ≤ i)%Z → arr_get routes (Some (Z.to_nat i)) = Some l →
  getStateForAction env a (Some st) h = Throw TypeError.
Proof.
  intros Ht Ha Hr Hst Hroutes Hi Hpos Hl.
  unfold getStateForAction, NavigationActions.mapDeprecatedActionAndWarn.
  cbn [establishState]. rewrite bind_ret.
  rewrite (bind_Ok _ _ _ _ _ (initParams_skip a st h ltac:(intros [? _]; congruence))).
  unfold reduce, orFinally, andThen, passAction.
  rewrite Ha, (tabRouterOf_own _ _ _ Hr).
  rewrite decide_True by done.
  unfold bind at 1. unfold bind at 1. unfold bind at 1. rewrite Hi.
  rewrite decide_True by done. step. by rewrite Hl.
Qed.

Lemma C3_witness :
  getStateForAction flatEnv
    (mkAction PASS (Some "Profile") None None (Some (NavigationActions.navigate "Home")))
    (Some 2) flatStore
  = Throw TypeError.
Proof.
  apply (C3_pass_to_route_without_router_throws flatEnv _
           (NavigationActions.navigate "Home") 2 flatStore
           (stateObj None 0 [0; 1]) [ERef 0; ERef 1] 1 1);
    try reflexivity; lia.
Defined.

(** ** Navigate to the active tab *)

(** C5: the code does not do what the claim says when the active route is
    named by the empty string.  [didNavigate] is [!!] of the name that
    [order.find] returns (line 176), which is false for the empty string, so that lines
    240-244 are skipped and the input state is returned, not null. *)
Theorem C5_navigate_to_active_tab_named_by_empty_string :
  makeEnv [(EmptyString, leaf); ("Other", leaf)] noConfig = Built emptyNameEnv
  ∧ emptyNameStore !! 2 = Some (stateObj None 0 [0; 1])
  ∧ order emptyNameEnv !! 0 = Some EmptyString
  ∧ getStateForAction emptyNameEnv (NavigationActions.navigate EmptyString)
      (Some 2) emptyNameStore
    = Ok (Some 2) emptyNameStore.
Proof. repeat split; reflexivity. Qed.

(** For every other name the reducer returns null: the action is a
    Navigate without params and without an embedded action, it names the
    active tab, and the nested router of that tab, if there is one, answers
    null or declines. *)
Lemma navigate_to_active_tab_returns_null env a name st h o idx routes :
  h !! st = Some o → o_index o = Some idx → o_routes o = Some routes →
  idx < length routes → allRoutes h routes = true →
  a_type a = NAVIGATE → a_action a = None → a_params a = None →
  a_routeName a = Some name → name ≠ EmptyString →
  findTab (order env) (Some name) 0 = Some (idx, name) →
  activeDeclines env a h idx routes
  ∨ (∃ r h', routerOfTab env (order env !! idx) = Some r
             ∧ Router.getStateForAction r a (arr_get routes (Some idx)) h = Ok None h') →
  ∃ h', getStateForAction env a (Some st) h = Ok None h'.
Proof.
  intros Hst Hidx Hroutes Hlt Hall Ht Ha Hp Hname Hne Hfind Hactive.
  unfold getStateForAction, NavigationActions.mapDeprecatedActionAndWarn.
  cbn [establishState]. rewrite bind_ret.
  rewrite (bind_Ok _ _ _ _ _ (initParams_skip a st h ltac:(intros [? _]; congruence))).
  unfold reduce.
  assert (passAction env a st h = Ok (Next tt) h) as Hpass.
  { apply passAction_skip. intros [? _]; congruence. }
  destruct Hactive as [Hd|(r & h' & Hr & Hnull)].
  - exists h. erewrite orFinally_Next; last first.
    { erewrite andThen_Next by exact Hpass. by eapply activeTab_declines. }
    unfold changeTab.
    rewrite (bind_Ok _ _ _ _ _ (backIndex_Ok env a st h o idx routes Hst Hidx Hall Hlt)).
    rewrite bool_decide_eq_false_2 by congruence. cbn [andb].
    erewrite orFinally_Return; [done|].
    erewrite andThen_Next; last first.
    { eapply navigate_plain; eauto. by rewrite Hname. }
    cbn beta iota. erewrite andThen_Next by (apply setParams_other; congruence).
    rewrite (indexChange_same st h o idx Hst Hidx).
    unfold truthy. by rewrite bool_decide_eq_true_2.
  - exists h'. erewrite orFinally_Return; [done|].
    erewrite andThen_Next by exact Hpass.
    unfold activeTab. do 2 step. rewrite Hidx. cbn [mbind option_bind].
    apply routerOfTab_Some in Hr. rewrite Hr, Ha. cbn [default].
    by rewrite (bind_Ok _ _ _ _ _ Hnull).
Qed.

(** ** Back to the initial route *)

Lemma indexOf_bound names name i :
  indexOf names name i = (-1)%Z
  ∨ (i ≤ indexOf names name i < i + Z.of_nat (length names))%Z.
Proof.
  revert i. induction names as [|x names IH]; intros i; cbn [indexOf length].
  - by left.
  - case_decide; [right; lia|]. destruct (IH (i + 1)%Z) as [->|]; [by left|right; lia].
Qed.

(** What a router that was built has in its closure. *)
Lemma makeEnv_Built routeConfigs config env :
  makeEnv routeConfigs config = Built env →
  Z.of_nat (initialRouteIndex env) = indexOf (order env) (initialRouteName env) 0
  ∧ shouldBackNavigateToInitialRoute env = bool_decide (backBehavior env = "initialRoute").
Proof.
  unfold makeEnv. intros H.
  destruct (validateRouteConfigMap routeConfigs); [|done].
  destruct (bool_decide (_ ∈ _)); [done|].
  destruct (forEachRoute _ _ _ _) as [[ps ts]|]; [|done].
  destruct (decide (_ = (-1)%Z)) as [|Hne]; [done|].
  injection H as <-. simpl. split; [|done].
  destruct (indexOf_bound (default routeConfigs.*1 (c_order config))
              (if truthy (c_initialRouteName config)
               then c_initialRouteName config
               else default routeConfigs.*1 (c_order config) !! 0) 0) as [|];
    [done|lia].
Qed.

(** C6, amended: with [backBehavior = initialRoute], a Back action that is
    eligible (its key is absent or is the key of the active route), on a
    state whose active tab is not the initial one and either owns no nested
    router or owns one that declines the action, returns a new state whose
    index is the position of [initialRouteName] in [order] and whose routes
    are the routes of the input state, object by object; the store is
    otherwise as it was. *)
Theorem C6_back_moves_to_initial_route routeConfigs config env a st h o idx routes :
  makeEnv routeConfigs config = Built env →
  backBehavior env = "initialRoute" →
  h !! st = Some o → o_index o = Some idx → o_routes o = Some routes →
  idx < length routes → allRoutes h routes = true →
  idx ≠ initialRouteIndex env →
  a_type a = BACK → backEligible a h idx routes →
  activeDeclines env a h idx routes →
  Z.of_nat (initialRouteIndex env) = indexOf (order env) (initialRouteName env) 0
  ∧ getStateForAction env a (Some st) h
    = Ok (Some (length h)) (h ++ [set_index (Some (initialRouteIndex env)) o]).
Proof.
  intros [Hinit Hshould]%makeEnv_Built Hback Hst Hidx Hroutes Hlt Hall Hne Ht He Hd.
  split; [done|].
  unfold getStateForAction, NavigationActions.mapDeprecatedActionAndWarn.
  cbn [establishState]. rewrite bind_ret.
  rewrite (bind_Ok _ _ _ _ _ (initParams_skip a st h ltac:(intros [? _]; congruence))).
  unfold reduce. erewrite orFinally_Next; last first.
  { erewrite andThen_Next by (apply passAction_skip; intros [? _]; congruence).
    by eapply activeTab_declines. }
  unfold changeTab.
  rewrite (bind_Ok _ _ _ _ _ (backIndex_Ok env a st h o idx routes Hst Hidx Hall Hlt)).
  rewrite Hshould. rewrite !bool_decide_eq_true_2 by done. cbn [andb].
  erewrite orFinally_Return; [done|].
  erewrite andThen_Next by (apply navigate_other; congruence). cbn beta iota.
  erewrite andThen_Next by (apply setParams_other; congruence).
  by erewrite indexChange_moved.
Qed.

(** Settings, a nested navigator, is active and declines the Back action,
    being on its own initial tab. *)
Lemma C6_witness :
  Z.of_nat (initialRouteIndex appEnv) = indexOf (order appEnv) (initialRouteName appEnv) 0
  ∧ getStateForAction appEnv back (Some 10) appStore
    = Ok (Some 11) (appStore ++ [stateObj None 0 [0; 4; 8]]).
Proof.
  apply (C6_back_moves_to_initial_route appRoutes noConfig appEnv back 10 appStore
           (stateObj None 1 [0; 4; 8]) 1 [ERef 0; ERef 4; ERef 8]);
    try reflexivity; try (cbn; lia); try done.
  - by left.
  - declines_by_running.
Defined.

(** ** SetParams *)

Lemma allRoutes_spec h routes :
  allRoutes h routes = true
  ↔ ∀ i e, routes !! i = Some e → ∃ l o, e = ERef l ∧ h !! l = Some o.
Proof.
  unfold allRoutes. rewrite forallb_forall. split.
  - intros Hall i e He. specialize (Hall e). rewrite <- list_elem_of_In in Hall.
    specialize (Hall (list_elem_of_lookup_2 _ _ _ He)).
    destruct e as [| |l]; try done.
    apply bool_decide_eq_true in Hall as [o Ho]. eauto.
  - intros Hall e [i He]%list_elem_of_In%list_elem_of_lookup_1.
    destruct (Hall i e He) as (l & o & -> & Ho).
    apply bool_decide_eq_true. eauto.
Qed.

Lemma arr_indexOf_first routes n l :
  routes !! n = Some (ERef l) →
  (∀ i, i < n → routes !! i ≠ Some (ERef l)) →
  arr_indexOf routes l = Some n.
Proof.
  revert n. induction routes as [|e routes IH]; [done|].
  intros n Hn Hfirst. cbn [arr_indexOf]. destruct n as [|n].
  - cbn in Hn. simplify_eq. by rewrite decide_True.
  - rewrite decide_False.
    + rewrite (IH n); [done|done|]. intros i Hi. apply (Hfirst (S i)). lia.
    + intros ->. by apply (Hfirst 0); [lia|].
Qed.

Lemma spread_twice (p q : Params) : spread (spread p q) q = spread p q.
Proof. unfold spread. by rewrite (assoc_L (∪)), (idemp_L (∪)). Qed.

Section SetParams.
Context (env : Env) (a : Action).
Hypothesis Htype : a_type a = SET_PARAMS.

Lemma merged_twice r : merged a (merged a r) = merged a r.
Proof. unfold merged. cbn. by rewrite spread_twice. Qed.

(** One application, on a state whose slot [n] is the first with the key
    of the action and whose active tab declines. *)
Lemma getStateForAction_setParams st h o idx routes n l r :
  h !! st = Some o → o_index o = Some idx → o_routes o = Some routes →
  idx < length routes → allRoutes h routes = true →
  routes !! n = Some (ERef l) → h !! l = Some r → o_key r = a_key a →
  (∀ i, i < n → keyAt h routes i ≠ a_key a) →
  activeDeclines env a h idx routes →
  getStateForAction env a (Some st) h
  = Ok (Some (S (length h)))
      (h ++ [merged a r; set_routes (<[n := ERef (length h)]> routes) o]).
Proof.
  intros Hst Hidx Hroutes Hlt Hall Hn Hl Hkey Hfirst Hd.
  unfold getStateForAction, NavigationActions.mapDeprecatedActionAndWarn.
  cbn [establishState]. rewrite bind_ret.
  rewrite (bind_Ok _ _ _ _ _ (initParams_skip a st h ltac:(intros [? _]; congruence))).
  unfold reduce. erewrite orFinally_Next; last first.
  { erewrite andThen_Next by (apply passAction_skip; intros [? _]; congruence).
    by eapply activeTab_declines. }
  unfold changeTab.
  rewrite (bind_Ok _ _ _ _ _ (backIndex_Ok env a st h o idx routes Hst Hidx Hall Hlt)).
  rewrite bool_decide_eq_false_2 by congruence. cbn [andb].
  erewrite orFinally_Return; [done|].
  erewrite andThen_Next by (apply navigate_other; congruence). cbn beta iota.
  erewrite andThen_Return; [done|].
  unfold setParams. rewrite decide_True by done. step.
  rewrite (bind_Ok _ _ _ _ _
             (findRoute_Some (fun route => bool_decide (o_key route = a_key a))
                h routes n l r Hall Hn Hl (bool_decide_eq_true_2 _ Hkey)
                ltac:(intros i l' o' Hi Hl' Ho'; apply bool_decide_eq_false;
                      rewrite <- (keyAt_lookup _ _ _ _ _ Hl' Ho'); by apply Hfirst))).
  step. step.
  rewrite (bind_Ok (readObj st) _ (h ++ [merged a r]) o (h ++ [merged a r]))
    by (apply readObj_Ok; rewrite lookup_app_l; [done|by eapply lookup_lt_Some]).
  step. unfold ret. rewrite length_app, <- app_assoc. cbn [length app].
  rewrite (arr_copy_allRoutes h routes Hall).
  rewrite (arr_indexOf_first routes n l Hn); last first.
  { intros i Hi Hil. apply (Hfirst i Hi). by rewrite (keyAt_lookup _ _ _ _ _ Hil Hl). }
  unfold arr_set. rewrite decide_True by (by eapply lookup_lt_Some).
  do 3 f_equal. lia.
Qed.

End SetParams.

Lemma keyAt_app h h' routes i :
  allRoutes h routes = true → keyAt (h ++ h') routes i = keyAt h routes i.
Proof.
  intros Hall. unfold keyAt, arr_get.
  destruct (routes !! i) as [e|] eqn:He; [|done].
  destruct (proj1 (allRoutes_spec h routes) Hall i e He) as (l & o & -> & Ho).
  cbn. rewrite lookup_app_l by (by eapply lookup_lt_Some). done.
Qed.

Lemma keyAt_insert_ne h routes n e i :
  i ≠ n → keyAt h (<[n := e]> routes) i = keyAt h routes i.
Proof. intros Hne. unfold keyAt, arr_get. by rewrite list_lookup_insert_ne. Qed.

(** C8, amended: on a state whose active tab owns no nested router, or one
    that declines the action, a SetParams action whose key is first found
    in slot [n] returns a new state that differs from the input state in
    slot [n] only, where a new route has the old params overridden by
    [action.params]; the index is the one of the input state.  Applied to
    that result (whose active tab declines again), the action returns
    another new state, with the same value. *)
Theorem C8_setParams_merges_one_slot_and_is_idempotent
    env a st h o idx routes n l r :
  a_type a = SET_PARAMS →
  h !! st = Some o → o_index o = Some idx → o_routes o = Some routes →
  idx < length routes → allRoutes h routes = true →
  routes !! n = Some (ERef l) → h !! l = Some r → o_key r = a_key a →
  (∀ i, i < n → keyAt h routes i ≠ a_key a) →
  activeDeclines env a h idx routes →
  let st1 := S (length h) in
  let routes1 := <[n := ERef (length h)]> routes in
  let h1 := h ++ [merged a r; set_routes routes1 o] in
  getStateForAction env a (Some st) h = Ok (Some st1) h1
  ∧ o_index (set_routes routes1 o) = o_index o
  ∧ (activeDeclines env a h1 idx routes1 →
     ∃ st2 h2, getStateForAction env a (Some st1) h1 = Ok (Some st2) h2
               ∧ st2 ≠ st1
               ∧ stateValue h2 st2 = stateValue h2 st1).
Proof.
  intros Htype Hst Hidx Hroutes Hlt Hall Hn Hl Hkey Hfirst Hd st1 routes1 h1.
  assert (n < length routes) as Hnlt by (by eapply lookup_lt_Some).
  assert (length h1 = S (S (length h))) as Hlen1.
  { unfold h1. rewrite length_app. cbn. lia. }
  split; [by eapply getStateForAction_setParams|]. split; [done|]. intros Hd1.
  assert (h1 !! st1 = Some (set_routes routes1 o)) as Hst1.
  { unfold h1, st1. rewrite lookup_app_r by lia.
    by replace (S (length h) - length h) with 1 by lia. }
  assert (h1 !! length h = Some (merged a r)) as Hl1.
  { unfold h1. rewrite lookup_app_r by lia.
    by replace (length h - length h) with 0 by lia. }
  assert (allRoutes h1 routes1 = true) as Hall1.
  { apply allRoutes_spec. intros i e. unfold routes1.
    destruct (decide (i = n)) as [->|Hne].
    - rewrite list_lookup_insert_eq by done. intros [= <-]. eauto.
    - rewrite list_lookup_insert_ne by done. intros He.
      destruct (proj1 (allRoutes_spec h routes) Hall i e He) as (l' & o' & -> & Ho').
      exists l', o'. split; [done|]. unfold h1.
      rewrite lookup_app_l by (by eapply lookup_lt_Some). done. }
  exists (S (length h1)),
    (h1 ++ [merged a (merged a r);
            set_routes (<[n := ERef (length h1)]> routes1) (set_routes routes1 o)]).
  split; [|split].
  - eapply (getStateForAction_setParams env a Htype st1 h1 _ idx routes1 n (length h));
      try done.
    + unfold routes1. by rewrite length_insert.
    + unfold routes1. by rewrite list_lookup_insert_eq.
    + intros i Hi. unfold routes1, h1.
      rewrite keyAt_insert_ne by lia. rewrite keyAt_app by done. by apply Hfirst.
  - unfold st1. lia.
  - unfold stateValue. rewrite merged_twice.
    rewrite lookup_app_r by lia. replace (S (length h1) - length h1) with 1 by lia.
    rewrite lookup_app_l by (unfold st1; lia). rewrite Hst1. cbn.
    do 3 f_equal. unfold routeValues. rewrite list_fmap_insert. cbn.
    rewrite lookup_app_r by lia. replace (length h1 - length h1) with 0 by lia. cbn.
    apply list_insert_id. rewrite list_lookup_fmap. unfold routes1.
    rewrite list_lookup_insert_eq by done. cbn.
    rewrite lookup_app_l by lia. by rewrite Hl1.
Qed.

(** The key "Main" on the state whose active tab, Settings, is a nested
    navigator that has no route with that key. *)
Lemma C8_witness :
  getStateForAction appEnv setMainParams (Some 10) appStore
  = Ok (Some 12)
      (appStore ++ [set_params {["a" := PNum 1]} (routeObj "Main");
                    stateObj None 1 [11; 4; 8]])
  ∧ ∃ st2 h2,
      getStateForAction appEnv setMainParams (Some 12)
        (appStore ++ [set_params {["a" := PNum 1]} (routeObj "Main");
                      stateObj None 1 [11; 4; 8]])
      = Ok (Some st2) h2
      ∧ st2 ≠ 12 ∧ stateValue h2 st2 = stateValue h2 12.
Proof.
  destruct (C8_setParams_merges_one_slot_and_is_idempotent appEnv setMainParams
              10 appStore (stateObj None 1 [0; 4; 8]) 1 [ERef 0; ERef 4; ERef 8] 0 0
              (routeObj "Main")) as (H1 & _ & H2);
    try reflexivity; try (cbn; lia).
  - declines_by_running.
  - split; [exact H1|]. apply H2. declines_by_running.
Defined.

(** ** Paths *)

Lemma mapM_app {A B} (f : A → M B) l1 l2 h ys1 h1 :
  mapM f l1 h = Ok ys1 h1 →
  mapM f (l1 ++ l2) h = (ys2 <- mapM f l2 ;; ret (ys1 ++ ys2)) h1.
Proof.
  revert h ys1. induction l1 as [|x l1 IH]; intros h ys1; cbn [mapM app].
  - intros [= <- <-]. unfold bind, ret. by destruct (mapM f l2 h).
  - intros H. unfold bind, ret in H |- *.
    destruct (f x h) as [y h'|]; [|done].
    destruct (mapM f l1 h') as [ys h''|] eqn:Hm; [|done].
    simplify_eq. rewrite (IH _ _ Hm). unfold bind, ret.
    by destruct (mapM f l2 h1).
Qed.

Lemma mapM_const {A B} (f : A → M B) l h y :
  (∀ x, x ∈ l → f x h = Ok y h) → mapM f l h = Ok (replicate (length l) y) h.
Proof.
  induction l as [|x l IH]; [done|]. intros Hf. cbn [mapM].
  rewrite (bind_Ok _ _ _ _ _ (Hf x ltac:(by left))).
  by rewrite (bind_Ok _ _ _ _ _ (IH ltac:(intros z Hz; apply Hf; by right))).
Qed.

Lemma mapM_pure {A B} (f : A → M B) l h :
  (∀ x, x ∈ l → ∃ y, f x h = Ok y h) → ∃ ys, mapM f l h = Ok ys h.
Proof.
  induction l as [|x l IH]; [by eexists|]. intros Hf. cbn [mapM].
  destruct (Hf x ltac:(by left)) as [y Hy].
  destruct (IH ltac:(intros z Hz; apply Hf; by right)) as [ys Hys].
  exists (y :: ys). rewrite (bind_Ok _ _ _ _ _ Hy). by rewrite (bind_Ok _ _ _ _ _ Hys).
Qed.

Lemma firstAction_skip n act rest :
  firstAction (replicate n None ++ Some act :: rest) = Some act.
Proof. unfold firstAction. induction n as [|n IH]; [done|]. cbn. apply IH. Qed.

Section Paths.
Context (env : Env) (path : string) (h : Store).

Lemma actionForTab_total params tabId :
  resolversTotal env path h params [tabId] →
  ∃ res, actionForTab env path params tabId h = Ok res h.
Proof.
  intros Htotal. unfold actionForTab.
  destruct (tabRouterOf env tabId) as [[r|]|] eqn:Hr;
    [|destruct params; by eexists..].
  destruct (Router.getActionForPathAndParams r) as [resolve|] eqn:Hres;
    [|destruct params; by eexists].
  destruct (Htotal tabId r resolve) as [res Hinner];
    [by left|by apply routerOfTab_Some|done|].
  rewrite (bind_Ok _ _ _ _ _ Hinner). destruct res; [by eexists|].
  case_decide; by eexists.
Qed.

End Paths.

Lemma mapM_actionForTab_total env path h params names :
  resolversTotal env path h params names →
  ∃ actions, mapM (actionForTab env path params) names h = Ok actions h.
Proof.
  intros Htotal. apply mapM_pure. intros tabId Hin. apply actionForTab_total.
  intros t r resolve ->%list_elem_of_singleton. by apply Htotal.
Qed.

(** ** Init *)

(** The [map] of lines 98-107 on routes that are objects of the store [h0],
    run in a store [h0 ++ x]: it allocates one object per route. *)
Lemma mapM_mergeParams params h0 routes x :
  allRoutes h0 routes = true →
  ∃ news,
    mapM (mergeParams params) routes (h0 ++ x)
    = Ok (ERef <$> seq (length (h0 ++ x)) (length routes)) ((h0 ++ x) ++ news)
    ∧ length news = length routes
    ∧ ∀ i l r, routes !! i = Some (ERef l) → h0 !! l = Some r →
               news !! i = Some (initialized params r).
Proof.
  revert x. induction routes as [|e routes IH]; intros x.
  - intros _. exists []. by rewrite app_nil_r.
  - intros [(l & r & -> & Hl) Hall]%allRoutes_cons.
    destruct (IH (x ++ [initialized params r]) Hall) as (news & Hm & Hlen & Hnews).
    exists (initialized params r :: news). split; [|split].
    + cbn [mapM mergeParams].
      rewrite (bind_Ok (bind (readObj l) _) _ (h0 ++ x) (ERef (length (h0 ++ x)))
                 ((h0 ++ x) ++ [initialized params r])); last first.
      { rewrite (bind_Ok (readObj l) _ (h0 ++ x) r (h0 ++ x)); last first.
        { apply readObj_Ok. rewrite lookup_app_l by (by eapply lookup_lt_Some). done. }
        by step. }
      rewrite <- (assoc_L (++) h0 x). rewrite (bind_Ok _ _ _ _ _ Hm). unfold ret.
      cbn [length seq fmap list_fmap]. f_equal.
      * f_equal. rewrite !length_app. cbn. f_equal. f_equal. lia.
      * by rewrite <- !(assoc_L (++)).
    + cbn. by rewrite Hlen.
    + intros [|i] l' r' Hi Hr'; cbn in *.
      * by simplify_eq.
      * by eapply Hnews.
Qed.

(** The Init branch only adds objects to the store and assigns to
    [state.routes]. *)
Lemma mapM_mergeParams_extends params routes h rs h' :
  mapM (mergeParams params) routes h = Ok rs h' → ∃ news, h' = h ++ news.
Proof.
  revert h rs. induction routes as [|e routes IH]; intros h rs; cbn [mapM].
  - intros [= <- <-]. exists []. by rewrite app_nil_r.
  - unfold bind at 1. destruct e as [| |l]; cbn [mergeParams].
    + unfold ret at 1. unfold bind. destruct (mapM _ routes h) as [ys h1|] eqn:Hm; [|done].
      intros [= <- <-]. by eapply IH.
    + done.
    + unfold bind at 1, readObj. destruct (h !! l) as [r|]; [|done].
      unfold bind at 1, alloc, ret at 1. unfold bind.
      destruct (mapM _ routes _) as [ys h1|] eqn:Hm; [|done].
      intros [= <- <-]. destruct (IH _ _ Hm) as [news ->].
      exists ([initialized params r] ++ news). by rewrite (assoc_L (++)).
Qed.

Lemma initParams_state a st h h' o :
  initParams a st h = Ok tt h' → h !! st = Some o →
  ∃ o', h' !! st = Some o' ∧ o_index o' = o_index o
        ∧ (is_Some (o_routes o) → is_Some (o_routes o')).
Proof.
  unfold initParams. intros H Hst. destruct (decide (a_type a = INIT)); last first.
  { injection H as <-. eauto. }
  destruct (a_params a) as [params|]; last first.
  { injection H as <-. eauto. }
  destruct (o_routes o) as [routes|] eqn:Hr; last first.
  { unfold routesOf, StateUtils.routesOf, bind, readObj in H.
    by rewrite Hst, Hr in H. }
  revert H. step.
  unfold bind at 1. destruct (mapM _ routes h) as [rs h1|] eqn:Hm; [|done].
  destruct (mapM_mergeParams_extends _ _ _ _ _ Hm) as [news ->].
  assert ((h ++ news) !! st = Some o) as Hst'.
  { rewrite lookup_app_l by (by eapply lookup_lt_Some). done. }
  step. unfold writeObj. case_decide; [|done]. intros [= <-].
  exists (set_routes rs o). rewrite list_lookup_insert_eq by done.
  split; [done|]. split; [done|]. cbn. eauto.
Qed.

(** ** The state made for an absent input state *)

Lemma mapM_length {A B} (f : A → M B) l h ys h' :
  mapM f l h = Ok ys h' → length ys = length l.
Proof.
  revert h ys. induction l as [|x l IH]; intros h ys; cbn [mapM].
  - by intros [= <- <-].
  - unfold bind, ret. destruct (f x h) as [y h1|]; [|done].
    destruct (mapM f l h1) as [ys' h2|] eqn:Hm; [|done].
    intros [= <- <-]. cbn. f_equal. by eapply IH.
Qed.

Lemma establishState_absent env a h st h1 :
  establishState env a None h = Ok st h1 →
  ∃ routes,
    h1 !! st = Some (mkObj None None None (Some (initialRouteIndex env)) (Some routes))
    ∧ length routes = length (order env).
Proof.
  unfold establishState, bind.
  destruct (mapM _ (order env) h) as [routes h'|] eqn:Hm; [|done].
  unfold alloc. intros [= <- <-]. exists routes. split.
  - rewrite lookup_app_r by lia. by replace (length h' - length h') with 0 by lia.
  - by eapply mapM_length.
Qed.

(** ** The tables of a router that was built *)

Lemma lookupConfig_Some configs name c :
  lookupConfig configs name = Some c → (name, c) ∈ configs.
Proof.
  induction configs as [|[n c'] rest IH]; [done|]. cbn [lookupConfig].
  case_decide; [intros [= <-]; subst; by left|]. intros ?%IH. by right.
Qed.

Lemma lookupConfig_key configs name :
  is_Some (lookupConfig configs name) ↔ name ∈ configs.*1.
Proof.
  induction configs as [|[n c'] rest IH].
  - split; [by intros [? ?]|by intros ?%elem_of_nil].
  - cbn [lookupConfig fmap list_fmap]. rewrite elem_of_cons. case_decide.
    + split; [by left|by eexists].
    + rewrite IH. split; [by right|]. by intros [?|?].
Qed.

Lemma routeConfigOf_own configs name c :
  lookupConfig configs name = Some c → routeConfigOf configs name = Some c.
Proof. unfold routeConfigOf. by intros ->. Qed.

(** [routeConfigs[name]] is [undefined] for the names that are neither keys
    of the map nor inherited. *)
Lemma routeConfigOf_is_Some configs name :
  is_Some (routeConfigOf configs name) ↔ name ∈ configs.*1 ∨ inherited name = true.
Proof.
  unfold routeConfigOf. destruct (lookupConfig configs name) as [c|] eqn:Hc.
  - split; [|by eexists]. intros _. left. apply lookupConfig_key. by eexists.
  - assert (name ∉ configs.*1) as Hn.
    { intros [c Hin]%lookupConfig_key. congruence. }
    destruct (inherited name).
    + split; [by right|by eexists].
    + split; [by intros [? ?]|by intros [?|?]].
Qed.

Lemma indexOf_found names name i :
  (0 ≤ i)%Z →
  indexOf names name i ≠ (-1)%Z ↔ ∃ n, name = Some n ∧ n ∈ names.
Proof.
  revert i. induction names as [|x names IH]; intros i Hi; cbn [indexOf].
  - split; [done|]. by intros (n & _ & ?%elem_of_nil).
  - case_decide as Hx.
    + split; [|lia]. intros _. exists x. split; [done|by left].
    + rewrite IH by lia. split.
      * intros (n & -> & Hin). exists n. split; [done|by right].
      * intros (n & -> & [->|Hin]%elem_of_cons); [done|eauto].
Qed.

(** The position [indexOf] returns holds the name, and no earlier one does. *)
Lemma indexOf_first names name i k :
  indexOf names name i = (i + Z.of_nat k)%Z → (0 ≤ i)%Z →
  (Some <$> names !! k) = Some name
  ∧ ∀ j, j < k → (Some <$> names !! j) ≠ Some name.
Proof.
  revert i k. induction names as [|x names IH]; intros i k; cbn [indexOf]; [lia|].
  case_decide as Hx.
  - intros Hk _. assert (k = 0) as -> by lia. split; [by rewrite <- Hx|lia].
  - intros Hk Hi. destruct k as [|k].
    + destruct (indexOf_bound names name (i + 1)) as [?|?]; lia.
    + destruct (IH (i + 1)%Z k) as [Hat Hbefore]; [lia|lia|].
      split; [done|]. intros [|j] Hj; cbn; [congruence|]. apply Hbefore. lia.
Qed.

(** What the [forEach] of lines 40-49 leaves in the two tables. *)
Lemma forEachRoute_tables configs names ps ts ps' ts' :
  forEachRoute configs names ps ts = Built (ps', ts') →
  (∀ name, name ∈ names →
     ∃ c, routeConfigOf configs name = Some c
          ∧ ps' !! name = Some (default name (path c))
          ∧ ts' !! name = Some (screen c ≫= router))
  ∧ (∀ name, name ∉ names → ps' !! name = ps !! name ∧ ts' !! name = ts !! name).
Proof.
  revert ps ts. induction names as [|n names IH]; intros ps ts; cbn [forEachRoute].
  - intros [= <- <-]. split; [by intros name ?%elem_of_nil|done].
  - destruct (routeConfigOf configs n) as [c|] eqn:Hc; [|done].
    intros [Hin Hout]%IH. split.
    + intros name [->|Hname]%elem_of_cons; [|by apply Hin].
      destruct (decide (n ∈ names)) as [Hn|Hn]; [by apply Hin|].
      destruct (Hout n Hn) as [-> ->]. exists c. by rewrite !lookup_insert_eq.
    + intros name [Hne Hname]%not_elem_of_cons.
      destruct (Hout name Hname) as [-> ->].
      by rewrite !lookup_insert_ne.
Qed.

Lemma forEachRoute_Failed configs names ps ts e :
  forEachRoute configs names ps ts = Failed e →
  e = TypeError ∧ ∃ name, name ∈ names ∧ routeConfigOf configs name = None.
Proof.
  revert ps ts. induction names as [|n names IH]; intros ps ts; cbn [forEachRoute]; [done|].
  destruct (routeConfigOf configs n) as [c|] eqn:Hc.
  - intros (-> & name & Hin & Hname)%IH. split; [done|]. exists name.
    split; [by right|done].
  - intros [= <-]. split; [done|]. exists n. split; [by left|done].
Qed.

Lemma forEachRoute_Built configs names ps ts :
  (∀ name, name ∈ names → is_Some (routeConfigOf configs name)) →
  ∃ tables, forEachRoute configs names ps ts = Built tables.
Proof.
  intros Hall. destruct (forEachRoute configs names ps ts) as [t|e] eqn:H; [eauto|].
  apply forEachRoute_Failed in H as (_ & name & Hin & Hnone).
  destruct (Hall name Hin) as [c Hc]. congruence.
Qed.

(** The tables of a router that was built. *)
Lemma makeEnv_tables configs config env :
  makeEnv configs config = Built env →
  routeConfigs env = configs
  ∧ order env = configOrder configs config
  ∧ (∀ name, name ∈ order env →
       ∃ c, routeConfigOf configs name = Some c
            ∧ paths env !! name = Some (default name (path c))
            ∧ tabRouters env !! name = Some (screen c ≫= router))
  ∧ (∀ name, name ∉ order env →
       tabRouters env !! name = None
       ∧ paths env !! name = c_paths config ≫= (.!! name)).
Proof.
  unfold makeEnv. intros H.
  destruct (validateRouteConfigMap configs); [|done].
  destruct (bool_decide (_ ∈ _)); [done|].
  destruct (forEachRoute _ _ _ _) as [[ps ts]|] eqn:Hf; [|done].
  destruct (decide (_ = (-1)%Z)) as [|Hne]; [done|].
  injection H as <-. simpl. apply forEachRoute_tables in Hf as [Hin Hout].
  split; [done|]. split; [done|]. split; [done|].
  intros name Hname. destruct (Hout name Hname) as [-> ->]. split; [apply lookup_empty|].
  destruct (c_paths config); [done|apply lookup_empty].
Qed.

(** Every tab of a router that was built has an entry of its own in
    [tabRouters]. *)
Lemma makeEnv_ownTabs configs config env :
  makeEnv configs config = Built env → ownTabs env.
Proof.
  intros (_ & _ & Hin & _)%makeEnv_tables name Hname.
  destruct (Hin name Hname) as (c & _ & _ & Ht). by eexists.
Qed.

Lemma ownTabs_active env i :
  ownTabs env →
  is_Some (tabRouters env !! js_key (order env !! i))
  ∨ inherited (js_key (order env !! i)) = false.
Proof.
  intros Hown. destruct (order env !! i) as [name|] eqn:Hi; [|by right].
  left. apply Hown. by eapply list_elem_of_lookup_2.
Qed.

(** ** A state is returned when no tab owns a nested router *)

Lemma leafOnly_lookup env name r :
  leafOnly env = true → tabRouters env !! name = Some (Some r) → False.
Proof.
  unfold leafOnly. rewrite forallb_forall. intros Hall Hr.
  apply elem_of_map_to_list, list_elem_of_In, Hall in Hr.
  by apply bool_decide_eq_true in Hr.
Qed.

Lemma leafOnly_lookup_None env name :
  leafOnly env = true →
  is_Some (tabRouters env !! name) ∨ inherited name = false →
  match tabRouterOf env name with Some (Some _) => False | _ => True end.
Proof.
  intros Hleaf Hname. unfold tabRouterOf.
  destruct (tabRouters env !! name) as [[r|]|] eqn:Hr; try done.
  - by eapply leafOnly_lookup.
  - destruct Hname as [[? ?]| ->]; done.
Qed.

Lemma leafOnly_routerOfTab env t :
  leafOnly env = true →
  is_Some (tabRouters env !! js_key t) ∨ inherited (js_key t) = false →
  routerOfTab env t = None.
Proof.
  intros Hleaf Hname. pose proof (leafOnly_lookup_None env (js_key t) Hleaf Hname) as Hno.
  unfold routerOfTab. by destruct (tabRouterOf env (js_key t)) as [[r|]|].
Qed.

Lemma makeEnv_initialRouteIndex routeConfigs config env :
  makeEnv routeConfigs config = Built env →
  initialRouteIndex env < length (order env).
Proof.
  unfold makeEnv. intros H.
  destruct (validateRouteConfigMap routeConfigs); [|done].
  destruct (bool_decide (_ ∈ _)); [done|].
  destruct (forEachRoute _ _ _ _) as [[ps ts]|]; [|done].
  destruct (decide (_ = (-1)%Z)) as [|Hne]; [done|].
  injection H as <-. simpl.
  destruct (indexOf_bound (default routeConfigs.*1 (c_order config))
              (if truthy (c_initialRouteName config)
               then c_initialRouteName config
               else default routeConfigs.*1 (c_order config) !! 0) 0) as [|];
    [done|lia].
Qed.

(** The routes made for tabs without nested routers. *)
Lemma mapM_initialRoute_leafOnly env a names h :
  leafOnly env = true →
  (∀ name, name ∈ names → is_Some (tabRouters env !! name)) →
  mapM (initialRoute env a) names h
  = Ok (ERef <$> seq (length h) (length names)) (h ++ (routeObj <$> names)).
Proof.
  intros Hleaf. revert h. induction names as [|name names IH]; intros h Hown.
  - cbn. by rewrite app_nil_r.
  - cbn [mapM]. erewrite bind_Ok; last first.
    { unfold initialRoute.
      pose proof (leafOnly_lookup_None env name Hleaf
                    (or_introl (Hown name ltac:(by left)))) as Hno.
      destruct (tabRouterOf env name) as [[r|]|]; [done|by step..]. }
    rewrite (bind_Ok _ _ _ _ _ (IH _ ltac:(intros n Hn; apply Hown; by right))).
    unfold ret. cbn [length seq fmap list_fmap].
    f_equal.
    + f_equal. rewrite length_app. cbn. f_equal. f_equal. lia.
    + by rewrite <- (assoc_L (++)).
Qed.

Lemma findTab_Some names name i j tabId :
  findTab names name i = Some (j, tabId) →
  name = Some tabId ∧ (i ≤ j)%nat ∧ names !! (j - i) = Some tabId.
Proof.
  revert i. induction names as [|x names IH]; intros i; cbn [findTab]; [done|].
  case_decide as Hx.
  - intros [= <- <-]. split; [done|]. split; [lia|].
    by replace (i - i) with 0 by lia.
  - intros (-> & Hle & Hj)%IH. split; [done|]. split; [lia|].
    by replace (j - i) with (S (j - S i)) by lia.
Qed.

Lemma findTab_lt names name i j tabId :
  findTab names name i = Some (j, tabId) → j < i + length names.
Proof.
  revert i. induction names as [|x names IH]; intros i; cbn [findTab length]; [done|].
  case_decide.
  - intros [= <- <-]. lia.
  - intros H'%IH. lia.
Qed.

Lemma findRoute_total p h routes :
  allRoutes h routes = true →
  findRoute p routes h = Ok None h
  ∨ ∃ l, findRoute p routes h = Ok (Some l) h ∧ is_Some (h !! l).
Proof.
  induction routes as [|e routes IH]; [by left|].
  intros [(l & o & -> & Ho) Hr]%allRoutes_cons. cbn [findRoute]. step.
  destruct (p o); [|by apply IH]. right. exists l. eauto.
Qed.

Lemma indexAt_alloc (h : Store) o : indexAt (h ++ [o]) (length h) = o_index o.
Proof.
  unfold indexAt. rewrite lookup_app_r by lia.
  by replace (length h - length h) with 0 by lia.
Qed.

Section LeafOnly.
Context (env : Env) (a : Action) (st : loc) (h : Store) (o : JsObj)
  (idx : nat) (routes : list elem).
Hypothesis Hleaf : leafOnly env = true.
Hypothesis Hown : ownTabs env.
Hypothesis Hst : h !! st = Some o.
Hypothesis Hidx : o_index o = Some idx.
Hypothesis Hroutes : o_routes o = Some routes.
Hypothesis Hlt : idx < length routes.
Hypothesis Hlen : (length (order env) ≤ length routes)%nat.
Hypothesis Hall : allRoutes h routes = true.

Lemma navigate_total i :
  (∃ l h' n, navigate env a st i h = Ok (Return (Some l)) h'
             ∧ navigatesTo env a n ∧ indexAt h' l = Some n)
  ∨ (∃ j d, navigate env a st i h = Ok (Next (j, d)) h
            ∧ (j = i ∨ ∃ n, navigatesTo env a n ∧ j = Some n)).
Proof.
  unfold navigate, navigatesTo.
  destruct (decide (a_type a = NAVIGATE)); [|right; eexists _, _; eauto].
  destruct (findTab (order env) (a_routeName a) 0) as [[j tabId]|] eqn:Hfind;
    [|right; eexists _, _; eauto].
  assert (∃ n, (a_type a = NAVIGATE ∧ ∃ t, Some (j, tabId) = Some (n, t)) ∧ Some j = Some n)
    as Hto by eauto.
  destruct (truthy (Some tabId)); [|right; eexists _, _; eauto].
  step.
  pose proof (findTab_Some _ _ _ _ _ Hfind) as (Hname & _ & Htab%list_elem_of_lookup_2).
  apply findTab_lt in Hfind.
  destruct (allRoutes_lookup h routes j Hall ltac:(cbn in Hfind; lia))
    as (l & r & Hl & Hr).
  pose proof (leafOnly_lookup_None env (js_key (a_routeName a)) Hleaf) as Hno.
  rewrite Hname in Hno. specialize (Hno (or_introl (Hown tabId Htab))).
  rewrite <- Hname in Hno.
  destruct (tabRouterOf env (js_key (a_routeName a))) as [[?|]|]; [done|..].
  all: destruct (a_action a) as [inner|]; [rewrite bind_ret; right; eexists _, _; eauto|].
  all: destruct (a_params a) as [params|]; [|rewrite bind_ret; right; eexists _, _; eauto].
  all: unfold arr_get; rewrite Hl; left; eexists _, _, j.
  all: rewrite (bind_Ok (bind (readObj l) _) _ h (Some (length h))
                  (h ++ [initialized params r])) by (by do 2 step).
  all: rewrite decide_True by (intros [= Heq]; apply lookup_lt_Some in Hr; lia).
  all: assert ((h ++ [initialized params r]) !! st = Some o) as Hst'
         by (rewrite lookup_app_l by (by eapply lookup_lt_Some); done).
  all: do 3 step; split; [done|]; split; [eauto|]; by rewrite indexAt_alloc.
Qed.

Lemma setParams_total :
  (∃ l h', setParams a st h = Ok (Return (Some l)) h' ∧ indexAt h' l = Some idx)
  ∨ setParams a st h = Ok (Next tt) h.
Proof.
  unfold setParams. destruct (decide (a_type a = SET_PARAMS)); [|by right]. step.
  destruct (findRoute_total (fun route => bool_decide (o_key route = a_key a))
              h routes Hall) as [Hf|(l & Hf & [r Hr])];
    rewrite (bind_Ok _ _ _ _ _ Hf); [by right|left].
  eexists _, _. do 2 step.
  assert ((h ++ [merged a r]) !! st = Some o) as Hst'.
  { rewrite lookup_app_l by (by eapply lookup_lt_Some). done. }
  unfold merged in Hst'. do 2 step. split; [done|]. by rewrite indexAt_alloc.
Qed.

Lemma indexChange_total j d :
  (∃ l h', indexChange None st j d h = Ok (Return (Some l)) h'
           ∧ (indexAt h' l = j ∨ indexAt h' l = Some idx))
  ∨ indexChange None st j d h = Ok (Next tt) h.
Proof.
  unfold indexChange. step. case_decide.
  - left. eexists _, _. do 2 step. split; [done|]. left. by rewrite indexAt_alloc.
  - destruct d; [left|by right]. eexists _, _. split; [done|]. right.
    unfold indexAt. by rewrite Hst.
Qed.

(** With no input state and no nested routers the reducer returns a state,
    whose index is the one of the state it started from unless a Back moved
    it to the initial tab or a Navigate to the tab it names. *)
Lemma reduce_total :
  ¬ (a_type a = PASS ∧ is_Some (a_action a)) →
  ∃ l h', reduce env a None st h = Ok (Some l) h'
          ∧ (indexAt h' l = Some idx
             ∨ (a_type a = BACK ∧ indexAt h' l = Some (initialRouteIndex env))
             ∨ ∃ n, navigatesTo env a n ∧ indexAt h' l = Some n).
Proof.
  intros Hpass.
  unfold reduce. erewrite orFinally_Next; last first.
  { erewrite andThen_Next by (by apply passAction_skip).
    eapply activeTab_declines; eauto. split.
    - destruct (allRoutes_lookup h routes idx Hall Hlt) as (l & r & Hl & _).
      unfold arr_get. rewrite Hl. by eexists.
    - intros r. by rewrite leafOnly_routerOfTab by (done || by apply ownTabs_active). }
  unfold changeTab.
  rewrite (bind_Ok _ _ _ _ _ (backIndex_Ok env a st h o idx routes Hst Hidx Hall Hlt)).
  match goal with |- context [navigate env a st ?i] =>
    assert (i = Some idx ∨ (a_type a = BACK ∧ i = Some (initialRouteIndex env))) as Hi0;
    [|generalize dependent i; intros i0 Hi0]
  end.
  { destruct (bool_decide (a_type a = BACK)) eqn:Hb; [|by left].
    apply bool_decide_eq_true in Hb. case_match; eauto. }
  destruct (navigate_total i0) as [(l & h' & n & Hn & Hto & Hin)|(j & d & Hn & Hj)].
  { exists l, h'. split; [|eauto]. erewrite orFinally_Return; [done|].
    by erewrite andThen_Return. }
  destruct setParams_total as [(l & h' & Hs & His)|Hs].
  { exists l, h'. split; [|eauto]. erewrite orFinally_Return; [done|].
    erewrite andThen_Next by exact Hn. cbn beta iota. by erewrite andThen_Return. }
  destruct (indexChange_total j d) as [(l & h' & Hi & Hii)|Hi].
  { exists l, h'. split.
    - erewrite orFinally_Return; [done|].
      erewrite andThen_Next by exact Hn. cbn beta iota.
      by erewrite andThen_Next by exact Hs.
    - destruct Hii as [Hii|Hii]; [|by left]. rewrite Hii.
      destruct Hj as [->|(n & Hto & ->)]; [|eauto].
      destruct Hi0 as [->|[Hb ->]]; eauto. }
  exists st, h. split.
  - erewrite orFinally_Next; last first.
    { erewrite andThen_Next by exact Hn. cbn beta iota.
      by erewrite andThen_Next by exact Hs. }
    eapply broadcast_decline; eauto. intros i tabId Hi' Hne. split.
    + destruct (allRoutes_lookup h routes i Hall) as (l & r & Hl & _).
      { apply lookup_lt_Some in Hi'. lia. }
      unfold arr_get. rewrite Hl. by eexists.
    + intros r. rewrite leafOnly_routerOfTab; [done|done|].
      left. apply Hown. by eapply list_elem_of_lookup_2.
  - left. unfold indexAt. by rewrite Hst.
Qed.

End LeafOnly.

Lemma allRoutes_seq (h : Store) n k :
  (n + k ≤ length h)%nat → allRoutes h (ERef <$> seq n k) = true.
Proof.
  intros Hle. apply allRoutes_spec. intros i e.
  intros (j & -> & Hj)%list_lookup_fmap_Some.
  apply lookup_seq in Hj as [-> Hi].
  destruct (lookup_lt_is_Some_2 h (n + i) ltac:(lia)) as [o Ho]. eauto.
Qed.

Lemma getStateForAction_total routeConfigs config env a h :
  makeEnv routeConfigs config = Built env → leafOnly env = true →
  ¬ (a_type a = PASS ∧ is_Some (a_action a)) →
  ∃ st h', getStateForAction env a None h = Ok (Some st) h'
           ∧ (indexAt h' st = Some (initialRouteIndex env)
              ∨ ∃ n, navigatesTo env a n ∧ indexAt h' st = Some n).
Proof.
  intros Hbuilt Hleaf Hpass.
  pose proof (makeEnv_ownTabs _ _ _ Hbuilt) as Hown.
  apply makeEnv_initialRouteIndex in Hbuilt as Hlt.
  unfold getStateForAction, NavigationActions.mapDeprecatedActionAndWarn.
  set (h0 := h ++ (routeObj <$> order env)).
  set (routes := ERef <$> seq (length h) (length (order env))).
  set (o := mkObj None None None (Some (initialRouteIndex env)) (Some routes)).
  assert (establishState env a None h = Ok (length h0) (h0 ++ [o])) as Hest.
  { unfold establishState.
    by rewrite (bind_Ok _ _ _ _ _ (mapM_initialRoute_leafOnly env a (order env) h Hleaf Hown)). }
  rewrite (bind_Ok _ _ _ _ _ Hest).
  assert (length h0 = length h + length (order env)) as Hlen0.
  { unfold h0. by rewrite length_app, length_fmap. }
  assert ((h0 ++ [o]) !! length h0 = Some o) as Hst.
  { rewrite lookup_app_r by lia. by replace (length h0 - length h0) with 0 by lia. }
  assert (o_routes o = Some routes) as Hro by done.
  assert (length routes = length (order env)) as Hlenr.
  { unfold routes. by rewrite length_fmap, length_seq. }
  assert (allRoutes (h0 ++ [o]) routes = true) as Hall.
  { apply allRoutes_seq. rewrite length_app. cbn. lia. }
  assert (∃ h2 o2 routes2,
            initParams a (length h0) (h0 ++ [o]) = Ok tt h2
            ∧ h2 !! length h0 = Some o2
            ∧ o_index o2 = Some (initialRouteIndex env)
            ∧ o_routes o2 = Some routes2
            ∧ length routes2 = length (order env)
            ∧ allRoutes h2 routes2 = true) as (h2 & o2 & routes2 & Hip & Hst2 & Hi2 & Hr2 & Hl2 & Ha2).
  { destruct (decide (a_type a = INIT ∧ is_Some (a_params a)))
      as [[Ht [params Hp]]|Hinit]; last first.
    { exists (h0 ++ [o]), o, routes. by rewrite (initParams_skip a _ _ Hinit). }
    destruct (mapM_mergeParams params (h0 ++ [o]) routes [] Hall)
      as (news & Hm & Hlenn & _).
    rewrite app_nil_r in Hm.
    set (routes' := ERef <$> seq (length (h0 ++ [o])) (length routes)) in *.
    assert (length ((h0 ++ [o]) ++ news) = length h0 + 1 + length routes) as Hlen2.
    { rewrite !length_app. cbn. lia. }
    exists (<[length h0 := set_routes routes' o]> ((h0 ++ [o]) ++ news)),
      (set_routes routes' o), routes'.
    split; [|split; [|split; [|split; [|split]]]]; try done.
    - unfold initParams. rewrite decide_True by done. rewrite Hp. step.
      rewrite (bind_Ok _ _ _ _ _ Hm).
      rewrite (bind_Ok (readObj (length h0)) _ _ o ((h0 ++ [o]) ++ news))
        by (apply readObj_Ok; rewrite lookup_app_l; [done|rewrite length_app; cbn; lia]).
      unfold writeObj. rewrite decide_True by lia. done.
    - rewrite list_lookup_insert_eq by lia. done.
    - unfold routes'. rewrite length_fmap, length_seq. lia.
    - apply allRoutes_seq. rewrite length_insert, Hlen2, length_app. cbn. lia. }
  rewrite (bind_Ok _ _ _ _ _ Hip).
  destruct (reduce_total env a (length h0) h2 o2 (initialRouteIndex env) routes2)
    as (l & h' & Hred & Hidx); try done; try lia.
  exists l, h'. split; [done|]. destruct Hidx as [?|[[_ ?]|?]]; eauto.
Qed.

(** ** The Init branch assigns to the input state *)

(** C1: the code does not do what the claim says.  On an Init action
    carrying params, line 98 assigns the new array to [routes] of the state
    the caller supplied: when the Init branch is over, the object at [st],
    the input state itself, holds the new routes, and it is no longer what
    it was as soon as the state has a route.  Every route of the state is
    replaced by a newly created Route (at a location that no object of the
    input store has), which has the properties of the old route with its
    params overridden by the params of the action, whether or not this
    changes them: no route is kept by identity.  The objects of the input
    store other than the state are not modified.  The rest of the reducer
    (lines 111-282) runs on the input state, in the store [h1]; when no tab
    owns a nested router it returns the input state, [st], by identity. *)
Theorem C1_init_assigns_to_the_input_state env a params st h o routes :
  a_type a = INIT → a_params a = Some params →
  h !! st = Some o → o_routes o = Some routes →
  allRoutes h routes = true →
  let routes' := ERef <$> seq (length h) (length routes) in
  ∃ h1,
    getStateForAction env a (Some st) h = reduce env a (Some st) st h1
    ∧ h1 !! st = Some (set_routes routes' o)
    ∧ (routes ≠ [] → h1 !! st ≠ h !! st)
    ∧ length h1 = length h + length routes
    ∧ (∀ l, l ≠ st → l < length h → h1 !! l = h !! l)
    ∧ (∀ i l r, routes !! i = Some (ERef l) → h !! l = Some r →
                routes' !! i = Some (ERef (length h + i))
                ∧ h1 !! (length h + i) = Some (initialized params r))
    ∧ (∀ idx, o_index o = Some idx → idx < length routes →
              (length (order env) ≤ length routes)%nat →
              (∀ i, routerOfTab env (order env !! i) = None) →
              getStateForAction env a (Some st) h = Ok (Some st) h1).
Proof.
  intros Htype Hparams Hst Hroutes Hall routes'.
  destruct (mapM_mergeParams params h routes [] Hall) as (news & Hm & Hlen & Hnews).
  rewrite app_nil_r in Hm.
  assert (st < length h) as Hlt by (by eapply lookup_lt_Some).
  set (h1 := <[st := set_routes routes' o]> (h ++ news)).
  assert (length h1 = length h + length routes) as Hlen1.
  { unfold h1. rewrite length_insert, length_app. lia. }
  assert (h1 !! st = Some (set_routes routes' o)) as Hst1.
  { unfold h1. rewrite list_lookup_insert_eq; [done|]. rewrite length_app. lia. }
  assert (getStateForAction env a (Some st) h = reduce env a (Some st) st h1) as Hrun.
  { unfold getStateForAction, NavigationActions.mapDeprecatedActionAndWarn.
    cbn [establishState]. rewrite bind_ret.
    erewrite bind_Ok; [done|].
    unfold initParams. rewrite decide_True by done. rewrite Hparams.
    step. rewrite (bind_Ok _ _ _ _ _ Hm).
    rewrite (bind_Ok (readObj st) _ (h ++ news) o (h ++ news))
      by (apply readObj_Ok; by rewrite lookup_app_l).
    unfold writeObj. rewrite decide_True; [done|]. rewrite length_app. lia. }
  assert (∀ i, i < length routes → arr_get routes' (Some i) = Some (length h + i))
    as Hget.
  { intros i Hi. unfold arr_get, routes'.
    by rewrite list_lookup_fmap, lookup_seq_lt by done. }
  exists h1. split; [done|]. split; [done|]. split; [|split; [done|split; [|split]]].
  - intros Hne. rewrite Hst1, Hst. intros [= Heq].
    assert (o_routes (set_routes routes' o) = o_routes o) as Hr by (by rewrite Heq).
    rewrite Hroutes in Hr. injection Hr as Hr.
    destruct routes as [|e routes0]; [done|].
    apply allRoutes_cons in Hall as [(l & r & -> & Hl) _].
    apply lookup_lt_Some in Hl. cbn in routes', Hr. injection Hr as Hr _.
    rewrite <- Hr in Hl. exact (Nat.lt_irrefl _ Hl).
  - intros l Hne Hl. unfold h1. rewrite list_lookup_insert_ne by done.
    by rewrite lookup_app_l.
  - intros i l r Hi Hr. assert (i < length routes) as Hilt by (by eapply lookup_lt_Some).
    split.
    + unfold routes'. rewrite list_lookup_fmap, lookup_seq_lt by done. done.
    + unfold h1. rewrite list_lookup_insert_ne by lia. rewrite lookup_app_r by lia.
      replace (length h + i - length h) with i by lia. by eapply Hnews.
  - intros idx Hidx Hilt Hlen' Hleaf. rewrite Hrun.
    assert (length routes' = length routes) as Hlenr.
    { unfold routes'. by rewrite length_fmap, length_seq. }
    apply (reduce_unmatched env a (Some st) st h1 (set_routes routes' o) idx routes');
      try done; try (intros ?; congruence).
    + lia.
    + apply allRoutes_seq. lia.
    + intros [? _]. congruence.
    + split; [rewrite Hget by done; by eexists|]. intros r. by rewrite Hleaf.
    + intros i tabId Hi _. specialize (Hleaf i). rewrite Hi in Hleaf.
      split; [|intros r; by rewrite Hleaf].
      rewrite Hget; [by eexists|]. apply lookup_lt_Some in Hi. lia.
Qed.

(** The failing input: Home has the params [{a: 1}] and the action carries
    [{a: 1}].  The state at 2 is assigned the new routes and returned by
    identity, and Home is replaced by the new object 3 all the same. *)
Lemma C1_witness :
  ∃ h1,
    getStateForAction flatEnv (NavigationActions.init (Some {["a" := PNum 1]}))
      (Some 2) flatStoreA
    = Ok (Some 2) h1
    ∧ flatStoreA !! 2 = Some (stateObj None 0 [0; 1])
    ∧ h1 !! 2 = Some (stateObj None 0 [3; 4])
    ∧ h1 !! 3 = Some (set_params {["a" := PNum 1]} (routeObj "Home"))
    ∧ h1 !! 0 = flatStoreA !! 0.
Proof.
  destruct (C1_init_assigns_to_the_input_state flatEnv
              (NavigationActions.init (Some {["a" := PNum 1]})) {["a" := PNum 1]}
              2 flatStoreA (stateObj None 0 [0; 1]) [ERef 0; ERef 1])
    as (h1 & _ & Hstate & _ & _ & Hold & Hnew & Hrun); try reflexivity.
  exists h1. split; [|split; [reflexivity|split; [exact Hstate|split]]].
  - apply (Hrun 0); [reflexivity|cbn; lia|vm_compute; lia|].
    intros [|[|i]]; reflexivity.
  - exact (proj2 (Hnew 0 0 _ eq_refl eq_refl)).
  - apply Hold; cbn; lia.
Defined.

(** C2, amended: for every valid configuration and every action, (1) the
    state made for an absent input state has, when the Init branch is over,
    an index equal to the position of [initialRouteName] in [order], and
    this state is what [getStateForAction] returns whenever no branch of the
    reducer responds to the action: it is not a Pass carrying an action, a
    Navigate that changes anything (it names no tab, or it names the initial
    tab and carries neither params nor an action), or a SetParams whose key
    is the key of a route, and all the tabs decline it.  (2) When no tab
    owns a nested router, every action that is not a Pass carrying an action
    returns a state whose index is the position of [initialRouteName], or,
    for a Navigate that names a tab, the position of that tab. *)
Theorem C2_absent_state_has_initial_index routeConfigs config env a h :
  makeEnv routeConfigs config = Built env →
  (∀ st h1 h2,
     establishState env a None h = Ok st h1 →
     initParams a st h1 = Ok tt h2 →
     ∃ o routes,
       h2 !! st = Some o ∧ o_routes o = Some routes
       ∧ Z.of_nat <$> o_index o = Some (indexOf (order env) (initialRouteName env) 0)
       ∧ (initialRouteIndex env < length routes → allRoutes h2 routes = true →
          ¬ (a_type a = PASS ∧ is_Some (a_action a)) →
          activeDeclines env a h2 (initialRouteIndex env) routes →
          (a_type a = NAVIGATE →
           findTab (order env) (a_routeName a) 0 = None
           ∨ (a_action a = None ∧ a_params a = None
              ∧ ∃ tabId, findTab (order env) (a_routeName a) 0
                         = Some (initialRouteIndex env, tabId))) →
          (a_type a = SET_PARAMS →
           ∀ i, i < length routes → keyAt h2 routes i ≠ a_key a) →
          othersDecline env a h2 (initialRouteIndex env) routes →
          getStateForAction env a None h = Ok (Some st) h2))
  ∧ (leafOnly env = true →
     ¬ (a_type a = PASS ∧ is_Some (a_action a)) →
     ∃ st h',
       getStateForAction env a None h = Ok (Some st) h'
       ∧ (Z.of_nat <$> indexAt h' st
          = Some (indexOf (order env) (initialRouteName env) 0)
          ∨ ∃ n, navigatesTo env a n ∧ indexAt h' st = Some n)).
Proof.
  intros Henv. pose proof (makeEnv_Built _ _ _ Henv) as [Hinit _]. split.
  - intros st h1 h2 Hest Hip.
    destruct (establishState_absent env a h st h1 Hest) as (routes1 & Hst1 & _).
    destruct (initParams_state a st h1 h2 _ Hip Hst1) as (o & Hst & Hidx & Hr).
    cbn in Hidx. destruct (Hr ltac:(by eexists)) as [routes Hroutes].
    exists o, routes. split; [done|]. split; [done|]. split.
    { rewrite Hidx. cbn. by rewrite Hinit. }
    intros Hlt Hall Hpass Hactive Hnav Hset Hothers.
    unfold getStateForAction, NavigationActions.mapDeprecatedActionAndWarn.
    rewrite (bind_Ok _ _ _ _ _ Hest). rewrite (bind_Ok _ _ _ _ _ Hip).
    eapply reduce_unmatched; eauto.
    intros Ht. destruct (Hnav Ht) as [?|(? & ? & ?)]; [by left|right; eauto].
  - intros Hleaf Hpass.
    destruct (getStateForAction_total routeConfigs config env a h Henv Hleaf Hpass)
      as (st & h' & Hrun & [Hidx|Hidx]).
    + exists st, h'. split; [done|]. left. rewrite Hidx. cbn. by rewrite Hinit.
    + exists st, h'. eauto.
Qed.

(** Init on the three tabs with two nested navigators, which are made
    first (objects 0 to 8) and decline the Init action on their states; and
    SetParams on the two tabs without nested routers. *)
Lemma C2_witness :
  (∃ o routes,
     appStore !! 9 = Some o ∧ o_routes o = Some routes
     ∧ Z.of_nat <$> o_index o = Some (indexOf (order appEnv) (initialRouteName appEnv) 0)
     ∧ getStateForAction appEnv (NavigationActions.init None) None []
       = Ok (Some 9) (take 10 appStore))
  ∧ ∃ st h',
      getStateForAction flatEnv setInboxParams None [] = Ok (Some st) h'
      ∧ (Z.of_nat <$> indexAt h' st
         = Some (indexOf (order flatEnv) (initialRouteName flatEnv) 0)
         ∨ ∃ n, navigatesTo flatEnv setInboxParams n ∧ indexAt h' st = Some n).
Proof.
  split.
  - destruct (proj1 (C2_absent_state_has_initial_index appRoutes noConfig appEnv
                       (NavigationActions.init None) [] eq_refl)
                9 (take 10 appStore) (take 10 appStore))
      as (o & routes & Hst & Hroutes & Hidx & Hrun); try reflexivity.
    injection Hst as <-. injection Hroutes as <-.
    eexists _, _. split; [reflexivity|]. split; [reflexivity|]. split; [exact Hidx|].
    apply Hrun; try reflexivity; try (cbn; lia); try (by intros []); try done.
    + vm_compute. lia.
    + others_by_running.
  - apply (proj2 (C2_absent_state_has_initial_index flatRoutes noConfig flatEnv
                    setInboxParams [] eq_refl)); [reflexivity|].
    by intros [[=] _].
Defined.

(** * Further properties *)

(** ** Construction (lines 26-54) *)

(** X1: in a router that was built, every route of [order] has an entry in
    [paths], the path its configuration declares or else its own name, and
    [tabRouters[name]] reads as the router of its screen or else as null;
    the configuration is what [routeConfigs[name]] reads, the route of the
    map or, for an inherited name the map lacks, the inherited property,
    which declares neither a path nor a screen.  What [config.paths] says of
    a route of [order] is overwritten.  For a name outside [order],
    [tabRouters[name]] reads as the inherited value when the name is an
    inherited one and as undefined otherwise, and [paths] holds for it what
    [config.paths] holds. *)
Theorem X1_built_router_tables configs config env name :
  makeEnv configs config = Built env →
  (name ∈ order env →
   ∃ c, routeConfigOf configs name = Some c
        ∧ paths env !! name = Some (default name (path c))
        ∧ tabRouterOf env name = Some (screen c ≫= router))
  ∧ (name ∉ order env →
     tabRouterOf env name
     = (if inherited name then Some (Some inheritedValue) else None)
     ∧ paths env !! name = c_paths config ≫= (.!! name)).
Proof.
  intros (_ & _ & Hin & Hout)%makeEnv_tables. split.
  - intros (c & Hc & Hp & Ht)%Hin. exists c. split; [done|]. split; [done|].
    by apply tabRouterOf_own.
  - intros [Ht Hp]%Hout. split; [|done]. unfold tabRouterOf. by rewrite Ht.
Qed.

Lemma X1_witness :
  paths (envOf [("Home", mkRouteConfig None (Some "home")); ("Profile", leaf)]
               (mkConfig None (Some {["Home" := "main"]}) None None)) !! "Home"
  = Some "home".
Proof.
  destruct (X1_built_router_tables
              [("Home", mkRouteConfig None (Some "home")); ("Profile", leaf)]
              (mkConfig None (Some {["Home" := "main"]}) None None) _ "Home" eq_refl)
    as [Hin _].
  destruct Hin as (c & Hl & Hp & _); [left|].
  injection Hl as <-. exact Hp.
Defined.

(** X2: given a route configuration map that passes validation and an
    [order] without the name [__proto__], the construction of a router
    succeeds exactly when [routeConfigs[name]] is defined for every name of
    [order], that is, the name is a route of the map or the name of an
    inherited property, and the initial route name is a name of [order]. *)
Theorem X2_construction_succeeds_iff configs config :
  validateRouteConfigMap configs = Built tt →
  "__proto__" ∉ configOrder configs config →
  (∃ env, makeEnv configs config = Built env)
  ↔ (∀ name, name ∈ configOrder configs config →
             name ∈ configs.*1 ∨ inherited name = true)
    ∧ ∃ n, configInitialRouteName configs config = Some n
           ∧ n ∈ configOrder configs config.
Proof.
  intros Hv Hproto. unfold makeEnv, configInitialRouteName. rewrite Hv.
  unfold configOrder in *.
  set (order := default configs.*1 (c_order config)) in *.
  set (initial := if truthy (c_initialRouteName config)
                  then c_initialRouteName config else order !! 0).
  pose proof (indexOf_found order initial 0 ltac:(lia)) as Hfound.
  rewrite bool_decide_eq_false_2 by done.
  split.
  - intros [env H].
    destruct (forEachRoute _ _ _ _) as [[ps ts]|] eqn:Hf; [|done].
    destruct (decide (_ = (-1)%Z)) as [|Hne]; [done|].
    split; [|by apply Hfound].
    intros name Hname. apply forEachRoute_tables in Hf as [Hin _].
    destruct (Hin name Hname) as (c & Hc & _). apply routeConfigOf_is_Some. by eexists.
  - intros [Hall Hinit].
    destruct (forEachRoute_Built configs order (default ∅ (c_paths config)) ∅)
      as [[ps ts] ->].
    { intros name Hname. by apply routeConfigOf_is_Some, Hall. }
    rewrite decide_False by (by apply Hfound). eauto.
Qed.

Lemma X2_witness :
  ∃ env, makeEnv flatRoutes (mkConfig (Some ["Home"; "toString"]) None None None)
         = Built env.
Proof.
  apply (X2_construction_succeeds_iff flatRoutes
           (mkConfig (Some ["Home"; "toString"]) None None None)); [reflexivity| |].
  - apply (bool_decide_unpack _). vm_compute. exact I.
  - split.
    + intros name Hname. cbn in Hname.
      apply elem_of_cons in Hname as [->|Hname]; [left; cbn; left|].
      apply elem_of_cons in Hname as [->|Hname]; [by right|].
      by apply elem_of_nil in Hname.
    + exists "Home". split; [reflexivity|]. cbn. left.
Defined.

(** X3: for a route configuration map that passes validation and an [order]
    without the name [__proto__], the construction throws a [TypeError] on a
    name of [order] for which [routeConfigs[name]] is undefined, a name that
    is neither a route of the map nor inherited, before the initial route
    name is checked; it throws the invariant violation when
    [routeConfigs[name]] is defined for all names of [order] and the initial
    route name is not among them. *)
Theorem X3_construction_errors configs config :
  validateRouteConfigMap configs = Built tt →
  "__proto__" ∉ configOrder configs config →
  ((∃ name, name ∈ configOrder configs config
            ∧ (name ∉ configs.*1) ∧ inherited name = false) →
   makeEnv configs config = Failed TypeError)
  ∧ ((∀ name, name ∈ configOrder configs config →
              name ∈ configs.*1 ∨ inherited name = true) →
     (∀ n, configInitialRouteName configs config = Some n →
           n ∉ configOrder configs config) →
     makeEnv configs config = Failed InvariantViolation).
Proof.
  intros Hv Hproto. unfold makeEnv, configInitialRouteName. rewrite Hv.
  unfold configOrder in *.
  set (order := default configs.*1 (c_order config)) in *.
  set (initial := if truthy (c_initialRouteName config)
                  then c_initialRouteName config else order !! 0).
  pose proof (indexOf_found order initial 0 ltac:(lia)) as Hfound.
  rewrite bool_decide_eq_false_2 by done.
  split.
  - intros (name & Hin & Hout & Hinh).
    destruct (forEachRoute _ _ _ _) as [[ps ts]|e] eqn:Hf.
    + apply forEachRoute_tables in Hf as [Hf _].
      destruct (Hf name Hin) as (c & Hc & _).
      assert (is_Some (routeConfigOf configs name)) as Hsome by (by eexists).
      apply routeConfigOf_is_Some in Hsome as [?|?]; [done|congruence].
    + by apply forEachRoute_Failed in Hf as [-> _].
  - intros Hall Hinit.
    destruct (forEachRoute_Built configs order (default ∅ (c_paths config)) ∅)
      as [[ps ts] ->].
    { intros name Hname. by apply routeConfigOf_is_Some, Hall. }
    rewrite decide_True; [done|].
    destruct (decide (indexOf order initial 0 = (-1)%Z)) as [|Hne]; [done|].
    apply Hfound in Hne as (n & Hn & Hin). by destruct (Hinit n Hn).
Qed.

Lemma X3_witness :
  makeEnv flatRoutes (mkConfig (Some ["Home"; "Nope"]) None (Some "Zed") None)
  = Failed TypeError
  ∧ makeEnv flatRoutes (mkConfig (Some ["Home"; "toString"]) None (Some "Profile") None)
    = Failed InvariantViolation.
Proof.
  split.
  - apply (X3_construction_errors flatRoutes
             (mkConfig (Some ["Home"; "Nope"]) None (Some "Zed") None)); [reflexivity| |].
    + apply (bool_decide_unpack _). vm_compute. exact I.
    + exists "Nope". split; [cbn; right; left|]. split; [|reflexivity].
      apply (bool_decide_unpack _). vm_compute. exact I.
  - apply (X3_construction_errors flatRoutes
             (mkConfig (Some ["Home"; "toString"]) None (Some "Profile") None));
      [reflexivity| | |].
    + apply (bool_decide_unpack _). vm_compute. exact I.
    + intros name Hname. cbn in Hname.
      apply elem_of_cons in Hname as [->|Hname]; [left; cbn; left|].
      apply elem_of_cons in Hname as [->|Hname]; [by right|].
      by apply elem_of_nil in Hname.
    + intros n [= <-]. apply (bool_decide_unpack _). vm_compute. exact I.
Defined.

(** X4: the initial index of a router that was built is the first position
    of the initial route name in [order]; when the configuration names no
    initial route, it is 0. *)
Theorem X4_initial_index_is_first_position configs config env :
  makeEnv configs config = Built env →
  initialRouteName env = configInitialRouteName configs config
  ∧ (Some <$> order env !! initialRouteIndex env) = Some (initialRouteName env)
  ∧ (∀ j, j < initialRouteIndex env →
          (Some <$> order env !! j) ≠ Some (initialRouteName env))
  ∧ (truthy (c_initialRouteName config) = false → initialRouteIndex env = 0).
Proof.
  intros H. destruct (makeEnv_Built _ _ _ H) as [Hi _].
  destruct (indexOf_first (order env) (initialRouteName env) 0 (initialRouteIndex env))
    as [Hat Hbefore]; [lia|lia|].
  split; [|split; [done|split; [done|]]].
  - revert H. unfold makeEnv, configInitialRouteName, configOrder.
    destruct (validateRouteConfigMap configs); [|done].
    destruct (bool_decide (_ ∈ _)); [done|].
    destruct (forEachRoute _ _ _ _) as [[ps ts]|]; [|done].
    destruct (decide (_ = (-1)%Z)); [done|]. by intros [= <-].
  - intros Hfalsy. revert H Hi. unfold makeEnv.
    destruct (validateRouteConfigMap configs); [|done].
    destruct (bool_decide (_ ∈ _)); [done|].
    destruct (forEachRoute _ _ _ _) as [[ps ts]|]; [|done].
    destruct (decide (_ = (-1)%Z)) as [|Hne]; [done|]. intros [= <-]. simpl.
    revert Hne. rewrite Hfalsy.
    destruct (default configs.*1 (c_order config)) as [|x names]; [done|].
    cbn [indexOf lookup list_lookup]. rewrite decide_True by done. lia.
Qed.

Lemma X4_witness :
  initialRouteName appEnv = Some "Main" ∧ initialRouteIndex appEnv = 0.
Proof.
  destruct (X4_initial_index_is_first_position appRoutes noConfig appEnv eq_refl)
    as (Hn & _ & _ & H0).
  split; [exact Hn|]. apply H0. reflexivity.
Defined.

(** ** The branches of the reducer *)

Lemma getStateForAction_present env a st h :
  ¬ (a_type a = INIT ∧ is_Some (a_params a)) →
  getStateForAction env a (Some st) h = reduce env a (Some st) st h.
Proof.
  intros Hinit. unfold getStateForAction, NavigationActions.mapDeprecatedActionAndWarn.
  cbn [establishState]. rewrite bind_ret.
  by rewrite (bind_Ok _ _ _ _ _ (initParams_skip a st h Hinit)).
Qed.

Lemma lookup_alloc (h : Store) o : (h ++ [o]) !! length h = Some o.
Proof. rewrite lookup_app_r by lia. by replace (length h - length h) with 0 by lia. Qed.

Lemma arr_get_Some routes i l :
  arr_get routes (Some i) = Some l ↔ routes !! i = Some (ERef l).
Proof.
  unfold arr_get. destruct (routes !! i) as [[| |l']|]; split; intros; by simplify_eq.
Qed.

Section Branches.
Context (env : Env) (a : Action) (st : loc) (h : Store) (o : JsObj)
  (idx : nat) (routes : list elem).
Hypothesis Hstate : stateAt h st o idx routes.

Lemma stateAt_alloc x : stateAt (h ++ x) st o idx routes.
Proof.
  destruct Hstate as (Hst & Hidx & Hroutes & Hlt & Hall).
  split; [|split; [done|split; [done|split; [done|]]]].
  - rewrite lookup_app_l by (by eapply lookup_lt_Some). done.
  - apply allRoutes_spec. intros i e He.
    destruct (proj1 (allRoutes_spec h routes) Hall i e He) as (l & r & -> & Hl).
    exists l, r. split; [done|]. rewrite lookup_app_l by (by eapply lookup_lt_Some). done.
Qed.

(** Lines 144-158 when the router of the active tab returns a new state. *)
Lemma activeTab_handles input r new h' :
  routerOfTab env (order env !! idx) = Some r →
  Router.getStateForAction r (default a (a_action a)) (arr_get routes (Some idx)) h
  = Ok (Some new) h' →
  Some new ≠ arr_get routes (Some idx) → h' !! st = Some o →
  activeTab env a input st h
  = Ok (Return (Some (length h')))
      (h' ++ [set_routes (<[idx := ERef new]> routes) o]).
Proof.
  destruct Hstate as (Hst & Hidx & Hroutes & Hlt & Hall).
  intros Hr Hrun Hnew Hst'. unfold activeTab. do 2 step. rewrite Hidx.
  cbn [mbind option_bind]. apply routerOfTab_Some in Hr. rewrite Hr.
  rewrite (bind_Ok _ _ _ _ _ Hrun).
  destruct input; cbn beta iota; rewrite decide_True by done; do 4 step;
    rewrite Hidx, (arr_copy_allRoutes h routes Hall); unfold arr_set;
    by rewrite decide_True by done.
Qed.

(** The reducer once the Pass branch is skipped and the active tab has
    declined. *)
Lemma reduce_declined input :
  ¬ (a_type a = PASS ∧ is_Some (a_action a)) →
  activeDeclines env a h idx routes →
  reduce env a input st h
  = orFinally
      (andThen
         (navigate env a st
            (if bool_decide (a_type a = BACK)
                && bool_decide (backEligible a h idx routes)
                && shouldBackNavigateToInitialRoute env
             then Some (initialRouteIndex env) else Some idx))
         (λ '(activeTabIndex, didNavigate),
            andThen (setParams a st) (λ _,
              indexChange input st activeTabIndex didNavigate)))
      (λ _, broadcast env a st) h.
Proof.
  destruct Hstate as (Hst & Hidx & Hroutes & Hlt & Hall).
  intros Hpass Hactive. unfold reduce.
  erewrite orFinally_Next; last first.
  { erewrite andThen_Next by (by apply passAction_skip).
    by eapply activeTab_declines. }
  unfold changeTab.
  by rewrite (bind_Ok _ _ _ _ _ (backIndex_Ok env a st h o idx routes Hst Hidx Hall Hlt)).
Qed.

(** Lines 183-201 when no child state is made: the action has neither an
    embedded action nor params, or the tab it names owns a router. *)
Lemma navigate_noChild i n tabId :
  a_type a = NAVIGATE → a_action a = None →
  a_params a = None ∨ is_Some (routerOfTab env (a_routeName a)) →
  findTab (order env) (a_routeName a) 0 = Some (n, tabId) →
  navigate env a st i h = Ok (Next (Some n, truthy (Some tabId))) h.
Proof.
  destruct Hstate as (Hst & Hidx & Hroutes & Hlt & Hall).
  unfold navigate. intros Ht Ha Hp ->. rewrite decide_True by done.
  destruct (truthy (Some tabId)); [|done]. step. rewrite Ha.
  destruct Hp as [->|[r Hr]].
  - by destruct (tabRouterOf env (js_key (a_routeName a))) as [[]|].
  - apply routerOfTab_Some in Hr. by rewrite Hr.
Qed.

(** Lines 193-210: params for a tab without a nested router. *)
Lemma navigate_params i n tabId params l route :
  a_type a = NAVIGATE → a_action a = None → a_params a = Some params →
  findTab (order env) (a_routeName a) 0 = Some (n, tabId) →
  tabId ≠ EmptyString → routerOfTab env (Some tabId) = None →
  routes !! n = Some (ERef l) → h !! l = Some route →
  navigate env a st i h
  = Ok (Return (Some (S (length h))))
      (h ++ [set_params (spread (orEmpty (o_params route)) params) route;
             set_index (Some n) (set_routes (<[n := ERef (length h)]> routes) o)]).
Proof.
  destruct Hstate as (Hst & Hidx & Hroutes & Hlt & Hall).
  unfold navigate. intros Ht Ha Hp Hf Hne Hr Hn Hl. rewrite Hf.
  destruct (findTab_Some _ _ _ _ _ Hf) as (Hname & _ & _).
  rewrite decide_True by done. cbn [truthy].
  rewrite bool_decide_eq_true_2 by done. step. rewrite Ha, Hp, Hname.
  unfold routerOfTab in Hr. change (js_key (Some tabId)) with tabId in *.
  rewrite (proj2 (arr_get_Some routes n l) Hn).
  assert (Some (length h) ≠ Some l) as Hfresh.
  { intros [= Heq]. apply lookup_lt_Some in Hl. lia. }
  pose proof (stateAt_alloc [set_params (spread (orEmpty (o_params route)) params) route])
    as (Hst' & _).
  destruct (tabRouterOf env tabId) as [[r|]|]; [discriminate Hr|..];
    rewrite (bind_Ok _ _ h (Some (length h))
               (h ++ [set_params (spread (orEmpty (o_params route)) params) route]))
      by (by do 2 step);
    rewrite decide_True by done; do 3 step;
    rewrite (arr_copy_allRoutes h routes Hall); unfold arr_set, ret;
    rewrite decide_True by (by eapply lookup_lt_Some);
    rewrite length_app, <- app_assoc; cbn [length app];
    by replace (length h + 1) with (S (length h)) by lia.
Qed.

(** Lines 189-192 and 203-210: the embedded action, answered by the
    router of the tab. *)
Lemma navigate_action i inner n tabId r new h' :
  a_type a = NAVIGATE → a_action a = Some inner →
  findTab (order env) (a_routeName a) 0 = Some (n, tabId) →
  tabId ≠ EmptyString → routerOfTab env (Some tabId) = Some r →
  Router.getStateForAction r inner (arr_get routes (Some n)) h = Ok (Some new) h' →
  Some new ≠ arr_get routes (Some n) → h' !! st = Some o → n < length routes →
  navigate env a st i h
  = Ok (Return (Some (length h')))
      (h' ++ [set_index (Some n) (set_routes (<[n := ERef new]> routes) o)]).
Proof.
  destruct Hstate as (Hst & Hidx & Hroutes & Hlt & Hall).
  unfold navigate. intros Ht Ha Hf Hne Hr Hrun Hnew Hst' Hn. rewrite Hf.
  destruct (findTab_Some _ _ _ _ _ Hf) as (Hname & _ & _).
  rewrite decide_True by done. cbn [truthy].
  rewrite bool_decide_eq_true_2 by done. step. rewrite Ha, Hname.
  apply routerOfTab_Some in Hr. rewrite Hr.
  rewrite (bind_Ok _ _ _ _ _ Hrun). rewrite decide_True by done. do 3 step.
  rewrite (arr_copy_allRoutes h routes Hall). unfold arr_set.
  by rewrite decide_True by done.
Qed.

End Branches.

(** X5: when the nested router of the active tab answers an action with a
    state other than the one it was given, the reducer returns a new state
    that has this answer in the slot of the active tab and is the input
    state otherwise, index included: the active tab comes before a change
    of tab, whatever the type of the action (one new object; [h'] is the
    store the nested router leaves, in which the state is as it was). *)
Theorem X5_active_tab_answers_first env a st h o idx routes r new h' :
  stateAt h st o idx routes →
  ¬ (a_type a = INIT ∧ is_Some (a_params a)) →
  ¬ (a_type a = PASS ∧ is_Some (a_action a)) →
  routerOfTab env (order env !! idx) = Some r →
  Router.getStateForAction r (default a (a_action a)) (arr_get routes (Some idx)) h
  = Ok (Some new) h' →
  Some new ≠ arr_get routes (Some idx) → h' !! st = Some o →
  getStateForAction env a (Some st) h
  = Ok (Some (length h')) (h' ++ [set_routes (<[idx := ERef new]> routes) o]).
Proof.
  intros Hstate Hinit Hpass Hr Hrun Hnew Hst'.
  rewrite getStateForAction_present by done. unfold reduce.
  destruct Hstate as (Hst & Hidx & Hroutes & Hlt & Hall).
  erewrite orFinally_Return; [done|].
  erewrite andThen_Next by (by eapply passAction_skip).
  by eapply activeTab_handles.
Qed.

(** The Settings navigator, active, switches to its Inbox tab on a
    Navigate that names a tab of both navigators. *)
Lemma X5_witness :
  getStateForAction appEnv (NavigationActions.navigate "Inbox") (Some 10) appStore
  = Ok (Some 12)
      (appStore ++ [stateObj (Some "Settings") 1 [1; 2]; stateObj None 1 [0; 11; 8]]).
Proof.
  eapply (X5_active_tab_answers_first appEnv (NavigationActions.navigate "Inbox")
            10 appStore (stateObj None 1 [0; 4; 8]) 1 [ERef 0; ERef 4; ERef 8]
            _ 11 (appStore ++ [stateObj (Some "Settings") 1 [1; 2]])).
  - repeat split; cbn; lia.
  - intros [? _]; discriminate.
  - intros [? _]; discriminate.
  - reflexivity.
  - reflexivity.
  - discriminate.
  - reflexivity.
Defined.

(** X6: a Navigate action without an embedded action that names another
    tab than the active one, and carries no params or names a tab that owns
    a router, returns a copy of the state with the index of the named tab
    and the same array of routes, once the active tab has declined it.
    This holds for a tab named by the empty string as well. *)
Theorem X6_navigate_switches_tab env a st h o idx routes n tabId :
  stateAt h st o idx routes →
  a_type a = NAVIGATE → a_action a = None →
  a_params a = None ∨ is_Some (routerOfTab env (a_routeName a)) →
  findTab (order env) (a_routeName a) 0 = Some (n, tabId) → n ≠ idx →
  activeDeclines env a h idx routes →
  getStateForAction env a (Some st) h
  = Ok (Some (length h)) (h ++ [set_index (Some n) o]).
Proof.
  intros Hstate Ht Ha Hp Hf Hne Hactive.
  rewrite getStateForAction_present by (intros [? _]; congruence).
  erewrite reduce_declined by (done || intros [? _]; congruence).
  rewrite bool_decide_eq_false_2 by congruence. cbn [andb].
  destruct Hstate as (Hst & Hidx & Hroutes & Hlt & Hall).
  erewrite orFinally_Return; [done|].
  erewrite andThen_Next by (by eapply navigate_noChild). cbn beta iota.
  erewrite andThen_Next by (apply setParams_other; congruence).
  by eapply indexChange_moved.
Qed.

Lemma X6_witness :
  getStateForAction flatEnv (NavigationActions.navigate "Profile") (Some 2) flatStore
  = Ok (Some 3) (flatStore ++ [stateObj None 1 [0; 1]]).
Proof.
  eapply (X6_navigate_switches_tab flatEnv (NavigationActions.navigate "Profile")
            2 flatStore (stateObj None 0 [0; 1]) 0 [ERef 0; ERef 1] 1 "Profile").
  - repeat split; cbn; lia.
  - reflexivity.
  - reflexivity.
  - by left.
  - reflexivity.
  - lia.
  - split; [by eexists|]. intros r Hr. discriminate Hr.
Defined.

(** X7: a Navigate action with params and without an embedded action that
    names a tab without a nested router, by a name other than the empty
    string, returns a new state whose index is the position of the tab and
    which has, in the slot of the tab, a new route with the params of the
    old one overridden by those of the action.  This holds for the active
    tab as well: the result is never null. *)
Theorem X7_navigate_with_params env a st h o idx routes n tabId params l route :
  stateAt h st o idx routes →
  a_type a = NAVIGATE → a_action a = None → a_params a = Some params →
  findTab (order env) (a_routeName a) 0 = Some (n, tabId) →
  tabId ≠ EmptyString → routerOfTab env (Some tabId) = None →
  routes !! n = Some (ERef l) → h !! l = Some route →
  activeDeclines env a h idx routes →
  getStateForAction env a (Some st) h
  = Ok (Some (S (length h)))
      (h ++ [set_params (spread (orEmpty (o_params route)) params) route;
             set_index (Some n) (set_routes (<[n := ERef (length h)]> routes) o)]).
Proof.
  intros Hstate Ht Ha Hp Hf Hne Hr Hn Hl Hactive.
  rewrite getStateForAction_present by (intros [? _]; congruence).
  erewrite reduce_declined by (done || intros [? _]; congruence).
  rewrite bool_decide_eq_false_2 by congruence. cbn [andb].
  erewrite orFinally_Return; [done|].
  erewrite andThen_Return; [done|].
  by eapply navigate_params.
Qed.

(** Params for the active tab of the two tabs without nested routers. *)
Lemma X7_witness :
  getStateForAction flatEnv
    (mkAction NAVIGATE (Some "Home") None (Some {["a" := PNum 1]}) None)
    (Some 2) flatStore
  = Ok (Some 4)
      (flatStore ++ [set_params {["a" := PNum 1]} (routeObj "Home");
                     stateObj None 0 [3; 1]]).
Proof.
  rewrite (X7_navigate_with_params flatEnv
             (mkAction NAVIGATE (Some "Home") None (Some {["a" := PNum 1]}) None)
             2 flatStore (stateObj None 0 [0; 1]) 0 [ERef 0; ERef 1] 0 "Home"
             {["a" := PNum 1]} 0 (routeObj "Home")).
  - reflexivity.
  - repeat split; cbn; lia.
  - reflexivity.
  - reflexivity.
  - reflexivity.
  - reflexivity.
  - discriminate.
  - reflexivity.
  - reflexivity.
  - reflexivity.
  - split; [by eexists|]. intros r Hr. discriminate Hr.
Defined.

(** X8: a Navigate action that embeds an action, for a tab that owns a
    router and is named by another name than the empty string: once the
    active tab has declined the embedded action, the router of the named
    tab is given it, and when it answers with a state other than the one of
    the tab, the reducer returns a new state with the index of the tab and
    this answer in its slot. *)
Theorem X8_navigate_with_embedded_action
    env a inner st h o idx routes n tabId r new h' :
  stateAt h st o idx routes →
  a_type a = NAVIGATE → a_action a = Some inner →
  findTab (order env) (a_routeName a) 0 = Some (n, tabId) →
  tabId ≠ EmptyString → routerOfTab env (Some tabId) = Some r →
  activeDeclines env a h idx routes →
  Router.getStateForAction r inner (arr_get routes (Some n)) h = Ok (Some new) h' →
  Some new ≠ arr_get routes (Some n) → h' !! st = Some o → n < length routes →
  getStateForAction env a (Some st) h
  = Ok (Some (length h'))
      (h' ++ [set_index (Some n) (set_routes (<[n := ERef new]> routes) o)]).
Proof.
  intros Hstate Ht Ha Hf Hne Hr Hactive Hrun Hnew Hst' Hn.
  rewrite getStateForAction_present by (intros [? _]; congruence).
  erewrite reduce_declined by (done || intros [? _]; congruence).
  rewrite bool_decide_eq_false_2 by congruence. cbn [andb].
  erewrite orFinally_Return; [done|].
  erewrite andThen_Return; [done|].
  by eapply navigate_action.
Qed.

(** Main is active; a Navigate to Settings embeds a Navigate to Inbox. *)
Lemma X8_witness :
  getStateForAction appEnv
    (mkAction NAVIGATE (Some "Settings") None None
       (Some (NavigationActions.navigate "Inbox")))
    (Some 9) appStore
  = Ok (Some 12)
      (appStore ++ [stateObj (Some "Settings") 1 [1; 2]; stateObj None 1 [0; 11; 8]]).
Proof.
  erewrite (X8_navigate_with_embedded_action appEnv
              (mkAction NAVIGATE (Some "Settings") None None
                 (Some (NavigationActions.navigate "Inbox")))
              (NavigationActions.navigate "Inbox") 9 appStore
              (stateObj None 0 [0; 4; 8]) 0 [ERef 0; ERef 4; ERef 8] 1 "Settings"
              _ 11 (appStore ++ [stateObj (Some "Settings") 1 [1; 2]])).
  - reflexivity.
  - repeat split; cbn; lia.
  - reflexivity.
  - reflexivity.
  - reflexivity.
  - discriminate.
  - reflexivity.
  - split; [by eexists|]. intros r Hr. discriminate Hr.
  - reflexivity.
  - discriminate.
  - reflexivity.
  - cbn; lia.
Defined.

(** *** The Pass action *)

Lemma position_first p h routes n l i :
  allRoutes h routes = true → firstSlot p h routes n l →
  StateUtils.position p routes i h = Ok (i + Z.of_nat n)%Z h.
Proof.
  revert n i. induction routes as [|e routes IH]; intros n i.
  - by intros _ [? _].
  - intros [(l0 & o0 & -> & Ho0) Hall]%allRoutes_cons (Hn & (route & Hl & Hp) & Hfirst).
    cbn [StateUtils.position]. step. destruct n as [|n].
    + cbn in Hn. simplify_eq. rewrite Hp. unfold ret. do 2 f_equal. lia.
    + rewrite (Hfirst 0 l0 o0) by (done || lia).
      rewrite (IH n (i + 1)%Z); [f_equal; lia|done|].
      split; [done|]. split; [by eexists|].
      intros j l' route' Hj. apply (Hfirst (S j)). lia.
Qed.

Lemma firstSlot_ext p q h routes n l :
  (∀ route, p route = q route) → firstSlot p h routes n l → firstSlot q h routes n l.
Proof.
  intros Hpq (Hn & (route & Hl & Hp) & Hfirst). split; [done|]. split.
  - exists route. by rewrite <- Hpq.
  - intros i l' route' Hi Hl' Hr. rewrite <- Hpq. by eapply Hfirst.
Qed.

Section Pass.
Context (env : Env) (a : Action) (st : loc) (h : Store) (o : JsObj)
  (idx : nat) (routes : list elem).
Hypothesis Hstate : stateAt h st o idx routes.

(** Lines 119-121. *)
Lemma childIndex_Ok n l :
  firstSlot (addressed a) h routes n l →
  (if truthy (a_key a) then StateUtils.indexOf st (a_key a)
   else StateUtils.indexOfByName st (a_routeName a)) h = Ok (Z.of_nat n) h.
Proof.
  destruct Hstate as (Hst & Hidx & Hroutes & Hlt & Hall).
  intros Hfirst. unfold addressed in Hfirst.
  destruct (truthy (a_key a));
    unfold StateUtils.indexOf, StateUtils.indexOfByName;
    fold (routesOf st); step;
    by rewrite (position_first _ h routes n l 0 Hall Hfirst).
Qed.

Lemma passAction_handled inner r n l new h' :
  a_type a = PASS → a_action a = Some inner →
  routerOfTab env (a_routeName a) = Some r →
  firstSlot (addressed a) h routes n l →
  Router.getStateForAction r inner (Some l) h = Ok (Some new) h' →
  h' !! st = Some o →
  passAction env a st h
  = Ok (Return (Some (S (length h'))))
      (h' ++ [set_routes (<[n := ERef new]> routes) o;
              set_routes (<[n := ERef new]> routes) o]).
Proof.
  destruct Hstate as (Hst & Hidx & Hroutes & Hlt & Hall).
  intros Ht Ha Hr Hfirst Hrun Hst'. unfold passAction. rewrite Ha.
  rewrite decide_True by done. apply routerOfTab_Some in Hr. rewrite Hr.
  rewrite (bind_Ok _ _ _ _ _ (childIndex_Ok n l Hfirst)).
  rewrite decide_True by lia. step. rewrite Nat2Z.id.
  destruct Hfirst as (Hn & _).
  rewrite (proj2 (arr_get_Some routes n l) Hn).
  rewrite (bind_Ok _ _ _ _ _ Hrun).
  set (state' := set_routes (<[n := ERef new]> routes) o).
  assert (StateUtils.replaceAtIndex st n new h' = Ok (length h') (h' ++ [state'])) as Hrep.
  { unfold StateUtils.replaceAtIndex. step. fold (routesOf st). step. rewrite alloc_Ok.
    rewrite (arr_copy_allRoutes h routes Hall). unfold arr_set.
    by rewrite decide_True by (by eapply lookup_lt_Some). }
  rewrite (bind_Ok _ _ _ _ _ Hrep).
  rewrite (bind_Ok (readObj (length h')) _ (h' ++ [state']) state' (h' ++ [state']))
    by (apply readObj_Ok, lookup_alloc).
  rewrite (bind_Ok (stateIndex st) _ (h' ++ [state']) (Some idx) (h' ++ [state'])); last first.
  { rewrite <- Hidx. apply stateIndex_Ok. rewrite lookup_app_l by (by eapply lookup_lt_Some).
    done. }
  step. unfold ret. rewrite length_app, <- app_assoc. cbn [length app].
  replace (length h' + 1) with (S (length h')) by lia.
  do 3 f_equal. unfold state', set_index, set_routes. cbn. by rewrite Hidx.
Qed.

End Pass.

(** *** Null from the active tab *)

(** The Pass branch when the router of the named route answers with a
    state, whatever [StateUtils] does. *)
Lemma passAction_answered env a st h o routes inner r i l new h' replaced h'' o' o'' :
  a_type a = PASS → a_action a = Some inner →
  routerOfTab env (a_routeName a) = Some r →
  h !! st = Some o → o_routes o = Some routes →
  (if truthy (a_key a) then StateUtils.indexOf st (a_key a)
   else StateUtils.indexOfByName st (a_routeName a)) h = Ok i h →
  (0 ≤ i)%Z → arr_get routes (Some (Z.to_nat i)) = Some l →
  Router.getStateForAction r inner (Some l) h = Ok (Some new) h' →
  StateUtils.replaceAtIndex st (Z.to_nat i) new h' = Ok replaced h'' →
  h'' !! replaced = Some o'' → h'' !! st = Some o' →
  passAction env a st h
  = Ok (Return (Some (length h''))) (h'' ++ [set_index (o_index o') o'']).
Proof.
  intros Ht Ha Hr%routerOfTab_Some Hst Hroutes Hi Hpos Hl Hrun Hrep Hreplaced Hst'.
  unfold passAction. rewrite Ha, Hr. rewrite decide_True by done.
  rewrite (bind_Ok _ _ _ _ _ Hi). rewrite decide_True by done. step. rewrite Hl.
  rewrite (bind_Ok _ _ _ _ _ Hrun). rewrite (bind_Ok _ _ _ _ _ Hrep).
  rewrite (bind_Ok _ _ _ _ _ (readObj_Ok _ _ _ Hreplaced)).
  rewrite (bind_Ok _ _ _ _ _ (stateIndex_Ok _ _ _ Hst')).
  by rewrite (bind_Ok _ _ _ _ _ (alloc_Ok _ _)).
Qed.

(** C4, amended.  (1) When the Pass branch falls through (the action is not
    a Pass carrying an action that the router of the named route answers
    with a state, and the branch does not throw), the active route owns a
    nested router, and that router answers null to the action (or to its
    embedded [action.action]) on the active route, then
    [getStateForAction] returns null on a supplied input state.  The store
    [h0] is the one the Init branch leaves, [h1] the one the Pass branch
    leaves.  (2) A Pass action carrying an action that the router
    [action.routeName] names answers with a state, on the route at the
    index [i] that [StateUtils] finds for the action, returns before the
    active tab is asked, whatever the router of the active route would
    answer: the result is a new state, the one [StateUtils.replaceAtIndex]
    makes with the answer at [i], with the index of the input state. *)
Theorem C4_null_from_active_tab_is_propagated env a st h :
  (∀ h0 h1 h2 o idx routes r,
     initParams a st h = Ok tt h0 →
     passAction env a st h0 = Ok (Next tt) h1 →
     h1 !! st = Some o → o_index o = Some idx → o_routes o = Some routes →
     routerOfTab env (order env !! idx) = Some r →
     Router.getStateForAction r (default a (a_action a)) (arr_get routes (Some idx)) h1
     = Ok None h2 →
     getStateForAction env a (Some st) h = Ok None h2)
  ∧ (∀ o routes inner r i l new h' replaced h'' o' o'',
       a_type a = PASS → a_action a = Some inner →
       routerOfTab env (a_routeName a) = Some r →
       h !! st = Some o → o_routes o = Some routes →
       (if truthy (a_key a) then StateUtils.indexOf st (a_key a)
        else StateUtils.indexOfByName st (a_routeName a)) h = Ok i h →
       (0 ≤ i)%Z → arr_get routes (Some (Z.to_nat i)) = Some l →
       Router.getStateForAction r inner (Some l) h = Ok (Some new) h' →
       StateUtils.replaceAtIndex st (Z.to_nat i) new h' = Ok replaced h'' →
       h'' !! replaced = Some o'' → h'' !! st = Some o' →
       getStateForAction env a (Some st) h
       = Ok (Some (length h'')) (h'' ++ [set_index (o_index o') o''])).
Proof.
  split.
  - intros h0 h1 h2 o idx routes r Hinit Hpass Hst Hidx Hroutes Hr%routerOfTab_Some Hnull.
    unfold getStateForAction, NavigationActions.mapDeprecatedActionAndWarn.
    cbn [establishState]. rewrite bind_ret. rewrite (bind_Ok _ _ _ _ _ Hinit).
    unfold reduce. erewrite orFinally_Return; [done|].
    erewrite andThen_Next by exact Hpass.
    unfold activeTab. do 2 step. rewrite Hidx. cbn [mbind option_bind].
    rewrite Hr. by rewrite (bind_Ok _ _ _ _ _ Hnull).
  - intros o routes inner r i l new h' replaced h'' o' o'' Ht Ha Hr Hst Hroutes Hi Hpos
      Hl Hrun Hrep Hreplaced Hst'.
    rewrite getStateForAction_present by (intros [? _]; congruence).
    unfold reduce. erewrite orFinally_Return; [done|].
    erewrite andThen_Return; [done|]. by eapply passAction_answered.
Qed.

(** The navigator of Settings, the active tab, answers null to a Navigate
    to General, its own active tab, and the reducer returns null; the same
    action embedded in a Pass to Inbox is answered by the navigator of
    Inbox. *)
Lemma C4_witness :
  getStateForAction appEnv (NavigationActions.navigate "General") (Some 10) appStore
  = Ok None appStore
  ∧ getStateForAction appEnv passToInbox (Some 10) appStore
    = Ok (Some 13)
        (appStore ++ [stateObj (Some "Inbox") 1 [5; 6];
                      stateObj None 1 [0; 4; 11]; stateObj None 1 [0; 4; 11]]).
Proof.
  split.
  - refine (proj1 (C4_null_from_active_tab_is_propagated appEnv
                     (NavigationActions.navigate "General") 10 appStore)
              appStore appStore appStore
              (stateObj None 1 [0; 4; 8]) 1 [ERef 0; ERef 4; ERef 8]
              (default (Router.mk (fun _ _ => ret None) (fun _ => throw TypeError) None)
                 (routerOfTab appEnv (Some "Settings")))
              _ _ _ _ _ _ _);
      reflexivity.
  - refine (proj2 (C4_null_from_active_tab_is_propagated appEnv passToInbox
                     10 appStore)
              (stateObj None 1 [0; 4; 8]) [ERef 0; ERef 4; ERef 8]
              (NavigationActions.navigate "General")
              (default (Router.mk (fun _ _ => ret None) (fun _ => throw TypeError) None)
                 (routerOfTab appEnv (Some "Inbox")))
              2%Z 8 11 (appStore ++ [stateObj (Some "Inbox") 1 [5; 6]])
              12 (appStore ++ [stateObj (Some "Inbox") 1 [5; 6];
                               stateObj None 1 [0; 4; 11]])
              (stateObj None 1 [0; 4; 8]) (stateObj None 1 [0; 4; 11])
              _ _ _ _ _ _ _ _ _ _ _ _);
      try reflexivity. lia.
Defined.

(** X9: a Pass action that carries an action is handled by the router of
    the tab [action.routeName] names, on the first route that has the key
    of the action or, when the action has no key, its route name.  Whenever
    that router returns a state, be it the one it was given, the reducer
    returns a new state with this answer in the slot of the route; the
    index stays, and the active tab is not consulted.  Two objects are
    created, the second of which is returned. *)
Theorem X9_pass_is_handled_by_addressed_route
    env a inner st h o idx routes r n l new h' :
  stateAt h st o idx routes →
  a_type a = PASS → a_action a = Some inner →
  routerOfTab env (a_routeName a) = Some r →
  firstSlot (addressed a) h routes n l →
  Router.getStateForAction r inner (Some l) h = Ok (Some new) h' →
  h' !! st = Some o →
  getStateForAction env a (Some st) h
  = Ok (Some (S (length h')))
      (h' ++ [set_routes (<[n := ERef new]> routes) o;
              set_routes (<[n := ERef new]> routes) o]).
Proof.
  intros Hstate Ht Ha Hr Hfirst Hrun Hst'.
  rewrite getStateForAction_present by (intros [? _]; congruence).
  unfold reduce. erewrite orFinally_Return; [done|].
  erewrite andThen_Return; [done|]. by eapply passAction_handled.
Qed.

(** A Pass to the Inbox navigator while Settings is the active tab. *)
Lemma X9_witness :
  getStateForAction appEnv passToInbox (Some 10) appStore
  = Ok (Some 13)
      (appStore ++ [stateObj (Some "Inbox") 1 [5; 6];
                    stateObj None 1 [0; 4; 11]; stateObj None 1 [0; 4; 11]]).
Proof.
  erewrite (X9_pass_is_handled_by_addressed_route appEnv passToInbox
              (NavigationActions.navigate "General")
              10 appStore (stateObj None 1 [0; 4; 8]) 1 [ERef 0; ERef 4; ERef 8]
              _ 2 8 11 (appStore ++ [stateObj (Some "Inbox") 1 [5; 6]])).
  - reflexivity.
  - repeat split; cbn; lia.
  - reflexivity.
  - reflexivity.
  - reflexivity.
  - split; [reflexivity|]. split; [by eexists|].
    intros [|[|i]] l' route' Hi Hl Hr; cbn in Hl; simplify_eq; try lia;
      cbn in Hr; by simplify_eq.
  - reflexivity.
  - reflexivity.
Defined.

(** *** The broadcast to the other tabs *)

Lemma otherTabs_skip env a h idx routes names i j :
  (∀ k t, k < j → names !! k = Some t → i + k ≠ idx →
          declines env a h (Some t) (arr_get routes (Some (i + k)))) →
  otherTabs env a (Some idx) routes names i h
  = otherTabs env a (Some idx) routes (drop j names) (i + j) h.
Proof.
  revert i j. induction names as [|tabId names IH]; intros i j Hd.
  - by rewrite drop_nil.
  - destruct j as [|j].
    { rewrite drop_0. by replace (i + 0) with i by lia. }
    cbn [otherTabs drop].
    assert (otherTabs env a (Some idx) routes names (S i) h
            = otherTabs env a (Some idx) routes (drop j names) (i + S j) h) as Hrest.
    { replace (i + S j) with (S i + j) by lia. apply IH.
      intros k t Hk Ht Hne. replace (S i + k) with (i + S k) in * by lia.
      apply Hd; [lia|done|done]. }
    destruct (decide (Some i = Some idx)) as [|Hne]; [done|].
    destruct (Hd 0 tabId) as [[l Hl] Hr];
      [lia|done|intros ?; apply Hne; f_equal; lia|].
    replace (i + 0) with i in * by lia. rewrite Hl in *.
    destruct (tabRouterOf env tabId) as [[r|]|] eqn:Ht.
    + rewrite (bind_Ok _ _ _ _ _ (Hr r (proj2 (routerOfTab_Some env (Some tabId) r) Ht))).
      by rewrite decide_False by naive_solver.
    + rewrite bind_ret. by rewrite decide_False by naive_solver.
    + rewrite bind_ret. by rewrite decide_False by naive_solver.
Qed.

(** The [order.find] of lines 250-271 stops at the first tab that answers. *)
Lemma otherTabs_answer env a h idx routes j tabId res h' :
  order env !! j = Some tabId → j ≠ idx →
  earlierDecline env a h idx routes j →
  tabResponse env a tabId (arr_get routes (Some j)) h = Ok res h' →
  res = None ∨ res ≠ arr_get routes (Some j) →
  otherTabs env a (Some idx) routes (order env) 0 h
  = Ok (Some (j, (λ new, arr_set (arr_copy routes) (Some j) (ERef new)) <$> res)) h'.
Proof.
  intros Hj Hne Hearlier Hrun Hres.
  rewrite (otherTabs_skip env a h idx routes (order env) 0 j) by (intros k t; apply Hearlier).
  rewrite (drop_S _ _ _ Hj). cbn [otherTabs plus].
  rewrite decide_False by naive_solver.
  assert (match tabRouterOf env tabId with
          | Some (Some tabRouter) =>
              Router.getStateForAction tabRouter a (arr_get routes (Some j))
          | _ => ret (arr_get routes (Some j))
          end = tabResponse env a tabId (arr_get routes (Some j))) as ->.
  { unfold tabResponse, routerOfTab. change (js_key (Some tabId)) with tabId.
    by destruct (tabRouterOf env tabId) as [[r|]|]. }
  rewrite (bind_Ok _ _ _ _ _ Hrun). destruct res as [new|]; [|done].
  destruct Hres as [|Hres]; [done|]. by rewrite decide_True by done.
Qed.

Section Broadcast.
Context (env : Env) (a : Action) (st : loc) (h : Store) (o : JsObj)
  (idx : nat) (routes : list elem).
Hypothesis Hstate : stateAt h st o idx routes.

Lemma getStateForAction_broadcast :
  reachesBroadcast env a h idx routes →
  getStateForAction env a (Some st) h = broadcast env a st h.
Proof.
  intros (Hinit & Hpass & Hactive & Hback & Hnav & Hset).
  rewrite getStateForAction_present by done.
  erewrite reduce_declined by done.
  destruct Hstate as (Hst & Hidx & Hroutes & Hlt & Hall).
  assert ((if bool_decide (a_type a = BACK)
              && bool_decide (backEligible a h idx routes)
              && shouldBackNavigateToInitialRoute env
           then Some (initialRouteIndex env) else Some idx) = Some idx) as ->.
  { destruct (bool_decide (a_type a = BACK)) eqn:Ht; [|done].
    destruct (bool_decide (backEligible a h idx routes)) eqn:He; [|done].
    destruct (shouldBackNavigateToInitialRoute env) eqn:Hs; [|done].
    apply bool_decide_eq_true in Ht, He. cbn. f_equal. by apply Hback. }
  erewrite orFinally_Next; [done|].
  erewrite andThen_Next; last first.
  { destruct (decide (a_type a = NAVIGATE)) as [Ht|Ht].
    - apply navigate_unknown, findTab_None. by apply Hnav.
    - by apply navigate_other. }
  cbn beta iota. erewrite andThen_Next; last first.
  { destruct (decide (a_type a = SET_PARAMS)) as [Ht|Ht].
    - eapply setParams_unmatched; eauto.
    - by apply setParams_other. }
  by rewrite (indexChange_same st h o idx Hst Hidx).
Qed.

Lemma broadcast_answer j tabId res h' :
  order env !! j = Some tabId → j ≠ idx →
  earlierDecline env a h idx routes j →
  tabResponse env a tabId (arr_get routes (Some j)) h = Ok res h' →
  res = None ∨ res ≠ arr_get routes (Some j) →
  h' !! st = Some o →
  broadcast env a st h
  = Ok (Some (length h'))
      (h' ++ [set_routes
                (default routes ((λ new, arr_set (arr_copy routes) (Some j) (ERef new)) <$> res))
                (set_index (Some j) o)]).
Proof.
  destruct Hstate as (Hst & Hidx & Hroutes & Hlt & Hall).
  intros Hj Hne Hearlier Hrun Hres Hst'. unfold broadcast. do 2 step. rewrite Hidx.
  rewrite (bind_Ok _ _ _ _ _
             (otherTabs_answer env a h idx routes j tabId res h' Hj Hne Hearlier Hrun Hres)).
  step. rewrite Hidx.
  rewrite bool_decide_eq_true_2 by (intros [= ?]; done). cbn [orb]. do 2 step.
  unfold ret. by destruct res.
Qed.

End Broadcast.

(** X10: an action that no earlier branch returns on goes to the other tabs
    in the order of [order]; the first whose router answers with a state
    other than its own becomes the active tab, with the answer in its slot,
    when the tabs before it have declined.  The action is the outer action,
    not [action.action]. *)
Theorem X10_first_answering_tab_becomes_active
    env a st h o idx routes j tabId new h' :
  stateAt h st o idx routes → length routes = length (order env) →
  reachesBroadcast env a h idx routes →
  order env !! j = Some tabId → j ≠ idx →
  earlierDecline env a h idx routes j →
  tabResponse env a tabId (arr_get routes (Some j)) h = Ok (Some new) h' →
  Some new ≠ arr_get routes (Some j) → h' !! st = Some o →
  getStateForAction env a (Some st) h
  = Ok (Some (length h'))
      (h' ++ [set_routes (<[j := ERef new]> routes) (set_index (Some j) o)]).
Proof.
  intros Hstate Hlen Hreach Hj Hne Hearlier Hrun Hnew Hst'.
  erewrite getStateForAction_broadcast by done.
  erewrite broadcast_answer; eauto.
  destruct Hstate as (Hst & Hidx & Hroutes & Hlt & Hall).
  cbn [fmap option_fmap option_map default].
  rewrite (arr_copy_allRoutes h routes Hall). unfold arr_set.
  rewrite decide_True; [done|]. rewrite Hlen. by eapply lookup_lt_Some.
Qed.

(** Main is active; the Settings navigator answers a Navigate to its Inbox
    tab, which the outer navigator does not know. *)
Lemma X10_witness :
  getStateForAction pathEnv (NavigationActions.navigate "Inbox") (Some 6)
    (pathStore ++ [stateObj None 1 [3; 4]])
  = Ok (Some 8)
      (pathStore ++ [stateObj None 1 [3; 4]; stateObj (Some "Settings") 1 [0; 1];
                     stateObj None 0 [7; 4]]).
Proof.
  rewrite (X10_first_answering_tab_becomes_active pathEnv
             (NavigationActions.navigate "Inbox") 6
             (pathStore ++ [stateObj None 1 [3; 4]])
             (stateObj None 1 [3; 4]) 1 [ERef 3; ERef 4] 0 "Settings" 7
             (pathStore ++ [stateObj None 1 [3; 4]; stateObj (Some "Settings") 1 [0; 1]])).
  - reflexivity.
  - repeat split; cbn; lia.
  - reflexivity.
  - split; [intros [? _]; discriminate|]. split; [intros [? _]; discriminate|].
    split; [split; [by eexists|intros r Hr; discriminate Hr]|].
    split; [discriminate|]. split; [|discriminate].
    intros _ n [= <-] Hin. vm_compute in Hin.
    repeat (apply elem_of_cons in Hin as [Hin|Hin]; [discriminate Hin|]).
    by apply elem_of_nil in Hin.
  - reflexivity.
  - lia.
  - intros i t Hi. lia.
  - reflexivity.
  - discriminate.
  - reflexivity.
Defined.

(** X11: an action that no earlier branch returns on, again: a tab other
    than the active one whose router answers with null becomes the active
    tab, when the tabs before it have declined.  The reducer returns a copy
    of the state with the index of that tab and the same array of routes. *)
Theorem X11_tab_answering_null_becomes_active
    env a st h o idx routes j tabId h' :
  stateAt h st o idx routes →
  reachesBroadcast env a h idx routes →
  order env !! j = Some tabId → j ≠ idx →
  earlierDecline env a h idx routes j →
  tabResponse env a tabId (arr_get routes (Some j)) h = Ok None h' →
  h' !! st = Some o →
  getStateForAction env a (Some st) h
  = Ok (Some (length h')) (h' ++ [set_index (Some j) o]).
Proof.
  intros Hstate Hreach Hj Hne Hearlier Hrun Hst'.
  erewrite getStateForAction_broadcast by done.
  erewrite broadcast_answer; eauto.
  destruct Hstate as (Hst & Hidx & Hroutes & Hlt & Hall).
  cbn [fmap option_fmap option_map default].
  do 3 f_equal. unfold set_routes, set_index. cbn. by rewrite Hroutes.
Qed.

(** Main is active; the Settings navigator returns null on a Navigate to
    General, the tab it is on, and becomes the active tab. *)
Lemma X11_witness :
  getStateForAction appEnv (NavigationActions.navigate "General") (Some 9) appStore
  = Ok (Some 11) (appStore ++ [stateObj None 1 [0; 4; 8]]).
Proof.
  rewrite (X11_tab_answering_null_becomes_active appEnv
             (NavigationActions.navigate "General") 9 appStore
             (stateObj None 0 [0; 4; 8]) 0 [ERef 0; ERef 4; ERef 8] 1 "Settings"
             appStore).
  - reflexivity.
  - repeat split; cbn; lia.
  - split; [intros [? _]; discriminate|]. split; [intros [? _]; discriminate|].
    split; [split; [by eexists|intros r Hr; discriminate Hr]|].
    split; [discriminate|]. split; [|discriminate].
    intros _ n [= <-] Hin. vm_compute in Hin.
    repeat (apply elem_of_cons in Hin as [Hin|Hin]; [discriminate Hin|]).
    by apply elem_of_nil in Hin.
  - reflexivity.
  - lia.
  - intros i t Hi Ht Hne. assert (i = 0) by lia. done.
  - reflexivity.
  - reflexivity.
Defined.

(** ** What the reducer keeps: the objects of the store, and the bounds of
    the state *)

Lemma keeps_refl X h : keeps X h h.
Proof. by split. Qed.

Lemma keeps_trans X h1 h2 h3 : keeps X h1 h2 → keeps X h2 h3 → keeps X h1 h3.
Proof. intros [? H12] [? H23]. split; [lia|]. intros l o Hl Ho. eauto. Qed.

Lemma keeps_mono (X Y : loc → Prop) h h' :
  (∀ l, X l → Y l) → keeps Y h h' → keeps X h h'.
Proof. intros HXY [? H]. split; [done|]. intros l o Hl. apply H. by apply HXY. Qed.

Lemma keeps_alloc X h h' o : keeps X h h' → keeps X h (h' ++ [o]).
Proof.
  intros [? H]. split; [rewrite length_app; lia|].
  intros l o' Hl Ho. apply lookup_app_l_Some. by apply H.
Qed.

Lemma keeps_app X (h news : Store) : keeps X h (h ++ news).
Proof.
  split; [rewrite length_app; lia|]. intros l o _ Ho. by apply lookup_app_l_Some.
Qed.

(** An assignment to an object outside [X]. *)
Lemma keeps_insert X h h' l o : keeps X h h' → ¬ X l → keeps X h (<[l := o]> h').
Proof.
  intros [? H] Hl. split; [by rewrite length_insert|].
  intros l' o' Hl' Ho'. rewrite list_lookup_insert_ne by (by intros ->). by apply H.
Qed.

Lemma inBounds_alloc env (h : Store) o idx routes :
  o_index o = Some idx → o_routes o = Some routes →
  idx < length routes → length routes = length (order env) →
  inBounds env (h ++ [o]) (length h).
Proof.
  intros. exists o, idx, routes. split; [|done].
  rewrite lookup_app_r by lia. by replace (length h - length h) with 0 by lia.
Qed.

Lemma length_arr_copy routes : length (arr_copy routes) = length routes.
Proof. apply length_map. Qed.

Lemma length_arr_set routes i x :
  (∀ j, i = Some j → j < length routes) →
  length (arr_set (arr_copy routes) i x) = length routes.
Proof.
  intros Hi. unfold arr_set. destruct i as [j|]; [|apply length_arr_copy].
  rewrite length_arr_copy, decide_True by (by apply Hi).
  by rewrite length_insert, length_arr_copy.
Qed.

Lemma arr_get_lt routes i l : arr_get routes (Some i) = Some l → i < length routes.
Proof.
  unfold arr_get. destruct (routes !! i) eqn:Hi; [|done]. intros _.
  by eapply lookup_lt_Some.
Qed.

Lemma arr_get_elem routes i l : arr_get routes i = Some l → ERef l ∈ routes.
Proof.
  unfold arr_get. destruct i as [i|]; [|done].
  destruct (routes !! i) as [[| |l']|] eqn:Hi; try done.
  intros [= ->]. by eapply list_elem_of_lookup_2.
Qed.

Lemma position_store p routes i h z h' :
  StateUtils.position p routes i h = Ok z h' → h' = h.
Proof.
  revert i. induction routes as [|e routes IH]; intros i; cbn [StateUtils.position].
  - by intros [= _ <-].
  - destruct e as [| |l]; [apply IH..|].
    unfold bind, readObj. destruct (h !! l) as [o|]; [|done].
    destruct (p o); [by intros [= _ <-]|apply IH].
Qed.

Lemma findRoute_store p routes h r h' :
  findRoute p routes h = Ok r h' → h' = h.
Proof.
  induction routes as [|e routes IH]; cbn [findRoute].
  - by intros [= _ <-].
  - destruct e as [| |l]; [done..|].
    unfold bind, readObj. destruct (h !! l) as [o|]; [|done].
    destruct (p o); [by intros [= _ <-]|apply IH].
Qed.

Lemma arr_indexOf_lt routes l i : arr_indexOf routes l = Some i → i < length routes.
Proof.
  revert i. induction routes as [|e routes IH]; intros i; cbn [arr_indexOf length]; [done|].
  case_decide; [intros [= <-]; lia|].
  destruct (arr_indexOf routes l) as [j|]; [|done]. intros [= <-].
  specialize (IH j eq_refl). lia.
Qed.

Lemma embedsInit_inner a inner :
  embedsInit a = false → a_action a = Some inner →
  assigns inner = false ∧ embedsInit inner = false.
Proof.
  destruct a as [t n k p act]. cbn. intros H ->. by apply orb_false_iff in H.
Qed.

Lemma bind_inv {A B} (m : M A) (k : A → M B) h b h' :
  bind m k h = Ok b h' → ∃ a h1, m h = Ok a h1 ∧ k a h1 = Ok b h'.
Proof. unfold bind. destruct (m h) as [a h1|]; [eauto|done]. Qed.

Section Frame.
Context (env : Env) (a : Action) (X : loc → Prop).
Hypothesis Hchildren : childrenKeep env.
Hypothesis Hquiet : embedsInit a = false.

(** A call of a nested router with the action or the action it embeds, on
    a state outside [X] when the action is an Init with params. *)
Lemma child_keeps name r a' s h res h' :
  tabRouterOf env name = Some (Some r) →
  a_action a = Some a' ∨ (a' = a ∧ (assigns a = true → ∀ l, s = Some l → ¬ X l)) →
  Router.getStateForAction r a' s h = Ok res h' → keeps X h h'.
Proof.
  intros [Hr| ->]%tabRouterOf_router Ha H; [|done]. eapply keeps_mono; [|eapply (Hchildren name r a' s); [done| |done]].
  - intros l Hl Hassigns ->. destruct Ha as [Ha|[-> Hs]].
    + destruct (embedsInit_inner a a' Hquiet Ha). congruence.
    + by eapply Hs.
  - destruct Ha as [Ha|[-> _]]; [|done]. by destruct (embedsInit_inner a a' Hquiet Ha).
Qed.

(** Lines 66-86. *)
Lemma initialRoute_keeps name h e h' :
  initialRoute env a name h = Ok e h' → keeps X h h'.
Proof.
  unfold initialRoute, spreadOf. intros H. run.
  all: try (apply keeps_app).
  all: match goal with
       | Ht : tabRouterOf env _ = Some (Some ?r),
         H : Router.getStateForAction ?r ?a' ?s ?h = Ok _ _ |- _ =>
           apply tabRouterOf_router in Ht as [Ht| ->];
           [apply (Hchildren _ r a' s h _ _ Ht eq_refl) in H|done]
       end.
  all: apply keeps_alloc; (eapply keeps_mono; [|done]); by intros l _ _.
Qed.

Lemma mapM_initialRoute_keeps names h rs h' :
  mapM (initialRoute env a) names h = Ok rs h' → keeps X h h'.
Proof.
  revert h rs. induction names as [|name names IH]; intros h rs; cbn [mapM].
  - intros [= _ <-]. apply keeps_refl.
  - intros (e & h1 & He & (rs' & h2 & Hrs & [= _ <-])%bind_inv)%bind_inv.
    eapply keeps_trans; [by eapply initialRoute_keeps|by eapply IH].
Qed.

Section State.
Context (st : loc) (o : JsObj) (idx : nat) (routes : list elem).
Hypothesis HXst : X st.
Hypothesis Hroutes : o_routes o = Some routes.
Hypothesis Hsafe : assigns a = true → ∀ l, ERef l ∈ routes → ¬ X l.

Ltac children :=
  repeat match goal with
  | H : decide _ = _ |- _ => clear H
  | H : context [length (arr_copy _)] |- _ => rewrite length_arr_copy in H
  | H : StateUtils.position _ _ _ _ = Ok _ _ |- _ => apply position_store in H as ->
  | H : findRoute _ _ _ = Ok _ _ |- _ => apply findRoute_store in H as ->
  | Ht : tabRouterOf env _ = Some (Some ?r),
    H : Router.getStateForAction ?r _ _ _ = Ok _ _ |- _ =>
      eapply (child_keeps _ _ _ _ _ _ _ Ht) in H;
      [|first [by left
              |right; split; [done|];
               let Ha := fresh in let l := fresh in let Hl := fresh in
               intros Ha l Hl; apply (Hsafe Ha);
               first [by eapply arr_get_elem
                     |injection Hl as <-; by eapply arr_get_elem]]]
  | Hk : keeps X ?h ?h1, H1 : ?h !! st = Some ?o1 |- _ =>
      lazymatch goal with
      | _ : h1 !! st = Some o1 |- _ => fail
      | _ => pose proof (proj2 Hk st _ HXst H1)
      end
  | H1 : ?h !! st = Some ?o1 |- _ =>
      lazymatch goal with
      | _ : (h ++ _) !! st = Some o1 |- _ => fail
      | H2 : (h ++ ?x) !! st = Some _ |- _ =>
          pose proof (lookup_app_l_Some h x st o1 H1)
      end
  | H1 : ?x !! ?l = Some ?o1, H2 : ?x !! ?l = Some ?o2 |- _ =>
      lazymatch o1 with
      | o2 => fail
      | _ => assert (o2 = o1) by congruence; clear H2; simplify_eq
      end
  | H : (?h ++ [_]) !! length ?h = Some _ |- _ =>
      rewrite lookup_alloc in H; simplify_eq
  end.

Ltac lengths :=
  repeat match goal with
  | H : arr_get _ (Some _) = Some _ |- _ => apply arr_get_lt in H
  | H : arr_indexOf _ _ = Some _ |- _ => apply arr_indexOf_lt in H
  | H : findTab _ _ 0 = Some _ |- _ => apply findTab_lt in H
  end.

Ltac bounds :=
  repeat match goal with
  | |- _ ∧ _ => split
  | |- True => done
  | |- boundsOf _ _ _ _ → _ => intros (? & ? & ?)
  | |- keeps _ ?h ?h => apply keeps_refl
  | |- keeps _ _ (_ ++ [_]) => apply keeps_alloc
  | |- keeps _ _ _ => eassumption
  | |- flowOut _ _ _ => cbn [flowOut stateOut]
  | |- stateOut _ _ _ => cbn [stateOut]
  | |- inBounds _ (?h ++ [_]) (length ?h) =>
      eapply inBounds_alloc; cbn [o_index o_routes set_index set_routes];
      [first [eassumption|reflexivity]|first [eassumption|reflexivity]|..];
      rewrite ?length_arr_set
        by (let Hj := fresh in
            intros ? Hj; try apply arr_indexOf_lt in Hj; simplify_eq; lia);
      rewrite ?length_insert, ?length_arr_copy; lia
  | |- inBounds _ _ st => eexists _, _, _; repeat split; eassumption
  end.

Ltac finish := children; lengths; try lia; bounds.

Lemma passAction_out h f h' :
  h !! st = Some o → passAction env a st h = Ok f h' →
  keeps X h h' ∧ (boundsOf env o idx routes → flowOut env h' f).
Proof.
  intros Hst H.
  unfold passAction, StateUtils.indexOf, StateUtils.indexOfByName in H. run.
  all: finish.
Qed.

Lemma activeTab_out input h f h' :
  h !! st = Some o → activeTab env a input st h = Ok f h' →
  keeps X h h' ∧ (boundsOf env o idx routes → flowOut env h' f).
Proof.
  intros Hst H. unfold activeTab in H.
  destruct (a_action a) as [inner|] eqn:Hinner; cbn [default from_option id] in H; run.
  all: finish.
Qed.

Lemma backIndex_out last h i h' :
  h !! st = Some o → backIndex env a last st h = Ok i h' →
  h' = h
  ∧ (boundsOf env o idx routes → initialRouteIndex env < length (order env) →
     ∃ j, i = Some j ∧ j < length (order env)).
Proof.
  intros Hst H. unfold backIndex, isBackEligible in H. run.
  all: split; [done|]; intros (? & ? & ?) ?; eexists; split; [done|lia].
Qed.

Lemma navigate_out i h f h' :
  h !! st = Some o → navigate env a st i h = Ok f h' →
  keeps X h h'
  ∧ (boundsOf env o idx routes → (∃ j, i = Some j ∧ j < length (order env)) →
     match f with
     | Return res => stateOut env h' res
     | Next (i', _) => ∃ j, i' = Some j ∧ j < length (order env)
     end).
Proof.
  intros Hst H. unfold navigate in H. run.
  all: children; lengths; (split; [bounds|]); intros (? & ? & ?) Hi; try done;
    try (eexists; split; [done|lia]); bounds.
Qed.

Lemma setParams_out h f h' :
  h !! st = Some o → setParams a st h = Ok f h' →
  keeps X h h' ∧ (boundsOf env o idx routes → flowOut env h' f).
Proof.
  intros Hst H. unfold setParams in H. run.
  all: finish.
Qed.

Lemma indexChange_out input i d h f h' :
  h !! st = Some o → indexChange input st i d h = Ok f h' →
  keeps X h h'
  ∧ (boundsOf env o idx routes → (∃ j, i = Some j ∧ j < length (order env)) → flowOut env h' f).
Proof.
  intros Hst H. unfold indexChange in H. run.
  all: (split; [bounds|]); intros (? & ? & ?) (j & ? & ?); simplify_eq; bounds.
Qed.

(** Lines 250-271. *)
Lemma otherTabs_out index names i h found h' :
  otherTabs env a index routes names i h = Ok found h' →
  keeps X h h'
  ∧ match found with
    | Some (j, copy) =>
        i ≤ j < i + length names
        ∧ ∀ rs, copy = Some rs → j < length routes → length rs = length routes
    | None => True
    end.
Proof.
  revert i h. induction names as [|tabId names IH]; intros i h; cbn [otherTabs].
  - intros [= <- <-]. split; [apply keeps_refl|done].
  - assert (∀ h1, otherTabs env a index routes names (S i) h1 = Ok found h' →
              keeps X h1 h'
              ∧ match found with
                | Some (j, copy) =>
                    i ≤ j < i + length (tabId :: names)
                    ∧ ∀ rs, copy = Some rs → j < length routes →
                            length rs = length routes
                | None => True
                end) as Hrest.
    { intros h1 [Hk Hf]%IH. split; [done|]. destruct found as [[j copy]|]; [|done].
      cbn [length]. split; [lia|apply Hf]. }
    intros H. run; try (by apply Hrest).
    all: children;
      try match goal with
          | H : otherTabs _ _ _ _ _ _ _ = Ok _ _ |- _ =>
              apply Hrest in H as [? ?]; split; [by eapply keeps_trans|done]
          end.
    all: (split; [bounds|]); cbn [length]; (split; [lia|]); intros rs ? ?;
      simplify_eq; rewrite ?length_insert, ?length_arr_copy; try done; lia.
Qed.

Lemma broadcast_out h res h' :
  h !! st = Some o → broadcast env a st h = Ok res h' →
  keeps X h h' ∧ (boundsOf env o idx routes → stateOut env h' res).
Proof.
  intros Hst H. unfold broadcast in H.
  apply bind_inv in H as (index & h1 & Hi & H).
  apply bind_inv in H as (routes' & h2 & Hr & H).
  apply bind_inv in H as (found & h3 & Hfound & H).
  rewrite (stateIndex_Ok _ _ _ Hst) in Hi. injection Hi as <- <-.
  rewrite (routesOf_Ok _ _ _ _ Hst Hroutes) in Hr. injection Hr as <- <-.
  apply otherTabs_out in Hfound as [Hk Hf].
  pose proof (proj2 Hk st _ HXst Hst) as Hst3.
  rewrite (bind_Ok _ _ _ _ _ (stateIndex_Ok _ _ _ Hst3)) in H.
  destruct (bool_decide _ || _) eqn:Hb in H; last first.
  { injection H as <- <-. split; [done|]. intros (? & ? & ?). bounds. }
  rewrite (bind_Ok _ _ _ _ _ (readObj_Ok _ _ _ Hst3)) in H.
  rewrite (bind_Ok _ _ _ _ _ (alloc_Ok _ _)) in H. injection H as <- <-.
  split; [bounds|]. intros (Hidx & Hlt & Hlen). cbn [stateOut].
  destruct found as [[j copy]|].
  - destruct Hf as [Hj Hcopy]. rewrite <- Hlen in Hj. destruct copy as [rs|].
    + eapply inBounds_alloc; [reflexivity..| |]; rewrite (Hcopy rs) by (done || lia); lia.
    + eapply inBounds_alloc; [reflexivity..| |]; lia.
  - rewrite Hidx in Hb. by rewrite bool_decide_eq_false_2 in Hb by naive_solver.
Qed.

(** Lines 111-282. *)
Lemma reduce_out input h res h' :
  h !! st = Some o → reduce env a input st h = Ok res h' →
  keeps X h h'
  ∧ (boundsOf env o idx routes → initialRouteIndex env < length (order env) → stateOut env h' res).
Proof.
  intros Hst H. unfold reduce, changeTab, orFinally, andThen in H.
  apply bind_inv in H as (f1 & h1 & H1 & H).
  apply bind_inv in H1 as (f0 & h0 & H0 & H1).
  apply passAction_out in H0 as [Hk0 Hf0]; [|done].
  pose proof (proj2 Hk0 st _ HXst Hst) as Hst0.
  destruct f0 as [r0|[]].
  { unfold ret in *. simplify_eq. split; [done|]. intros Hwf _.
    match goal with Hf : boundsOf _ _ _ _ → _ |- _ => exact (Hf Hwf) end. }
  apply activeTab_out in H1 as [Hk1 Hf1]; [|done].
  pose proof (proj2 Hk1 st _ HXst Hst0) as Hst1.
  assert (keeps X h h1) as Hka by eauto using keeps_trans.
  destruct f1 as [r1|last].
  { unfold ret in *. simplify_eq. split; [done|]. intros Hwf _.
    match goal with Hf : boundsOf _ _ _ _ → _ |- _ => exact (Hf Hwf) end. }
  apply bind_inv in H as (i & h2 & H2 & H).
  apply backIndex_out in H2 as [-> Hi]; [|done].
  apply bind_inv in H as (f3 & h3 & H3 & H).
  apply bind_inv in H3 as (f4 & h4 & H4 & H3).
  apply navigate_out in H4 as [Hk4 Hf4]; [|done].
  pose proof (proj2 Hk4 st _ HXst Hst1) as Hst4.
  assert (keeps X h h4) as Hkn by eauto using keeps_trans.
  destruct f4 as [r4|[i' d]].
  { unfold ret in *. simplify_eq. split; [done|]. intros Hwf Hinit. by apply Hf4, Hi. }
  apply bind_inv in H3 as (f5 & h5 & H5 & H3).
  apply setParams_out in H5 as [Hk5 Hf5]; [|done].
  pose proof (proj2 Hk5 st _ HXst Hst4) as Hst5.
  assert (keeps X h h5) as Hks by eauto using keeps_trans.
  destruct f5 as [r5|[]].
  { unfold ret in *. simplify_eq. split; [done|]. intros Hwf _.
    match goal with Hf : boundsOf _ _ _ _ → _ |- _ => exact (Hf Hwf) end. }
  apply indexChange_out in H3 as [Hk3 Hf3]; [|done].
  pose proof (proj2 Hk3 st _ HXst Hst5) as Hst3.
  assert (keeps X h h3) as Hki by eauto using keeps_trans.
  destruct f3 as [r3|[]].
  { unfold ret in *. simplify_eq. split; [done|]. intros Hwf Hinit.
    by apply Hf3, Hf4, Hi. }
  apply broadcast_out in H as [Hk6 Hf6]; [|done].
  split; [by eapply keeps_trans|]. intros Hwf _.
    match goal with Hf : boundsOf _ _ _ _ → _ |- _ => exact (Hf Hwf) end.
Qed.

End State.
End Frame.

(** The reducer reads the state and its routes before it returns. *)
Lemma reduce_reads env a input st h res h' :
  reduce env a input st h = Ok res h' →
  ∃ o routes, h !! st = Some o ∧ o_routes o = Some routes.
Proof.
  intros H. destruct (h !! st) as [o|] eqn:Hst.
  - destruct (o_routes o) as [routes|] eqn:Hroutes; [eauto|].
    unfold reduce, passAction, activeTab, StateUtils.indexOf,
      StateUtils.indexOfByName in H. run.
  - unfold reduce, passAction, activeTab, StateUtils.indexOf,
      StateUtils.indexOfByName in H. run.
Qed.

Lemma mapM_mergeParams_fresh params routes h rs h' :
  mapM (mergeParams params) routes h = Ok rs h' →
  ∀ l, ERef l ∈ rs → (length h ≤ l)%nat.
Proof.
  revert h rs h'. induction routes as [|e routes IH]; intros h rs h'; cbn [mapM].
  - intros [= <- _] l Hl. by apply elem_of_nil in Hl.
  - intros (e' & h1 & He & (rs' & h2 & Hrs & [= <- _])%bind_inv)%bind_inv l Hl.
    specialize (IH _ _ _ Hrs). destruct e as [| |l0]; cbn [mergeParams] in He.
    + injection He as <- <-. apply elem_of_cons in Hl as [|Hl]; [done|by apply IH].
    + done.
    + apply bind_inv in He as (r & h0 & Hr & He). unfold readObj in Hr.
      destruct (h !! l0); [|done]. injection Hr as <- <-.
      injection He as <- <-. apply elem_of_cons in Hl as [[= ->]|Hl]; [done|].
      apply IH in Hl. rewrite length_app in Hl. lia.
Qed.

(** Lines 63-92. *)
Lemma establishState_out env a X input h st h1 :
  childrenKeep env →
  establishState env a input h = Ok st h1 →
  keeps X h h1
  ∧ match input with
    | Some l => l = st ∧ h1 = h
    | None =>
        (length h ≤ st)%nat
        ∧ ∃ routes,
            h1 !! st = Some (mkObj None None None (Some (initialRouteIndex env))
                               (Some routes))
            ∧ length routes = length (order env)
    end.
Proof.
  intros Hchildren H. destruct input as [l|].
  - injection H as <- <-. split; [apply keeps_refl|done].
  - split; [|split; [|by eapply establishState_absent]].
    + unfold establishState in H. apply bind_inv in H as (rs & h0 & Hrs & H).
      injection H as <- <-. apply keeps_alloc. by eapply mapM_initialRoute_keeps.
    + unfold establishState in H. apply bind_inv in H as (rs & h0 & Hrs & H).
      injection H as <- <-.
      by destruct (mapM_initialRoute_keeps env a (λ _, True) Hchildren _ _ _ _ Hrs).
Qed.

(** Lines 94-109. *)
Lemma initParams_out a st h u h' :
  initParams a st h = Ok u h' →
  (assigns a = false ∧ h' = h)
  ∨ (assigns a = true
     ∧ ∃ o routes rs news,
         h !! st = Some o ∧ o_routes o = Some routes
         ∧ h' = <[st := set_routes rs o]> (h ++ news)
         ∧ length rs = length routes
         ∧ ∀ l, ERef l ∈ rs → (length h ≤ l)%nat).
Proof.
  unfold initParams, assigns. intros H.
  destruct (decide (a_type a = INIT)) as [Ht|Ht]; last first.
  { injection H as <-. left. by rewrite bool_decide_eq_false_2. }
  destruct (a_params a) as [params|]; last first.
  { injection H as <-. left. rewrite (bool_decide_eq_false_2 (is_Some None)); [|by intros [? ?]].
    by rewrite andb_false_r. }
  right. split.
  { rewrite !bool_decide_eq_true_2; [done|by eexists|done]. }
  apply bind_inv in H as (routes & h0 & Hroutes & H).
  apply bind_inv in H as (rs & h1 & Hrs & H).
  apply bind_inv in H as (o & h2 & Ho & H).
  unfold routesOf, StateUtils.routesOf, bind, readObj, ret, throw in Hroutes.
  destruct (h !! st) as [o0|] eqn:Hst; [|done].
  destruct (o_routes o0) as [routes0|] eqn:Hr0; [|done]. simplify_eq.
  destruct (mapM_mergeParams_extends _ _ _ _ _ Hrs) as [news ->].
  unfold readObj in Ho. rewrite (lookup_app_l_Some _ _ _ _ Hst) in Ho. simplify_eq.
  unfold writeObj in H. case_decide; [|done]. injection H as <-.
  exists o, routes, rs, news. split; [done|]. split; [done|]. split; [done|].
  split; [by eapply mapM_length|by eapply mapM_mergeParams_fresh].
Qed.

(** The reducer as a whole: what it keeps of the store, and the bounds of
    the state it returns. *)
Lemma getStateForAction_out env a input h res h' :
  childrenKeep env → embedsInit a = false →
  getStateForAction env a input h = Ok res h' →
  keeps (untouched a input) h h'
  ∧ (initialRouteIndex env < length (order env) →
     (∀ st, input = Some st → inBounds env h st) → stateOut env h' res).
Proof.
  intros Hchildren Hquiet H.
  unfold getStateForAction, NavigationActions.mapDeprecatedActionAndWarn in H.
  apply bind_inv in H as (st & h1 & Hest & H).
  apply bind_inv in H as (u & h2 & Hip & Hred).
  destruct (reduce_reads _ _ _ _ _ _ _ Hred) as (o2 & routes2 & Hst2 & Hroutes2).
  set (X := λ l, (l < length h ∧ untouched a input l) ∨ l = st).
  destruct (establishState_out env a (λ _, True) input h st h1 Hchildren Hest)
    as [Hk1 Hin].
  assert (input = None → length h ≤ st)%nat as Hfresh.
  { intros ->. by destruct Hin. }
  assert (st < length h1) as Hlt1.
  { destruct input as [l|].
    - destruct Hin as [-> ->].
      destruct (initParams_out _ _ _ _ _ Hip) as [[_ ->]|(_ & o & ? & ? & ? & Ho & _)];
        by eapply lookup_lt_Some.
    - destruct Hin as (_ & routes & Hst1 & _). by eapply lookup_lt_Some. }
  assert (assigns a = true → ∀ l, ERef l ∈ routes2 → ¬ X l) as Hsafe.
  { intros Ha l Hl.
    destruct (initParams_out _ _ _ _ _ Hip)
      as [[? _]|(_ & o & routes & rs & news & Ho & Hr & -> & _ & Hrs)]; [congruence|].
    rewrite list_lookup_insert_eq in Hst2 by (rewrite length_app; lia).
    injection Hst2 as <-. cbn in Hroutes2. injection Hroutes2 as <-.
    apply Hrs in Hl. destruct Hk1 as [Hlen _]. intros [[? _]| ->]; lia. }
  assert (keeps (untouched a input) h h2) as Hk2.
  { destruct (initParams_out _ _ _ _ _ Hip)
      as [[? ->]|(Ha & o & routes & rs & news & Ho & Hr & -> & _ & Hrs)].
    - by eapply keeps_mono; [|exact Hk1].
    - destruct Hk1 as [Hlen Hk1].
      split; [rewrite length_insert, length_app; lia|].
      intros l o' Hl Ho'. rewrite list_lookup_insert_ne; last first.
      { intros <-. destruct input as [l|].
        - destruct Hin as [-> _]. by apply (Hl Ha).
        - apply lookup_lt_Some in Ho'. specialize (Hfresh eq_refl). lia. }
      apply lookup_app_l_Some. by apply Hk1. }
  destruct (reduce_out env a X Hchildren Hquiet st o2 0 routes2
              ltac:(by right) Hroutes2 Hsafe input h2 res h' Hst2 Hred) as [Hk _].
  split.
  - destruct Hk2 as [Hlen2 Hk2], Hk as [Hlen Hk]. split; [lia|].
    intros l o Hl Ho. apply Hk.
    + left. split; [by eapply lookup_lt_Some|done].
    + by apply Hk2.
  - intros Hinit Hinput.
    assert (∃ idx, o_index o2 = Some idx ∧ idx < length routes2
                   ∧ length routes2 = length (order env)) as (idx & Hidx & Hlt & Hlen).
    { assert (inBounds env h1 st) as (o1 & idx & routes1 & Hst1 & Hidx & Hr1 & Hlt & Hlen).
      { destruct input as [l|].
        - destruct Hin as [-> ->]. by apply Hinput.
        - destruct Hin as (_ & routes & Hst1 & Hlen).
          eexists _, (initialRouteIndex env), routes. split; [done|]. cbn.
          by rewrite Hlen. }
      destruct (initParams_out _ _ _ _ _ Hip)
        as [[? ->]|(Ha & o & routes & rs & news & Ho & Hr & -> & Hlenrs & Hrs)].
      - simplify_eq. eauto.
      - rewrite list_lookup_insert_eq in Hst2 by (rewrite length_app; lia).
        simplify_eq. cbn in Hroutes2. simplify_eq. exists idx. cbn.
        split; [done|]. rewrite Hlenrs. done. }
    destruct (reduce_out env a X Hchildren Hquiet st o2 idx routes2
                ltac:(by right) Hroutes2 Hsafe input h2 res h' Hst2 Hred) as [_ Hout].
    by apply Hout.
Qed.

(** X12: the reducer assigns to no object of the store it is called on,
    except to the input state on an Init action with params; everything
    else it makes is a new object.  The nested routers are taken to do the
    same, and no action embedded in the action is an Init with params. *)
Theorem X12_reducer_keeps_the_objects_of_the_store env a input h res h' :
  childrenKeep env → embedsInit a = false →
  getStateForAction env a input h = Ok res h' →
  keeps (untouched a input) h h'.
Proof.
  intros Hchildren Hquiet H.
  by destruct (getStateForAction_out env a input h res h' Hchildren Hquiet H).
Qed.

(** X13: the state the reducer returns has one route per tab and an index
    within them, whenever the input state has, or is absent.  The router
    was built; the nested routers assign to no object of the store except
    the state they are given on an Init with params, and no action embedded
    in the action is such an Init, so that the state is not changed under
    the reducer. *)
Theorem X13_returned_state_is_in_bounds configs config env a input h l h' :
  makeEnv configs config = Built env →
  childrenKeep env → embedsInit a = false →
  (∀ st, input = Some st → inBounds env h st) →
  getStateForAction env a input h = Ok (Some l) h' →
  inBounds env h' l.
Proof.
  intros Henv Hchildren Hquiet Hinput H.
  destruct (getStateForAction_out env a input h (Some l) h' Hchildren Hquiet H)
    as [_ Hout].
  apply Hout; [by eapply makeEnv_initialRouteIndex|done].
Qed.

(** *** Routers that meet what is asked of nested routers *)

Lemma childrenKeep_leafOnly env : leafOnly env = true → childrenKeep env.
Proof. intros Hleaf name r a s h res h' Hr. by destruct (leafOnly_lookup env name r Hleaf Hr). Qed.

(** A TabRouter is such a router when its own nested routers are. *)
Lemma TabRouter_keeps configs config env r a s h res h' :
  makeEnv configs config = Built env → childrenKeep env →
  TabRouter configs config = Built r → embedsInit a = false →
  Router.getStateForAction r a s h = Ok res h' → keeps (untouched a s) h h'.
Proof.
  intros Henv Hchildren Hr Hquiet H. unfold TabRouter in Hr. rewrite Henv in Hr.
  injection Hr as <-. cbn in H.
  by destruct (getStateForAction_out env a s h res h' Hchildren Hquiet H).
Qed.

Lemma makeEnv_childrenKeep configs config env :
  makeEnv configs config = Built env →
  (∀ name c r a s h res h',
     (name, c) ∈ configs → screen c ≫= router = Some r → embedsInit a = false →
     Router.getStateForAction r a s h = Ok res h' → keeps (untouched a s) h h') →
  childrenKeep env.
Proof.
  intros (_ & _ & Hin & Hout)%makeEnv_tables Hall name r a s h res h' Hr.
  destruct (decide (name ∈ order env)) as [Hname|Hname].
  - destruct (Hin name Hname) as (c & Hc & _ & Ht). rewrite Ht in Hr.
    injection Hr as Hr. unfold routeConfigOf in Hc.
    destruct (lookupConfig configs name) as [c'|] eqn:Hc';
      [|by destruct (inherited name); simplify_eq].
    injection Hc as ->. eapply Hall; [|done]. by apply lookupConfig_Some.
  - destruct (Hout name Hname) as [Ht _]. congruence.
Qed.

(** The three tabs with two nested navigators. *)
Lemma appEnv_childrenKeep : childrenKeep appEnv.
Proof.
  apply (makeEnv_childrenKeep appRoutes noConfig); [reflexivity|].
  intros name c r a s h res h' Hin Hr.
  repeat (apply elem_of_cons in Hin as [[= -> ->]|Hin]); [| | |by apply elem_of_nil in Hin].
  - discriminate Hr.
  - injection Hr as <-.
    by apply (TabRouter_keeps [("General", leaf); ("Inbox", leaf)] noConfig
                (envOf [("General", leaf); ("Inbox", leaf)] noConfig) _ a s h res h' eq_refl
                (childrenKeep_leafOnly (envOf [("General", leaf); ("Inbox", leaf)] noConfig) eq_refl)
                eq_refl).
  - injection Hr as <-.
    by apply (TabRouter_keeps [("Unread", leaf); ("General", leaf)] noConfig
                (envOf [("Unread", leaf); ("General", leaf)] noConfig) _ a s h res h' eq_refl
                (childrenKeep_leafOnly (envOf [("Unread", leaf); ("General", leaf)] noConfig) eq_refl)
                eq_refl).
Qed.

(** An Init with params on the state of the three tabs: the state (at 9)
    is assigned to, and the nested navigators assign to the routes made for
    them; the eleven objects of the store are otherwise as they were. *)
Lemma X12_witness :
  ∃ res h',
    getStateForAction appEnv (NavigationActions.init (Some {["a" := PNum 1]}))
      (Some 9) appStore = Ok res h'
    ∧ keeps (untouched (NavigationActions.init (Some {["a" := PNum 1]})) (Some 9))
        appStore h'.
Proof.
  eexists _, _. split; [vm_compute; reflexivity|].
  eapply (X12_reducer_keeps_the_objects_of_the_store appEnv
            (NavigationActions.init (Some {["a" := PNum 1]})) (Some 9) appStore).
  - exact appEnv_childrenKeep.
  - reflexivity.
  - vm_compute; reflexivity.
Defined.

Lemma X13_witness :
  ∃ l h',
    getStateForAction appEnv (NavigationActions.navigate "Inbox") (Some 10) appStore
    = Ok (Some l) h'
    ∧ inBounds appEnv h' l.
Proof.
  eexists _, _. split; [vm_compute; reflexivity|].
  eapply (X13_returned_state_is_in_bounds appRoutes noConfig appEnv
            (NavigationActions.navigate "Inbox") (Some 10) appStore).
  - reflexivity.
  - exact appEnv_childrenKeep.
  - reflexivity.
  - intros st [= <-]. exists (stateObj None 1 [0; 4; 8]), 1, [ERef 0; ERef 4; ERef 8].
    repeat split; vm_compute; lia.
  - vm_compute; reflexivity.
Defined.

(** ** The answer to an absent input state *)

Lemma position_none p h routes i :
  allRoutes h routes = true →
  (∀ k l o, routes !! k = Some (ERef l) → h !! l = Some o → p o = false) →
  StateUtils.position p routes i h = Ok (-1)%Z h.
Proof.
  revert i. induction routes as [|e routes IH]; intros i; [done|].
  intros [(l & o & -> & Ho) Hall]%allRoutes_cons Hp. cbn [StateUtils.position].
  step. rewrite (Hp 0 l o) by done. apply IH; [done|]. intros k. apply (Hp (S k)).
Qed.

Lemma position_found p h routes i k l o :
  allRoutes h routes = true →
  routes !! k = Some (ERef l) → h !! l = Some o → p o = true →
  ∃ n, StateUtils.position p routes i h = Ok (i + Z.of_nat n)%Z h ∧ n < length routes.
Proof.
  revert i k. induction routes as [|e routes IH]; intros i k; [done|].
  intros [(l0 & o0 & -> & Ho0) Hall]%allRoutes_cons Hk Hl Hp.
  cbn [StateUtils.position]. step. destruct (p o0) eqn:Hp0.
  - exists 0. split; [unfold ret; do 2 f_equal; lia|cbn; lia].
  - destruct k as [|k]; [cbn in Hk; simplify_eq; congruence|].
    destruct (IH (i + 1)%Z k Hall Hk Hl Hp) as (n & Hn & Hlt).
    exists (S n). split; [rewrite Hn; f_equal; lia|cbn; lia].
Qed.

(** Line 126 on a property of [tabRouters] that is no router: [null], or an
    inherited property. *)
Lemma passAction_throws env a inner st h o routes i l :
  a_type a = PASS → a_action a = Some inner →
  is_Some (tabRouterOf env (js_key (a_routeName a))) →
  routerOfTab env (a_routeName a) = None
  ∨ routerOfTab env (a_routeName a) = Some inheritedValue →
  h !! st = Some o → o_routes o = Some routes →
  (if truthy (a_key a) then StateUtils.indexOf st (a_key a)
   else StateUtils.indexOfByName st (a_routeName a)) h = Ok i h →
  (0 ≤ i)%Z → arr_get routes (Some (Z.to_nat i)) = Some l →
  passAction env a st h = Throw TypeError.
Proof.
  intros Ht Ha [entry Hentry] Hr Hst Hroutes Hi Hpos Hl.
  unfold passAction. rewrite Ha, Hentry. rewrite decide_True by done.
  unfold bind at 1. rewrite Hi. rewrite decide_True by done. step. rewrite Hl.
  unfold routerOfTab in Hr. rewrite Hentry in Hr. cbn in Hr.
  destruct entry as [r|]; [|done].
  destruct Hr as [Hr|Hr]; [done|]. by injection Hr as ->.
Qed.

Lemma tabsState_indexAt env h st idx : tabsState env h st idx → indexAt h st = Some idx.
Proof. intros (o & routes & Hst & Hidx & _). unfold indexAt. by rewrite Hst. Qed.

Lemma navigatedIndex_navigates env a idx n :
  navigatesTo env a n → navigatedIndex env a idx = n.
Proof.
  intros [Ht [tabId Hf]]. unfold navigatedIndex. rewrite decide_True by done.
  by rewrite Hf.
Qed.

Lemma navigatedIndex_other env a idx :
  (∀ n, ¬ navigatesTo env a n) → navigatedIndex env a idx = idx.
Proof.
  intros Hno. unfold navigatedIndex. case_decide as Ht; [|done].
  destruct (findTab (order env) (a_routeName a) 0) as [[n tabId]|] eqn:Hf; [|done].
  destruct (Hno n). split; eauto.
Qed.

Lemma findRoute_found p routes h l h' :
  findRoute p routes h = Ok (Some l) h' →
  h' = h ∧ ERef l ∈ routes ∧ ∃ r, h !! l = Some r ∧ p r = true.
Proof.
  induction routes as [|e routes IH]; cbn [findRoute]; [done|].
  destruct e as [| |l0]; [done..|].
  unfold bind, readObj. destruct (h !! l0) as [r|] eqn:Hr; [|done].
  destruct (p r) eqn:Hp.
  - intros [= <- <-]. split; [done|]. split; [by left|eauto].
  - intros (-> & Hin & Hex)%IH. split; [done|]. split; [by right|done].
Qed.

Lemma arr_indexOf_elem routes l :
  ERef l ∈ routes → ∃ k, arr_indexOf routes l = Some k ∧ routes !! k = Some (ERef l).
Proof.
  induction routes as [|e routes IH]; [by intros ?%elem_of_nil|].
  intros Hin. cbn [arr_indexOf]. case_decide as He.
  - exists 0. by rewrite He.
  - apply elem_of_cons in Hin as [Heq|Hin]; [congruence|].
    destruct (IH Hin) as (k & -> & Hk). by exists (S k).
Qed.

Section Tabs.
Context (env : Env) (a : Action) (st : loc) (h : Store) (o : JsObj)
  (idx : nat) (routes : list elem).
Hypothesis Hleaf : ∀ i, routerOfTab env (order env !! i) = None.
Hypothesis Hst : h !! st = Some o.
Hypothesis Hidx : o_index o = Some idx.
Hypothesis Hroutes : o_routes o = Some routes.
Hypothesis Hlt : idx < length routes.
Hypothesis Hlen : length routes = length (order env).
Hypothesis Hnames :
  ∀ i name, order env !! i = Some name →
    ∃ l route, routes !! i = Some (ERef l) ∧ h !! l = Some route
               ∧ o_key route = Some name ∧ o_routeName route = Some name.

Lemma tabs_allRoutes : allRoutes h routes = true.
Proof.
  apply allRoutes_spec. intros i e He.
  destruct (lookup_lt_is_Some_2 (order env) i) as [name Hname].
  { rewrite <- Hlen. by eapply lookup_lt_Some. }
  destruct (Hnames i name Hname) as (l & route & Hl & Hr & _).
  exists l, route. split; [congruence|done].
Qed.

Lemma tabs_stateAt : stateAt h st o idx routes.
Proof. repeat split; try done. apply tabs_allRoutes. Qed.

Lemma tabs_same : tabsState env h st idx.
Proof. exists o, routes. repeat split; done. Qed.

(** A new state whose slot [n] holds a new route with the key and the
    route name of the old one. *)
Lemma tabs_slot (news : Store) n lold r new r' o' l' j :
  routes !! n = Some (ERef lold) → h !! lold = Some r →
  (h ++ news) !! new = Some r' →
  o_key r' = o_key r → o_routeName r' = o_routeName r →
  (h ++ news) !! l' = Some o' → o_index o' = Some j →
  o_routes o' = Some (<[n := ERef new]> routes) →
  tabsState env (h ++ news) l' j.
Proof.
  intros Hn Hold Hnew Hkey Hname Hl' Hj Hr'. exists o', (<[n := ERef new]> routes).
  split; [done|]. split; [done|]. split; [done|]. split; [by rewrite length_insert|].
  intros i name Hi. destruct (Hnames i name Hi) as (l & route & Hl & Hr & Hk & Hrn).
  destruct (decide (i = n)) as [->|Hne].
  - exists new, r'. rewrite list_lookup_insert_eq by (by eapply lookup_lt_Some).
    simplify_eq. split; [done|]. split; [done|]. by rewrite Hkey, Hname.
  - exists l, route. rewrite list_lookup_insert_ne by done.
    split; [done|]. rewrite lookup_app_l by (by eapply lookup_lt_Some). done.
Qed.

Lemma tabs_index (news : Store) l' j :
  (h ++ news) !! l' = Some (set_index (Some j) o) → tabsState env (h ++ news) l' j.
Proof.
  intros Hl'. exists (set_index (Some j) o), routes.
  split; [done|]. split; [done|]. split; [done|]. split; [done|].
  intros i name Hi. destruct (Hnames i name Hi) as (l & route & Hl & Hr & Hk & Hrn).
  exists l, route. split; [done|].
  rewrite lookup_app_l by (by eapply lookup_lt_Some). done.
Qed.

Lemma tabs_activeDeclines a' : declines env a' h (order env !! idx) (arr_get routes (Some idx)).
Proof.
  split.
  - destruct (allRoutes_lookup h routes idx tabs_allRoutes Hlt) as (l & r & Hl & _).
    unfold arr_get. rewrite Hl. by eexists.
  - intros r. by rewrite Hleaf.
Qed.

Lemma tabs_othersDecline : othersDecline env a h idx routes.
Proof.
  intros i tabId Hi _. split.
  - destruct (Hnames i tabId Hi) as (l & r & Hl & _).
    unfold arr_get. rewrite Hl. by eexists.
  - intros r. pose proof (Hleaf i) as Hr. rewrite Hi in Hr. by rewrite Hr.
Qed.


Lemma navigate_tabs :
  (∃ l' h' n, navigate env a st (Some idx) h = Ok (Return (Some l')) h'
              ∧ navigatesTo env a n ∧ tabsState env h' l' n
              ∧ ∃ news, h' = h ++ news)
  ∨ (∃ d, navigate env a st (Some idx) h
          = Ok (Next (Some (navigatedIndex env a idx), d)) h).
Proof.
  unfold navigatedIndex.
  destruct (decide (a_type a = NAVIGATE)) as [Ht|Ht];
    [|right; exists false; unfold navigate; by rewrite decide_False].
  destruct (findTab (order env) (a_routeName a) 0) as [[n tabId]|] eqn:Hf;
    [|right; exists false; unfold navigate; rewrite Hf; by case_match].
  cbn [fmap option_fmap option_map fst default].
  destruct (findTab_Some _ _ _ _ _ Hf) as (Hname & _ & Hn).
  replace (n - 0) with n in Hn by lia.
  assert (routerOfTab env (Some tabId) = None) as Hr.
  { pose proof (Hleaf n) as Hr. by rewrite Hn in Hr. }
  destruct (a_action a) as [inner|] eqn:Ha.
  { right. exists (truthy (Some tabId)). unfold navigate. rewrite Hf.
    rewrite decide_True by done. destruct (truthy (Some tabId)); [|done]. step.
    rewrite Ha, Hname. unfold routerOfTab in Hr.
    change (js_key (Some tabId)) with tabId in *.
    by destruct (tabRouterOf env tabId) as [[r|]|]. }
  destruct (a_params a) as [params|] eqn:Hp; last first.
  { right. exists (truthy (Some tabId)). by eapply navigate_plain. }
  destruct (decide (tabId = EmptyString)) as [->|Hne].
  { right. exists false. unfold navigate. rewrite Hf. by rewrite decide_True by done. }
  destruct (Hnames n tabId Hn) as (l & route & Hl & Hroute & Hk & Hrn).
  left. eexists _, _, n. split.
  { by apply (navigate_params env a st h o idx routes tabs_stateAt (Some idx) n tabId
                params l route). }
  split; [split; eauto|]. split; [|by eexists].
  apply (tabs_slot _ n l route (length h)
           (set_params (spread (orEmpty (o_params route)) params) route)
           (set_index (Some n) (set_routes (<[n := ERef (length h)]> routes) o)));
    try done.
  - by rewrite lookup_app_r, Nat.sub_diag by lia.
  - rewrite lookup_app_r by lia. by replace (S (length h) - length h) with 1 by lia.
Qed.


Lemma setParams_tabs :
  (∃ l' h', setParams a st h = Ok (Return (Some l')) h'
            ∧ a_type a = SET_PARAMS ∧ tabsState env h' l' idx
            ∧ ∃ news, h' = h ++ news)
  ∨ setParams a st h = Ok (Next tt) h.
Proof.
  unfold setParams. destruct (decide (a_type a = SET_PARAMS)) as [Ht|Ht]; [|by right].
  step.
  destruct (findRoute (λ route, bool_decide (o_key route = a_key a)) routes h)
    as [[l|] h1|e] eqn:Hf.
  - pose proof (findRoute_found _ _ _ _ _ Hf) as (-> & Hin & r & Hr & _).
    destruct (arr_indexOf_elem routes l Hin) as (k & Hk & Hl).
    left. eexists _, _. split.
    { unfold bind at 1. rewrite Hf. do 2 step.
      rewrite (bind_Ok (readObj st) _ (h ++ [merged a r]) o (h ++ [merged a r]))
        by (apply readObj_Ok; rewrite lookup_app_l; [done|by eapply lookup_lt_Some]).
      step. unfold ret. rewrite <- app_assoc. cbn [app].
      rewrite (arr_copy_allRoutes h routes tabs_allRoutes), Hk.
      unfold arr_set. rewrite decide_True by (by eapply lookup_lt_Some).
      rewrite length_app. cbn [length]. reflexivity. }
    split; [done|]. split; [|by eexists].
    apply (tabs_slot _ k l r (length h) (merged a r)
             (set_routes (<[k := ERef (length h)]> routes) o)); try done.
    + by rewrite lookup_app_r, Nat.sub_diag by lia.
    + rewrite lookup_app_r by lia.
      by replace (length h + 1 - length h) with 1 by lia.
  - destruct (findRoute_total (λ route, bool_decide (o_key route = a_key a))
                h routes tabs_allRoutes) as [Hn|(l & Hs & _)]; [|congruence].
    right. unfold bind. by rewrite Hn.
  - destruct (findRoute_total (λ route, bool_decide (o_key route = a_key a))
                h routes tabs_allRoutes) as [Hn|(l & Hs & _)]; congruence.
Qed.

(** Lines 140-282 on the state made for an absent input state, when no tab
    owns a nested router. *)
Lemma reduce_tabs :
  idx = initialRouteIndex env →
  passAction env a st h = Ok (Next tt) h →
  ∃ l h', reduce env a None st h = Ok (Some l) h'
          ∧ tabsState env h' l (navigatedIndex env a idx)
          ∧ ∃ news, h' = h ++ news.
Proof.
  intros Hinit Hpass. unfold reduce.
  erewrite orFinally_Next; last first.
  { erewrite andThen_Next by exact Hpass.
    eapply activeTab_declines; eauto. apply tabs_activeDeclines. }
  unfold changeTab.
  rewrite (bind_Ok _ _ _ _ _ (backIndex_Ok env a st h o idx routes Hst Hidx
                                tabs_allRoutes Hlt)).
  assert ((if bool_decide (a_type a = BACK)
              && bool_decide (backEligible a h idx routes)
              && shouldBackNavigateToInitialRoute env
           then Some (initialRouteIndex env) else Some idx) = Some idx) as ->.
  { rewrite <- Hinit. by case_match. }
  destruct navigate_tabs as [(l & h' & n & Hn & Hto & Htabs & Hnews)|[d Hn]].
  { exists l, h'. rewrite (navigatedIndex_navigates env a idx n Hto).
    split; [|done]. erewrite orFinally_Return; [done|]. by erewrite andThen_Return. }
  destruct setParams_tabs as [(l & h' & Hs & Ht & Htabs & Hnews)|Hs].
  { exists l, h'. split; [|split; [|done]].
    - erewrite orFinally_Return; [done|].
      erewrite andThen_Next by exact Hn. cbn beta iota. by erewrite andThen_Return.
    - unfold navigatedIndex. rewrite decide_False by congruence. done. }
  destruct (decide (navigatedIndex env a idx = idx)) as [Heq|Hne].
  - rewrite Heq in *. destruct d.
    + exists st, h. split; [|split; [apply tabs_same|exists []; by rewrite app_nil_r]].
      erewrite orFinally_Return; [done|].
      erewrite andThen_Next by exact Hn. cbn beta iota.
      erewrite andThen_Next by exact Hs.
      by rewrite (indexChange_same st h o idx Hst Hidx).
    + exists st, h. split; [|split; [apply tabs_same|exists []; by rewrite app_nil_r]].
      erewrite orFinally_Next; last first.
      { erewrite andThen_Next by exact Hn. cbn beta iota.
        erewrite andThen_Next by exact Hs.
        by rewrite (indexChange_same st h o idx Hst Hidx). }
      eapply broadcast_decline; eauto. apply tabs_othersDecline.
  - exists (length h), (h ++ [set_index (Some (navigatedIndex env a idx)) o]).
    split; [|split; [|by eexists]].
    + erewrite orFinally_Return; [done|].
      erewrite andThen_Next by exact Hn. cbn beta iota.
      erewrite andThen_Next by exact Hs.
      by rewrite (indexChange_moved st h o idx Hst Hidx).
    + apply tabs_index. by rewrite lookup_app_r, Nat.sub_diag by lia.
Qed.


(** The Pass branch falls through when the action addresses no route of the
    state. *)
Lemma passAction_tabs_skip :
  (∀ name, passesTo env a name → name ∉ order env) →
  passAction env a st h = Ok (Next tt) h.
Proof.
  intros Hno. unfold passAction.
  destruct (a_action a) as [inner|] eqn:Ha; [|done].
  destruct (decide (a_type a = PASS)) as [Ht|Ht]; [|done].
  destruct (tabRouterOf env (js_key (a_routeName a))) as [entry|] eqn:Hentry; [|done].
  assert ((if truthy (a_key a) then StateUtils.indexOf st (a_key a)
           else StateUtils.indexOfByName st (a_routeName a)) h = Ok (-1)%Z h) as Hi.
  { assert (∀ k l r, routes !! k = Some (ERef l) → h !! l = Some r →
                     addressed a r = false) as Hp.
    { intros k l r Hk Hr. apply not_true_is_false. intros Hp.
      destruct (lookup_lt_is_Some_2 (order env) k) as [name Hname].
      { rewrite <- Hlen. by eapply lookup_lt_Some. }
      destruct (Hnames k name Hname) as (l' & r' & Hl' & Hr' & Hkey & Hrn).
      simplify_eq. apply (Hno name); [|by eapply list_elem_of_lookup_2].
      split; [done|]. split; [by eexists|]. split; [by eexists|].
      unfold addressed in Hp. destruct (truthy (a_key a));
        apply bool_decide_eq_true in Hp; congruence. }
    unfold addressed in Hp.
    destruct (truthy (a_key a));
      unfold StateUtils.indexOf, StateUtils.indexOfByName; fold (routesOf st); step;
      by apply position_none; [apply tabs_allRoutes|]. }
  unfold bind at 1. rewrite Hi. by rewrite decide_False by lia.
Qed.

(** The Pass branch throws when the action addresses a route of the state
    and names a property of [tabRouters] that is no router. *)
Lemma passAction_tabs_throws name :
  passesTo env a name → name ∈ order env →
  routerOfTab env (a_routeName a) = None
  ∨ routerOfTab env (a_routeName a) = Some inheritedValue →
  passAction env a st h = Throw TypeError.
Proof.
  intros (Ht & [inner Ha] & Hentry & Hname) [k Hk]%list_elem_of_lookup_1 Hr.
  destruct (Hnames k name Hk) as (l & r & Hl & Hroute & Hkey & Hrn).
  assert (addressed a r = true) as Hp.
  { unfold addressed. destruct (truthy (a_key a)); apply bool_decide_eq_true; congruence. }
  destruct (position_found (addressed a) h routes 0 k l r tabs_allRoutes Hl Hroute Hp)
    as (n & Hn & Hlt').
  destruct (allRoutes_lookup h routes n tabs_allRoutes Hlt') as (l' & r' & Hl' & _).
  apply (passAction_throws env a inner st h o routes (Z.of_nat n) l'); try done.
  - unfold addressed in Hn.
    destruct (truthy (a_key a));
      unfold StateUtils.indexOf, StateUtils.indexOfByName; fold (routesOf st); step;
      by rewrite Hn.
  - lia.
  - rewrite Nat2Z.id. by apply arr_get_Some.
Qed.

End Tabs.

Lemma leafOnly_tabs env :
  leafOnly env = true → ownTabs env → ∀ i, routerOfTab env (order env !! i) = None.
Proof. intros Hleaf Hown i. apply leafOnly_routerOfTab; [done|by apply ownTabs_active]. Qed.

Lemma leafOnly_entry env name :
  leafOnly env = true →
  routerOfTab env name = None ∨ routerOfTab env name = Some inheritedValue.
Proof.
  intros Hleaf. destruct (routerOfTab env name) as [r|] eqn:Hr; [|by left].
  apply routerOfTab_Some, tabRouterOf_router in Hr as [Hr| ->]; [|by right].
  by destruct (leafOnly_lookup env _ r Hleaf Hr).
Qed.

(** The state made for an absent input state when no tab owns a nested
    router, after the Init branch. *)
Lemma fresh_state configs config env a h :
  makeEnv configs config = Built env → leafOnly env = true →
  ∃ st h2 o routes,
    getStateForAction env a None h = reduce env a None st h2
    ∧ h2 !! st = Some o ∧ o_index o = Some (initialRouteIndex env)
    ∧ o_routes o = Some routes ∧ length routes = length (order env)
    ∧ (∀ i name, order env !! i = Some name →
         ∃ l route, routes !! i = Some (ERef l) ∧ h2 !! l = Some route
                    ∧ o_key route = Some name ∧ o_routeName route = Some name)
    ∧ keeps (λ _, True) h h2.
Proof.
  intros Hbuilt Hleaf.
  pose proof (makeEnv_ownTabs _ _ _ Hbuilt) as Hown.
  unfold getStateForAction, NavigationActions.mapDeprecatedActionAndWarn.
  set (h0 := h ++ (routeObj <$> order env)).
  set (routes := ERef <$> seq (length h) (length (order env))).
  set (o := mkObj None None None (Some (initialRouteIndex env)) (Some routes)).
  assert (establishState env a None h = Ok (length h0) (h0 ++ [o])) as Hest.
  { unfold establishState.
    by rewrite (bind_Ok _ _ _ _ _
                  (mapM_initialRoute_leafOnly env a (order env) h Hleaf Hown)). }
  rewrite (bind_Ok _ _ _ _ _ Hest).
  assert (length h0 = length h + length (order env)) as Hlen0.
  { unfold h0. by rewrite length_app, length_fmap. }
  assert (length routes = length (order env)) as Hlenr.
  { unfold routes. by rewrite length_fmap, length_seq. }
  assert (∀ i name, order env !! i = Some name →
            routes !! i = Some (ERef (length h + i))
            ∧ (h0 ++ [o]) !! (length h + i) = Some (routeObj name)) as Hfresh.
  { intros i name Hi. pose proof (lookup_lt_Some _ _ _ Hi) as Hil. split.
    - unfold routes. by rewrite list_lookup_fmap, lookup_seq_lt by done.
    - rewrite lookup_app_l by lia. unfold h0. rewrite lookup_app_r by lia.
      replace (length h + i - length h) with i by lia.
      by rewrite list_lookup_fmap, Hi. }
  assert (allRoutes (h0 ++ [o]) routes = true) as Hall.
  { apply allRoutes_seq. rewrite length_app. cbn. lia. }
  assert ((h0 ++ [o]) !! length h0 = Some o) as Hst by apply lookup_alloc.
  assert (o_routes o = Some routes) as Hro by done.
  destruct (decide (a_type a = INIT ∧ is_Some (a_params a)))
    as [[Ht [params Hp]]|Hinit].
  - destruct (mapM_mergeParams params (h0 ++ [o]) routes [] Hall)
      as (news & Hm & Hlenn & Hnews).
    rewrite app_nil_r in Hm.
    set (routes' := ERef <$> seq (length (h0 ++ [o])) (length routes)) in *.
    assert (length (h0 ++ [o]) = length h0 + 1) as Hlen1.
    { rewrite length_app. cbn. lia. }
    exists (length h0), (<[length h0 := set_routes routes' o]> ((h0 ++ [o]) ++ news)),
      (set_routes routes' o), routes'.
    split; [|split; [|split; [done|split; [done|split; [|split]]]]].
    + erewrite bind_Ok; [done|].
      unfold initParams. rewrite decide_True by done. rewrite Hp. step.
      rewrite (bind_Ok _ _ _ _ _ Hm).
      rewrite (bind_Ok (readObj (length h0)) _ _ o ((h0 ++ [o]) ++ news))
        by (apply readObj_Ok; rewrite lookup_app_l by lia; apply lookup_alloc).
      unfold writeObj. rewrite decide_True; [done|]. rewrite length_app. lia.
    + rewrite list_lookup_insert_eq; [done|]. rewrite length_app. lia.
    + unfold routes'. by rewrite length_fmap, length_seq.
    + intros i name Hi. pose proof (lookup_lt_Some _ _ _ Hi) as Hil.
      destruct (Hfresh i name Hi) as [Hri Hoi].
      exists (length (h0 ++ [o]) + i), (initialized params (routeObj name)).
      split; [|split; [|done]].
      * unfold routes'. rewrite list_lookup_fmap, lookup_seq_lt by lia. done.
      * rewrite list_lookup_insert_ne by lia. rewrite lookup_app_r by lia.
        replace (length (h0 ++ [o]) + i - length (h0 ++ [o])) with i by lia.
        by eapply Hnews.
    + split; [rewrite length_insert, !length_app; lia|].
      intros l x _ Hl. pose proof (lookup_lt_Some _ _ _ Hl) as Hll.
      rewrite list_lookup_insert_ne by lia.
      rewrite !lookup_app_l by (rewrite ?length_app; lia). unfold h0.
      by rewrite lookup_app_l.
  - exists (length h0), (h0 ++ [o]), o, routes.
    rewrite (bind_Ok _ _ _ _ _ (initParams_skip a _ _ Hinit)).
    split; [done|]. split; [apply lookup_alloc|]. split; [done|]. split; [done|].
    split; [done|]. split.
    + intros i name Hi. destruct (Hfresh i name Hi) as [Hri Hoi]. eauto 10.
    + split; [rewrite length_app; lia|].
      intros l x _ Hl. pose proof (lookup_lt_Some _ _ _ Hl) as Hll.
      rewrite lookup_app_l by lia. unfold h0. by rewrite lookup_app_l.
Qed.

Lemma keeps_all_app (h h2 news : Store) :
  keeps (λ _, True) h h2 → keeps (λ _, True) h (h2 ++ news).
Proof.
  intros [Hlen Hk]. split; [rewrite length_app; lia|].
  intros l x _ Hl. rewrite lookup_app_l; [by apply Hk|].
  apply lookup_lt_Some in Hl. lia.
Qed.

(** With no input state and no nested routers: the state that is returned
    when a Pass action does not hit line 126. *)
Lemma getStateForAction_fresh configs config env a h :
  makeEnv configs config = Built env → leafOnly env = true →
  (∀ name, passesTo env a name → name ∉ order env) →
  ∃ st h', getStateForAction env a None h = Ok (Some st) h'
           ∧ tabsState env h' st (navigatedIndex env a (initialRouteIndex env))
           ∧ keeps (λ _, True) h h'.
Proof.
  intros Hbuilt Hleaf Hpass.
  destruct (fresh_state configs config env a h Hbuilt Hleaf)
    as (st & h2 & o & routes & -> & Hst & Hidx & Hroutes & Hlen & Hnames & Hkeeps).
  pose proof (leafOnly_tabs env Hleaf (makeEnv_ownTabs _ _ _ Hbuilt)) as Htabs.
  assert (initialRouteIndex env < length routes) as Hlt.
  { rewrite Hlen. by eapply makeEnv_initialRouteIndex. }
  destruct (reduce_tabs env a st h2 o (initialRouteIndex env) routes Htabs Hst Hidx
              Hroutes Hlt Hlen Hnames eq_refl)
    as (l & h' & Hrun & Hstate & news & ->).
  { by eapply passAction_tabs_skip. }
  exists l, (h2 ++ news). split; [done|]. split; [done|]. by apply keeps_all_app.
Qed.

(** With no input state and no nested routers: a Pass action that hits
    line 126. *)
Lemma getStateForAction_fresh_throws configs config env a h name :
  makeEnv configs config = Built env → leafOnly env = true →
  passesTo env a name → name ∈ order env →
  getStateForAction env a None h = Throw TypeError.
Proof.
  intros Hbuilt Hleaf Hpass Hname.
  destruct (fresh_state configs config env a h Hbuilt Hleaf)
    as (st & h2 & o & routes & -> & Hst & Hidx & Hroutes & Hlen & Hnames & Hkeeps).
  pose proof (leafOnly_tabs env Hleaf (makeEnv_ownTabs _ _ _ Hbuilt)) as Htabs.
  assert (initialRouteIndex env < length routes) as Hlt.
  { rewrite Hlen. by eapply makeEnv_initialRouteIndex. }
  assert (passAction env a st h2 = Throw TypeError) as Hthrow.
  { eapply passAction_tabs_throws; eauto. by apply leafOnly_entry. }
  unfold reduce, orFinally, andThen, bind. by rewrite Hthrow.
Qed.

(** C10: the code does not do what the claim says.  With no input state the
    reducer never returns null, whatever the router and its nested routers
    are: (1) whenever it returns, it returns a state, which has one route
    per tab and an index within them, the objects of the store being kept,
    when the router was built and the nested routers meet [childrenKeep].
    But it does not always return a state.  (2) A Pass action that
    carries an action throws the TypeError of line 126 on the state just
    made when [tabRouters[action.routeName]] is null or an inherited
    property and the route the action addresses is found ([i] being the
    index that [StateUtils] returns).  (3) In a router that was built and
    has no nested routers this is so for every such Pass action that
    addresses a route of [order].  (4) All the other actions are answered
    by such a router with a state: one route per tab, with the name of the
    tab for key and route name, and for index the position of the tab a
    Navigate names, or else the initial index. *)
Theorem C10_pass_throws_on_absent_state a h :
  (∀ env res h',
     getStateForAction env a None h = Ok res h' →
     ∃ st, res = Some st
           ∧ ∀ configs config,
               makeEnv configs config = Built env → childrenKeep env →
               embedsInit a = false →
               inBounds env h' st ∧ keeps (λ _, True) h h')
  ∧ (∀ env inner st h1 o routes i l,
       a_type a = PASS → a_action a = Some inner →
       is_Some (tabRouterOf env (js_key (a_routeName a))) →
       routerOfTab env (a_routeName a) = None
       ∨ routerOfTab env (a_routeName a) = Some inheritedValue →
       establishState env a None h = Ok st h1 →
       h1 !! st = Some o → o_routes o = Some routes →
       (if truthy (a_key a) then StateUtils.indexOf st (a_key a)
        else StateUtils.indexOfByName st (a_routeName a)) h1 = Ok i h1 →
       (0 ≤ i)%Z → arr_get routes (Some (Z.to_nat i)) = Some l →
       getStateForAction env a None h = Throw TypeError)
  ∧ (∀ configs config env name,
       makeEnv configs config = Built env → leafOnly env = true →
       passesTo env a name → name ∈ order env →
       getStateForAction env a None h = Throw TypeError)
  ∧ (∀ configs config env,
       makeEnv configs config = Built env → leafOnly env = true →
       (∀ name, passesTo env a name → name ∉ order env) →
       ∃ st h',
         getStateForAction env a None h = Ok (Some st) h'
         ∧ tabsState env h' st (navigatedIndex env a (initialRouteIndex env))
         ∧ keeps (λ _, True) h h').
Proof.
  split; [|split; [|split]].
  - intros env res h' Hrun.
    pose proof (getStateForAction_notNull env a h) as Hnot. rewrite Hrun in Hnot.
    destruct res as [st|]; [|done]. exists st. split; [done|].
    intros configs config Hbuilt Hchildren Hquiet.
    destruct (getStateForAction_out env a None h (Some st) h' Hchildren Hquiet Hrun)
      as [Hkeeps Hout].
    split; [apply Hout; [by eapply makeEnv_initialRouteIndex|done]|].
    eapply keeps_mono; [|exact Hkeeps]. by intros l _ _.
  - intros env inner st h1 o routes i l Ht Ha Hentry Hr Hest Hst Hroutes Hi Hpos Hl.
    unfold getStateForAction, NavigationActions.mapDeprecatedActionAndWarn.
    rewrite (bind_Ok _ _ _ _ _ Hest).
    rewrite (bind_Ok _ _ _ _ _ (initParams_skip a st h1 ltac:(intros [? _]; congruence))).
    unfold reduce, orFinally, andThen, bind.
    by rewrite (passAction_throws env a inner st h1 o routes i l).
  - intros configs config env name. apply getStateForAction_fresh_throws.
  - intros configs config env. apply getStateForAction_fresh.
Qed.

(** The failing input: a Pass to Profile, which has no nested router, with
    no input state; and a Pass to Main beside two nested navigators.  A
    Navigate to Profile is answered with a state whose index is 1. *)
Lemma C10_witness :
  getStateForAction flatEnv
    (mkAction PASS (Some "Profile") None None (Some (NavigationActions.navigate "Home")))
    None []
  = Throw TypeError
  ∧ getStateForAction appEnv
      (mkAction PASS (Some "Main") None None
         (Some (NavigationActions.navigate "Settings")))
      None []
    = Throw TypeError
  ∧ ∃ st h',
      getStateForAction flatEnv (NavigationActions.navigate "Profile") None []
      = Ok (Some st) h'
      ∧ tabsState flatEnv h' st 1 ∧ inBounds flatEnv h' st.
Proof.
  split; [|split].
  - apply (proj1 (proj2 (proj2 (C10_pass_throws_on_absent_state
             (mkAction PASS (Some "Profile") None None
                (Some (NavigationActions.navigate "Home"))) [])))
             flatRoutes noConfig flatEnv "Profile"); try reflexivity.
    + split; [reflexivity|]. split; [by eexists|]. split; [by eexists|reflexivity].
    + cbn. right. left.
  - refine (proj1 (proj2 (C10_pass_throws_on_absent_state
              (mkAction PASS (Some "Main") None None
                 (Some (NavigationActions.navigate "Settings"))) []))
              appEnv (NavigationActions.navigate "Settings") 9 (take 10 appStore)
              (stateObj None 0 [0; 4; 8]) [ERef 0; ERef 4; ERef 8] 0%Z 0
              _ _ _ _ _ _ _ _ _ _);
      first [reflexivity | by eexists | by left | lia].
  - destruct (proj2 (proj2 (proj2 (C10_pass_throws_on_absent_state
                (NavigationActions.navigate "Profile") [])))
                flatRoutes noConfig flatEnv) as (st & h' & Hrun & Htabs & _);
      try reflexivity.
    + by intros name [[=] _].
    + exists st, h'. split; [exact Hrun|]. split; [exact Htabs|].
      destruct (proj1 (C10_pass_throws_on_absent_state
                  (NavigationActions.navigate "Profile") []) flatEnv (Some st) h' Hrun)
        as (st' & [= <-] & Hbounds).
      apply (Hbounds flatRoutes noConfig); try reflexivity.
      by apply childrenKeep_leafOnly.
Defined.

(** ** Paths and components *)

Lemma mapM_ext {A B} (f g : A → M B) l h :
  (∀ x h, f x h = g x h) → mapM f l h = mapM g l h.
Proof.
  intros Hfg. revert h. induction l as [|x l IH]; intros h; [done|].
  cbn [mapM]. unfold bind. rewrite Hfg. destruct (g x h) as [y h1|]; [|done].
  by rewrite IH.
Qed.

(** X14: the paths the routes declare have no part in the resolution of a
    path: a router with any other table of paths resolves every path to the
    same action.  The comparison of line 336 sets [pathMatch] to the value
    it has. *)
Theorem X14_declared_paths_do_not_matter env ps path params h :
  getActionForPathAndParams (withPaths env ps) path params h
  = getActionForPathAndParams env path params h.
Proof.
  unfold getActionForPathAndParams. unfold bind.
  rewrite (mapM_ext (actionForTab (withPaths env ps) path params)
             (actionForTab env path params)); [done|].
  intros tabId h0. unfold actionForTab. cbn [tabRouters withPaths paths].
  by do 2 case_decide.
Qed.

Lemma mapM_Forall {A B} (P : B → Prop) (f : A → M B) l h ys h' :
  (∀ x h y h', x ∈ l → f x h = Ok y h' → P y) →
  mapM f l h = Ok ys h' → Forall P ys.
Proof.
  revert h ys h'. induction l as [|x l IH]; intros h ys h' Hf; cbn [mapM].
  - intros [= <- _]. constructor.
  - intros (y & h1 & Hy & (ys' & h2 & Hys & [= <- _])%bind_inv)%bind_inv.
    constructor.
    + eapply Hf; [by left|exact Hy].
    + eapply IH; [|exact Hys]. intros z h0 w h0' Hz. apply Hf. by right.
Qed.

(** The callback of lines 332-361 returns null or a Navigate to its tab,
    without key and without params. *)
Lemma actionForTab_shape env path params tabId h res h' :
  actionForTab env path params tabId h = Ok res h' →
  ∀ act, res = Some act →
    a_type act = NAVIGATE ∧ a_routeName act = Some tabId
    ∧ a_key act = None ∧ a_params act = None
    ∧ (is_Some (a_action act) → is_Some (routerOfTab env (Some tabId))).
Proof.
  unfold actionForTab, routerOfTab. change (js_key (Some tabId)) with tabId.
  intros H act ->. run; cbn; repeat split; try done; by intros [? ?].
Qed.

(** X15: the action a path resolves to, if any, is a Navigate to a route
    of [order] that carries neither a key nor params, whatever the params
    given with the path and whatever the nested routers answer; it carries
    an inner action only for a route that owns a router. *)
Theorem X15_resolved_action_is_a_bare_navigate env path params h act h' :
  getActionForPathAndParams env path params h = Ok (Some act) h' →
  a_type act = NAVIGATE ∧ a_key act = None ∧ a_params act = None
  ∧ ∃ tabId, tabId ∈ order env ∧ a_routeName act = Some tabId
             ∧ (is_Some (a_action act) → is_Some (routerOfTab env (Some tabId))).
Proof.
  unfold getActionForPathAndParams.
  intros (actions & h1 & Hm & [= Hfirst _])%bind_inv.
  assert (Forall (λ res, ∀ act, res = Some act →
                    a_type act = NAVIGATE ∧ a_key act = None ∧ a_params act = None
                    ∧ ∃ tabId, tabId ∈ order env ∧ a_routeName act = Some tabId
                               ∧ (is_Some (a_action act) →
                                  is_Some (routerOfTab env (Some tabId))))
            actions) as Hall.
  { eapply mapM_Forall; [|exact Hm]. intros tabId h0 res h0' Hin Hres act' Hact.
    destruct (actionForTab_shape _ _ _ _ _ _ _ Hres act' Hact) as (? & ? & ? & ? & ?).
    eauto 10. }
  unfold firstAction in Hfirst.
  destruct (filter is_Some actions) as [|res rest] eqn:Hf; [done|]. subst res.
  assert (Some act ∈ filter is_Some actions) as Hin by (rewrite Hf; by left).
  apply list_elem_of_filter in Hin as [_ Hin].
  rewrite Forall_forall in Hall. by apply (Hall (Some act) Hin).
Qed.

(** The path the Settings navigator resolves for the outer navigator. *)
Lemma X15_witness :
  ∃ tabId, tabId ∈ order pathEnv
           ∧ a_routeName (mkAction NAVIGATE (Some "Settings") None None
                            (Some (NavigationActions.navigate "General")))
             = Some tabId.
Proof.
  destruct (X15_resolved_action_is_a_bare_navigate pathEnv "settings/General" None
              pathStore
              (mkAction NAVIGATE (Some "Settings") None None
                 (Some (NavigationActions.navigate "General")))
              pathStore) as (_ & _ & _ & tabId & Hin & Hname & _).
  - reflexivity.
  - exists tabId. split; [exact Hin|exact Hname].
Defined.

Section PathOfState.
Context (configs : RouteConfigMap) (config : TabRouterConfig) (env : Env).
Hypothesis Henv : makeEnv configs config = Built env.
Context (st : loc) (h : Store) (o : JsObj) (idx : nat) (routes : list elem)
  (name : string) (c : RouteConfig) (s : Screen) (l : loc) (route : JsObj).
Hypothesis Hst : h !! st = Some o.
Hypothesis Hidx : o_index o = Some idx.
Hypothesis Hroutes : o_routes o = Some routes.
Hypothesis Hname : order env !! idx = Some name.
Hypothesis Hc : lookupConfig configs name = Some c.
Hypothesis Hs : screen c = Some s.
Hypothesis Hl : routes !! idx = Some (ERef l).
Hypothesis Hroute : h !! l = Some route.

Lemma subPath_declared : paths env !! name = Some (default name (path c)).
Proof.
  destruct (makeEnv_tables _ _ _ Henv) as (_ & _ & Hin & _).
  destruct (Hin name) as (c' & Hc' & Hp & _); [by eapply list_elem_of_lookup_2|].
  rewrite (routeConfigOf_own _ _ _ Hc) in Hc'. by simplify_eq.
Qed.

Lemma tabRouter_declared : tabRouters env !! name = Some (router s).
Proof.
  destruct (makeEnv_tables _ _ _ Henv) as (_ & _ & Hin & _).
  destruct (Hin name) as (c' & Hc' & _ & Ht); [by eapply list_elem_of_lookup_2|].
  rewrite (routeConfigOf_own _ _ _ Hc) in Hc'. simplify_eq. by rewrite Ht, Hs.
Qed.

Lemma getPathAndParamsForState_leaf :
  router s = None →
  getPathAndParamsForState env st h
  = Ok (Some (default name (path c)), o_params route) h.
Proof.
  intros Hr. unfold getPathAndParamsForState. do 2 step. rewrite Hidx.
  cbn [mbind option_bind]. rewrite Hname. unfold getScreenForRouteName.
  destruct (makeEnv_tables _ _ _ Henv) as (-> & _).
  change (js_key (Some name)) with name. rewrite Hc, Hs.
  rewrite (proj2 (arr_get_Some routes idx l) Hl). step. rewrite Hr.
  by rewrite subPath_declared.
Qed.

Lemma getPathAndParamsForState_nested r child h' :
  router s = Some r →
  Router.getPathAndParamsForState r l h = Ok child h' →
  getPathAndParamsForState env st h
  = Ok (if bool_decide (default name (path c) ≠ EmptyString)
        then Some (default name (path c) ++ "/" ++ js_key (fst child))%string
        else fst child,
        match snd child with
        | Some childParams => Some (spread (orEmpty (o_params route)) childParams)
        | None => o_params route
        end) h'.
Proof.
  intros Hr Hchild. unfold getPathAndParamsForState. do 2 step. rewrite Hidx.
  cbn [mbind option_bind]. rewrite Hname. unfold getScreenForRouteName.
  destruct (makeEnv_tables _ _ _ Henv) as (-> & _).
  change (js_key (Some name)) with name. rewrite Hc, Hs.
  rewrite (proj2 (arr_get_Some routes idx l) Hl). step. rewrite Hr.
  rewrite (bind_Ok _ _ _ _ _ Hchild). by rewrite subPath_declared.
Qed.

End PathOfState.

(** *** The route a path resolves to *)

Lemma firstAction_none n : firstAction (replicate n None) = None.
Proof. unfold firstAction. induction n as [|n IH]; [done|]. cbn. apply IH. Qed.

Lemma actionForTab_rejected env path h params tabId :
  rejects env path h params tabId → actionForTab env path params tabId h = Ok None h.
Proof.
  unfold rejects, resolverOfTab, routerOfTab, actionForTab.
  change (js_key (Some tabId)) with tabId.
  destruct (tabRouterOf env tabId) as [[r|]|]; cbn [mbind option_bind id].
  - destruct (Router.getActionForPathAndParams r) as [resolve|].
    + intros Hres. rewrite (bind_Ok _ _ _ _ _ Hres). by case_decide.
    + by intros [p ->].
  - by intros [p ->].
  - by intros [p ->].
Qed.

Lemma actionForTab_accepted env path h params tabId act :
  accepts env path h params tabId act →
  actionForTab env path params tabId h = Ok (Some act) h.
Proof.
  unfold accepts, resolverOfTab, routerOfTab, actionForTab.
  change (js_key (Some tabId)) with tabId.
  destruct (tabRouterOf env tabId) as [[r|]|]; cbn [mbind option_bind id].
  - destruct (Router.getActionForPathAndParams r) as [resolve|].
    + intros (inner & Hres & ->). by rewrite (bind_Ok _ _ _ _ _ Hres).
    + by intros [-> ->].
  - by intros [-> ->].
  - by intros [-> ->].
Qed.

Lemma getActionForPathAndParams_first env path h params before tabId after act :
  order env = before ++ tabId :: after →
  (∀ name, name ∈ before → rejects env path h params name) →
  accepts env path h params tabId act →
  resolversTotal env path h params after →
  getActionForPathAndParams env path params h = Ok (Some act) h.
Proof.
  intros Horder Hbefore Hacc Hafter.
  unfold getActionForPathAndParams. rewrite Horder.
  destruct (mapM_actionForTab_total env path h params after Hafter) as [rest Hrest].
  erewrite bind_Ok; last first.
  { erewrite mapM_app; last first.
    { apply mapM_const. intros name Hin. by apply actionForTab_rejected, Hbefore. }
    cbn [mapM]. erewrite bind_Ok; last first.
    { erewrite bind_Ok by (by apply actionForTab_accepted).
      erewrite bind_Ok by exact Hrest. done. }
    done. }
  unfold ret. by rewrite firstAction_skip.
Qed.

(** C9, amended.  (1) [getActionForPathAndParams] returns the Navigate
    action of the first route, in declaration order, that accepts the path:
    a route whose nested router has a resolver accepts when that resolver
    resolves the same, whole path to an inner action, which the Navigate
    carries, and rejects otherwise; any other route accepts every path when
    no params are supplied and rejects every path when params are supplied.
    The paths the routes declare are not consulted.  The resolvers of the
    later routes are run as well, and are to return.  (2) It returns null
    when every route rejects.  (3) The round trip: in a router that was
    built, for a state whose active route [tabId] owns a nested router and
    declares the non-empty path [declared], the path of the state is
    [declared], a slash and the path of the nested state; and it resolves
    to the Navigate to [tabId] that carries the inner action, provided that
    the resolver of the nested router resolves this whole path to an inner
    action and that every route declared before [tabId] rejects it.  The
    screen of the route is the one [getScreenForRouteName] returns. *)
Theorem C9_path_resolves_to_first_accepting_route env h :
  (∀ path params before tabId after act,
     order env = before ++ tabId :: after →
     (∀ name, name ∈ before → rejects env path h params name) →
     accepts env path h params tabId act →
     resolversTotal env path h params after →
     getActionForPathAndParams env path params h = Ok (Some act) h)
  ∧ (∀ path params,
       (∀ name, name ∈ order env → rejects env path h params name) →
       getActionForPathAndParams env path params h = Ok None h)
  ∧ (∀ configs config st o idx routes tabId c s r l route child declared
       resolve inner,
       makeEnv configs config = Built env →
       h !! st = Some o → o_index o = Some idx → o_routes o = Some routes →
       order env !! idx = Some tabId →
       routeConfigOf configs tabId = Some c → screen c = Some s → router s = Some r →
       path c = Some declared → declared ≠ EmptyString →
       getScreenForRouteName (routeConfigs env) (Some tabId) = Built s →
       routes !! idx = Some (ERef l) → h !! l = Some route →
       Router.getPathAndParamsForState r l h = Ok child h →
       let whole := (declared ++ "/" ++ js_key (fst child))%string in
       Router.getActionForPathAndParams r = Some resolve →
       resolve whole None h = Ok (Some inner) h →
       (∀ name, name ∈ take idx (order env) → rejects env whole h None name) →
       resolversTotal env whole h None (drop (S idx) (order env)) →
       ∃ ps,
         getPathAndParamsForState env st h = Ok (Some whole, ps) h
         ∧ getActionForPathAndParams env whole None h
           = Ok (Some (mkAction NAVIGATE (Some tabId) None None (Some inner))) h).
Proof.
  split; [|split].
  - intros path params before tabId after act. apply getActionForPathAndParams_first.
  - intros path params Hall. unfold getActionForPathAndParams.
    erewrite bind_Ok; last first.
    { apply mapM_const. intros name Hin. by apply actionForTab_rejected, Hall. }
    unfold ret. by rewrite firstAction_none.
  - intros configs config st o idx routes tabId c s r l route child declared resolve
      inner Henv Hst Hidx Hroutes Hname Hc Hs Hr Hp Hne Hscreen Hl Hroute Hchild whole
      Hres Hinner Hbefore Hafter.
    destruct (makeEnv_tables _ _ _ Henv) as (_ & _ & Hin & _).
    destruct (Hin tabId) as (c' & Hc' & Hpath & Ht); [by eapply list_elem_of_lookup_2|].
    rewrite Hc in Hc'. injection Hc' as <-. rewrite Hp in Hpath. rewrite Hs in Ht.
    cbn [default mbind option_bind] in Hpath, Ht. rewrite Hr in Ht.
    eexists. split.
    + unfold getPathAndParamsForState. do 2 step. rewrite Hidx.
      cbn [mbind option_bind]. rewrite Hname, Hscreen.
      change (js_key (Some tabId)) with tabId. rewrite Hpath.
      rewrite (proj2 (arr_get_Some routes idx l) Hl). step. rewrite Hr.
      rewrite (bind_Ok _ _ _ _ _ Hchild). cbn [truthy].
      by rewrite bool_decide_eq_true_2 by done.
    + apply (getActionForPathAndParams_first env whole h None (take idx (order env))
               tabId (drop (S idx) (order env))); [|done| |done].
      * by rewrite take_drop_middle.
      * unfold accepts, resolverOfTab, routerOfTab.
        change (js_key (Some tabId)) with tabId.
        rewrite (tabRouterOf_own _ _ _ Ht). cbn [mbind option_bind id].
        rewrite Hres. by exists inner.
Qed.

(** The path of the state whose active tab is Docs resolves to Docs: Help,
    declared before it, owns a router that does not resolve the path.  With
    params, the two tabs without routers reject every path. *)
Lemma C9_witness :
  getActionForPathAndParams linkEnv "docs/api" None linkStore
  = Ok (Some (mkAction NAVIGATE (Some "Docs") None None
                (Some (NavigationActions.navigate "Api")))) linkStore
  ∧ getActionForPathAndParams flatEnv "Profile" (Some ∅) flatStore = Ok None flatStore
  ∧ ∃ ps,
      getPathAndParamsForState linkEnv 4 linkStore = Ok (Some "docs/api", ps) linkStore
      ∧ getActionForPathAndParams linkEnv "docs/api" None linkStore
        = Ok (Some (mkAction NAVIGATE (Some "Docs") None None
                      (Some (NavigationActions.navigate "Api")))) linkStore.
Proof.
  split; [|split].
  - apply (proj1 (C9_path_resolves_to_first_accepting_route linkEnv linkStore)
             "docs/api" None ["Help"] "Docs" ["Main"]).
    + reflexivity.
    + intros name ->%list_elem_of_singleton. reflexivity.
    + exists (NavigationActions.navigate "Api"). split; reflexivity.
    + intros t r resolve ->%list_elem_of_singleton. by intros [=].
  - apply (proj1 (proj2 (C9_path_resolves_to_first_accepting_route flatEnv flatStore))
             "Profile" (Some ∅)).
    intros name Hin. vm_compute in Hin.
    apply elem_of_cons in Hin as [->|Hin]; [by exists ∅|].
    apply elem_of_cons in Hin as [->|Hin]; [by exists ∅|].
    by apply elem_of_nil in Hin.
  - refine (proj2 (proj2 (C9_path_resolves_to_first_accepting_route linkEnv linkStore))
              linkRoutes noConfig 4 (stateObj None 1 [0; 1; 2]) 1
              [ERef 0; ERef 1; ERef 2] "Docs"
              (mkRouteConfig (Some (mkScreen (Some (linkRouter "api" "docs/api" "Api"))))
                 (Some "docs"))
              (mkScreen (Some (linkRouter "api" "docs/api" "Api")))
              (linkRouter "api" "docs/api" "Api") 1 (routeObj "Docs")
              (Some "api", None) "docs" _ (NavigationActions.navigate "Api")
              _ _ _ _ _ _ _ _ _ _ _ _ _ _ _ _ _ _); try reflexivity.
    + discriminate.
    + intros name Hin. cbn in Hin. apply list_elem_of_singleton in Hin as ->. reflexivity.
    + intros t r resolve Hin. cbn in Hin. apply list_elem_of_singleton in Hin as ->.
      by intros [=].
Defined.

(** X16: in a router that was built, the path of a state whose active
    route owns no router is the path that route declares, or its name when
    it declares none, and the params are those of the active route; the
    store is not touched. *)
Theorem X16_path_of_a_route_without_router
    configs config env st h o idx routes name c s l route :
  makeEnv configs config = Built env →
  h !! st = Some o → o_index o = Some idx → o_routes o = Some routes →
  order env !! idx = Some name →
  lookupConfig configs name = Some c → screen c = Some s → router s = None →
  routes !! idx = Some (ERef l) → h !! l = Some route →
  getPathAndParamsForState env st h
  = Ok (Some (default name (path c)), o_params route) h.
Proof. intros. by eapply getPathAndParamsForState_leaf. Qed.

Lemma X16_witness :
  getPathAndParamsForState flatEnv 2 flatStoreA
  = Ok (Some "Home", Some {["a" := PNum 1]}) flatStoreA.
Proof.
  rewrite (X16_path_of_a_route_without_router flatRoutes noConfig flatEnv 2 flatStoreA
             (stateObj None 0 [0; 1]) 0 [ERef 0; ERef 1] "Home" leaf (mkScreen None) 0
             (set_params {["a" := PNum 1]} (routeObj "Home"))); reflexivity.
Defined.

(** X17: when the active route owns a router, the path is the declared
    path (or the name) of the route, a slash, and the path of the nested
    state, except that a route declaring the empty path contributes
    nothing; the params of the nested state override those of the route. *)
Theorem X17_path_of_a_route_with_router
    configs config env st h o idx routes name c s l route r child h' :
  makeEnv configs config = Built env →
  h !! st = Some o → o_index o = Some idx → o_routes o = Some routes →
  order env !! idx = Some name →
  lookupConfig configs name = Some c → screen c = Some s → router s = Some r →
  routes !! idx = Some (ERef l) → h !! l = Some route →
  Router.getPathAndParamsForState r l h = Ok child h' →
  getPathAndParamsForState env st h
  = Ok (if bool_decide (default name (path c) ≠ EmptyString)
        then Some (default name (path c) ++ "/" ++ js_key (fst child))%string
        else fst child,
        match snd child with
        | Some childParams => Some (spread (orEmpty (o_params route)) childParams)
        | None => o_params route
        end) h'.
Proof. intros. by eapply getPathAndParamsForState_nested. Qed.

Lemma X17_witness :
  getPathAndParamsForState pathEnv 5 pathStore = Ok (Some "settings/General", None) pathStore.
Proof.
  erewrite (X17_path_of_a_route_with_router
              [("Settings", nested [("General", leaf); ("Inbox", leaf)] (Some "settings"));
               ("Main", leaf)] noConfig pathEnv 5 pathStore
              (stateObj None 0 [3; 4]) 0 [ERef 3; ERef 4] "Settings"
              (nested [("General", leaf); ("Inbox", leaf)] (Some "settings"))
              _ 3 (stateObj (Some "Settings") 0 [0; 1]) _ (Some "General", None) pathStore);
    reflexivity.
Defined.

(** X18: the params a SetParams action sets on the active route are the
    params [getPathAndParamsForState] reports for the state the reducer
    returns, when the active route owns no router: the params of the route
    overridden by those of the action, under the declared path. *)
Theorem X18_params_set_are_the_params_reported
    configs config env a st h o idx routes name c s l route :
  makeEnv configs config = Built env →
  stateAt h st o idx routes →
  a_type a = SET_PARAMS →
  order env !! idx = Some name →
  lookupConfig configs name = Some c → screen c = Some s → router s = None →
  routes !! idx = Some (ERef l) → h !! l = Some route → o_key route = a_key a →
  (∀ i, i < idx → keyAt h routes i ≠ a_key a) →
  ∃ st' h',
    getStateForAction env a (Some st) h = Ok (Some st') h'
    ∧ getPathAndParamsForState env st' h'
      = Ok (Some (default name (path c)),
            Some (spread (orEmpty (o_params route)) (orEmpty (a_params a)))) h'.
Proof.
  intros Henv (Hst & Hidx & Hroutes & Hlt & Hall) Htype Hname Hc Hs Hr Hl Hroute Hkey Hfirst.
  pose proof (tabRouter_declared configs config env Henv idx name c s Hname Hc Hs) as Ht.
  set (routes' := <[idx := ERef (length h)]> routes).
  set (h' := h ++ [merged a route; set_routes routes' o]).
  exists (S (length h)), h'. split.
  - eapply (getStateForAction_setParams env a Htype st h o idx routes idx l route);
      try done.
    split; [rewrite (proj2 (arr_get_Some routes idx l) Hl); by eexists|].
    intros r Hrt. rewrite Hname in Hrt. unfold routerOfTab in Hrt.
    change (js_key (Some name)) with name in Hrt.
    rewrite (tabRouterOf_own _ _ _ Ht), Hr in Hrt. discriminate Hrt.
  - apply (getPathAndParamsForState_leaf configs config env Henv (S (length h)) h'
             (set_routes routes' o) idx routes' name c s (length h) (merged a route));
      try done.
    + unfold h'. rewrite lookup_app_r by lia.
      by replace (S (length h) - length h) with 1 by lia.
    + unfold routes'. by rewrite list_lookup_insert_eq.
    + unfold h'. rewrite lookup_app_r by lia.
      by replace (length h - length h) with 0 by lia.
Qed.

Lemma X18_witness :
  ∃ st' h',
    getStateForAction flatEnv
      (mkAction SET_PARAMS None (Some "Home") (Some {["a" := PNum 1]}) None)
      (Some 2) flatStore = Ok (Some st') h'
    ∧ getPathAndParamsForState flatEnv st' h'
      = Ok (Some "Home", Some {["a" := PNum 1]}) h'.
Proof.
  destruct (X18_params_set_are_the_params_reported flatRoutes noConfig flatEnv
              (mkAction SET_PARAMS None (Some "Home") (Some {["a" := PNum 1]}) None)
              2 flatStore (stateObj None 0 [0; 1]) 0 [ERef 0; ERef 1] "Home" leaf
              (mkScreen None) 0 (routeObj "Home")) as (st' & h' & Hrun & Hpath);
    try reflexivity.
  - repeat split; cbn; lia.
  - intros i Hi. lia.
  - exists st', h'. split; [exact Hrun|exact Hpath].
Defined.

(** X19: a router that was built and has no nested routers answers an
    action of type Init (without params), Back or of the application's own,
    on an absent state, with the initial state: one new route per tab, in
    the order of [order], with the route name for key and no params, and
    the initial index. *)
Theorem X19_initial_state configs config env a h :
  makeEnv configs config = Built env → leafOnly env = true →
  a_type a ≠ NAVIGATE → a_type a ≠ SET_PARAMS →
  ¬ (a_type a = INIT ∧ is_Some (a_params a)) →
  ¬ (a_type a = PASS ∧ is_Some (a_action a)) →
  getStateForAction env a None h
  = Ok (Some (length h + length (order env)))
      (h ++ (routeObj <$> order env)
         ++ [mkObj None None None (Some (initialRouteIndex env))
               (Some (ERef <$> seq (length h) (length (order env))))]).
Proof.
  intros Hbuilt Hleaf Hnav Hset Hinit Hpass.
  pose proof (makeEnv_ownTabs _ _ _ Hbuilt) as Hown.
  apply makeEnv_initialRouteIndex in Hbuilt as Hlt.
  unfold getStateForAction, NavigationActions.mapDeprecatedActionAndWarn.
  set (h0 := h ++ (routeObj <$> order env)).
  set (routes := ERef <$> seq (length h) (length (order env))).
  set (o := mkObj None None None (Some (initialRouteIndex env)) (Some routes)).
  assert (establishState env a None h = Ok (length h0) (h0 ++ [o])) as Hest.
  { unfold establishState.
    by rewrite (bind_Ok _ _ _ _ _ (mapM_initialRoute_leafOnly env a (order env) h Hleaf Hown)). }
  rewrite (bind_Ok _ _ _ _ _ Hest).
  rewrite (bind_Ok _ _ _ _ _ (initParams_skip a _ _ Hinit)).
  assert (length h0 = length h + length (order env)) as Hlen0.
  { unfold h0. by rewrite length_app, length_fmap. }
  assert (length routes = length (order env)) as Hlenr.
  { unfold routes. by rewrite length_fmap, length_seq. }
  assert (∀ i, i < length (order env) → is_Some (arr_get routes (Some i))) as Hget.
  { intros i Hi. unfold arr_get, routes. rewrite list_lookup_fmap.
    rewrite lookup_seq_lt by done. by eexists. }
  rewrite <- Hlen0, (assoc_L (++)).
  eapply (reduce_unmatched env a None (length h0) (h0 ++ [o]) o
            (initialRouteIndex env) routes); try done.
  - apply lookup_alloc.
  - lia.
  - apply allRoutes_seq. rewrite length_app. cbn. lia.
  - split; [by apply Hget|]. intros r Hr.
    by rewrite leafOnly_routerOfTab in Hr by (done || by apply ownTabs_active).
  - intros i tabId Htab _. split; [apply Hget; by eapply lookup_lt_Some|].
    intros r Hr. rewrite leafOnly_routerOfTab in Hr; [done|done|].
    left. apply Hown. by eapply list_elem_of_lookup_2.
Qed.

Lemma X19_witness :
  getStateForAction flatEnv back None [] = Ok (Some 2) flatStore.
Proof.
  rewrite (X19_initial_state flatRoutes noConfig flatEnv back []);
    try reflexivity; try discriminate; by intros [? _].
Defined.

(** X20: [getComponentForState] returns the screen of the active route
    when that route owns no router, without reading the routes of the
    state; it fails the invariant of line 288 when the index is outside
    [order], and also when the active route is named by the empty string. *)
Theorem X20_component_of_the_active_route env nested st h o idx :
  h !! st = Some o → o_index o = Some idx →
  (∀ name s, order env !! idx = Some name → name ≠ EmptyString →
             routerOfTab env (Some name) = None →
             getScreenForRouteName (routeConfigs env) (Some name) = Built s →
             getComponentForState env nested st h = Ok s h)
  ∧ (order env !! idx = None ∨ order env !! idx = Some EmptyString →
     getComponentForState env nested st h = Throw InvariantViolation).
Proof.
  intros Hst Hidx. split.
  - intros name s Hname Hne Hr Hs. unfold getComponentForState. step.
    rewrite Hidx. cbn [mbind option_bind]. rewrite Hname. cbn [truthy].
    rewrite bool_decide_eq_true_2 by done. unfold routerOfTab in Hr.
    unfold getComponentForRouteName. rewrite Hs.
    by destruct (tabRouterOf env (js_key (Some name))) as [[r|]|].
  - intros Hname. unfold getComponentForState. step.
    rewrite Hidx. cbn [mbind option_bind]. by destruct Hname as [-> | ->].
Qed.

Lemma X20_witness :
  getComponentForState flatEnv (λ _ _, throw Dangling) 2 flatStore
  = Ok (mkScreen None) flatStore
  ∧ getComponentForState emptyNameEnv (λ _ _, throw Dangling) 2 emptyNameStore
    = Throw InvariantViolation.
Proof.
  split.
  - destruct (X20_component_of_the_active_route flatEnv (λ _ _, throw Dangling) 2
                flatStore (stateObj None 0 [0; 1]) 0 eq_refl eq_refl) as [Hleaf _].
    apply (Hleaf "Home" (mkScreen None)); try reflexivity. discriminate.
  - destruct (X20_component_of_the_active_route emptyNameEnv (λ _ _, throw Dangling) 2
                emptyNameStore (stateObj None 0 [0; 1]) 0 eq_refl eq_refl) as [_ Hempty].
    apply Hempty. by right.
Defined.
